(** * Simulation core of the dungeon crawler: pathfinding, line of sight,
      spawner lifecycle, stuck recovery, combat resolution and passive drain.

    The development embeds the functions of [systems/EnemyAI] (the AI engine)
    and of [babylon/BabylonMode.tsx] (the frame orchestrator) and proves the
    properties stated about them.

    Conventions of the embedding.
    - A JavaScript [number] that can be fractional (pixel coordinates, health,
      frame timestamps) is an exact rational [Q]; inputs are finite numbers.
      A number that is integral by construction (tile indices produced by
      [Math.floor], A* costs, [Date.now()] milliseconds, spawner health) is a
      [Z].
    - [Math.sqrt] is never evaluated: every use in the embedded functions is a distance
      that is immediately compared with a radius, and since the square root
      is monotone the comparison is decided on the squares ([dist_leb],
      [dist_ltb]). The one exception is the diagonal step of
      [updateMovement], which divides by a square root: there [Math.sqrt] is
      a variable of the section, and what is proved about the movement holds
      for every function in its place.
    - [Math.random()], [Date.now()] and the cosine and sine of a random angle
      are arguments of the function that consumes them.
    - React state ([useState]) and refs ([useRef]) are fields of one [World]
      record that every handler threads; a [setTimeout] call appends a
      [Timer] to the world, and running a timer is a function of its own.
    - The handlers of chests, food platters, keys and doors read and write
      object lists that the [World] record does not carry; they thread a
      record of their own, [Loot.t], and the movement threads the player
      with the camera refs, [Camera.t]. A state that a memoised callback
      captured is an argument named [closure...]. *)

From Stdlib Require Import ZArith QArith Qround Qabs Lia Lqa List String Ascii Bool.
From stdpp Require Import gmap strings list.

Set Warnings "-register-all,-notation-for-abbreviation".
Local Open Scope Z_scope.

(** ** JavaScript numbers *)

Definition number : Type := Q.
Bind Scope Q_scope with number.

Definition Math_max (a b : number) : number :=
  if Qle_bool a b then b else a.

Definition Math_abs (a : number) : number := Qabs a.

Definition Math_floor (a : number) : Z := Qfloor a.

(** [a < b] on numbers. *)
Definition Qltb (a b : number) : bool := negb (Qle_bool b a).

Module Vector2.
Record t : Type := mk { x : number; y : number }.
End Vector2.

(** [dx * dx + dy * dy], the argument of every [Math.sqrt] of the source. *)
Definition sumSq (dx dy : number) : number := (dx * dx + dy * dy)%Q.

(** [Math.sqrt(dx*dx + dy*dy) <= r]. *)
Definition dist_leb (dx dy r : number) : bool :=
  Qle_bool 0 r && Qle_bool (sumSq dx dy) (r * r).

(** [Math.sqrt(dx*dx + dy*dy) < r]. *)
Definition dist_ltb (dx dy r : number) : bool :=
  Qltb 0 r && Qltb (sumSq dx dy) (r * r).

(** [Math.sqrt(dx*dx + dy*dy) > r]. *)
Definition dist_gtb (dx dy r : number) : bool := negb (dist_leb dx dy r).

(** ** Tile grid: [string[][]], one character per cell *)

Notation Grid := (list (list ascii)).

(** [map[y]?.[x]]: [None] is JavaScript's [undefined] (a negative or too
    large index on either axis). *)
Definition tileAt (map : Grid) (x y : Z) : option ascii :=
  if (x <? 0) || (y <? 0) then None
  else match map !! Z.to_nat y with
       | None => None
       | Some row => row !! Z.to_nat x
       end.

Definition tileIs (map : Grid) (x y : Z) (c : ascii) : bool :=
  match tileAt map x y with
  | Some c' => Ascii.eqb c' c
  | None => false
  end.

(** [map.length]. *)
Definition mapHeight (map : Grid) : Z := Z.of_nat (length map).

(** [map[0].length]; [None] is the TypeError raised on an empty grid. *)
Definition row0Length (map : Grid) : option Z :=
  match map with
  | [] => None
  | row :: _ => Some (Z.of_nat (length row))
  end.

(** The bounds test shared by [findPath] and the AI's [hasLineOfSight]:
    [x < 0 || x >= map[0].length || y < 0 || y >= map.length], evaluated left
    to right, so that the empty grid raises only when [x >= 0]. *)
Definition outOfBounds (map : Grid) (x y : Z) : option bool :=
  if x <? 0 then Some true
  else match row0Length map with
       | None => None
       | Some w => Some ((w <=? x) || (y <? 0) || (mapHeight map <=? y))
       end.

Inductive EnemyType : Type :=
  | goblin | orc | skeleton | shadow | spider | mm | big_monster | ghost | grunt.

Definition EnemyType_eqb (a b : EnemyType) : bool :=
  match a, b with
  | goblin, goblin | orc, orc | skeleton, skeleton | shadow, shadow
  | spider, spider | mm, mm | big_monster, big_monster
  | ghost, ghost | grunt, grunt => true
  | _, _ => false
  end.

(** [enemyType !== 'ghost'] for the optional [enemyType] argument. *)
Definition notGhost (enemyType : option EnemyType) : bool :=
  match enemyType with
  | Some ghost => false
  | _ => true
  end.

(** ** The AI engine *)

Module PathNode.
Inductive t : Type :=
  mk (x y f g h : Z) (parent : option t).
Definition x (n : t) : Z := let '(mk x _ _ _ _ _) := n in x.
Definition y (n : t) : Z := let '(mk _ y _ _ _ _) := n in y.
Definition f (n : t) : Z := let '(mk _ _ f _ _ _) := n in f.
Definition g (n : t) : Z := let '(mk _ _ _ g _ _) := n in g.
Definition h (n : t) : Z := let '(mk _ _ _ _ h _) := n in h.
Definition parent (n : t) : option t := let '(mk _ _ _ _ _ p) := n in p.
End PathNode.

Module EnemyAI.

(** The fields of the class instance ([this]). *)
Record t : Type := mk {
  tileSize : number;
  canvasWidth : number;
  canvasHeight : number
}.

Definition initial : t :=
  {| tileSize := 32; canvasWidth := 640; canvasHeight := 512 |}.

Definition setDimensions (this : t) (ts cw ch : number) : t :=
  {| tileSize := ts; canvasWidth := cw; canvasHeight := ch |}.

(** [calculateDistance(a, b) < r]. *)
Definition calculateDistance_ltb (a b : Vector2.t) (r : number) : bool :=
  dist_ltb (Vector2.x a - Vector2.x b)%Q (Vector2.y a - Vector2.y b)%Q r.

Definition calculateHeuristic (ax ay bx by_ : Z) : Z :=
  10 * (Z.abs (ax - bx) + Z.abs (ay - by_)).

Definition sameCell (nx ny : Z) (node : PathNode.t) : bool :=
  (PathNode.x node =? nx) && (PathNode.y node =? ny).

(** The scan [for (i = 1; i < openList.length; i++)] that keeps the first
    node of lowest [f]: the running best and its index, then the node under
    the cursor [i]. *)
Fixpoint lowestF (rest : list PathNode.t) (i : nat)
    (currentNode : PathNode.t) (currentIndex : nat) : PathNode.t * nat :=
  match rest with
  | [] => (currentNode, currentIndex)
  | n :: rest' =>
      if PathNode.f n <? PathNode.f currentNode
      then lowestF rest' (S i) n i
      else lowestF rest' (S i) currentNode currentIndex
  end.

(** [openList.splice(currentIndex, 1)]. *)
Fixpoint splice1 (l : list PathNode.t) (i : nat) : list PathNode.t :=
  match l, i with
  | [], _ => []
  | _ :: l', O => l'
  | a :: l', S i' => a :: splice1 l' i'
  end.

(** The in-place update of the first open node at the neighbour's cell:
    [existingNode.g = gCost; existingNode.f = fCost;
     existingNode.parent = currentNode] when [gCost < existingNode.g]. *)
Fixpoint relax (openList : list PathNode.t) (nx ny gCost fCost : Z)
    (currentNode : PathNode.t) : list PathNode.t :=
  match openList with
  | [] => []
  | n :: rest =>
      if sameCell nx ny n
      then (if gCost <? PathNode.g n
            then PathNode.mk (PathNode.x n) (PathNode.y n) fCost gCost
                   (PathNode.h n) (Some currentNode)
            else n) :: rest
      else n :: relax rest nx ny gCost fCost currentNode
  end.

(** One pass of the body of [for (const neighbor of neighbors)]. [None] is
    the TypeError of the bounds test on an empty grid. *)
Definition visitNeighbor (map : Grid) (enemyType : option EnemyType)
    (endX endY : Z) (closedList : list PathNode.t)
    (currentNode : PathNode.t) (openList : list PathNode.t)
    (nx ny : Z) : option (list PathNode.t) :=
  match outOfBounds map nx ny with
  | None => None
  | Some true => Some openList
  | Some false =>
      if notGhost enemyType && tileIs map nx ny "#" then Some openList
      else if existsb (sameCell nx ny) closedList then Some openList
      else
        let gCost := PathNode.g currentNode + 10 in
        let hCost := calculateHeuristic nx ny endX endY in
        let fCost := gCost + hCost in
        if existsb (sameCell nx ny) openList
        then Some (relax openList nx ny gCost fCost currentNode)
        else Some (openList ++
                     [PathNode.mk nx ny fCost gCost hCost (Some currentNode)])
  end.

(** Left, right, up, down. *)
Definition neighbors (currentNode : PathNode.t) : list (Z * Z) :=
  let cx := PathNode.x currentNode in
  let cy := PathNode.y currentNode in
  [(cx - 1, cy); (cx + 1, cy); (cx, cy - 1); (cx, cy + 1)].

Fixpoint visitNeighbors (map : Grid) (enemyType : option EnemyType)
    (endX endY : Z) (closedList : list PathNode.t)
    (currentNode : PathNode.t) (openList : list PathNode.t)
    (ns : list (Z * Z)) : option (list PathNode.t) :=
  match ns with
  | [] => Some openList
  | (nx, ny) :: ns' =>
      match visitNeighbor map enemyType endX endY closedList currentNode
              openList nx ny with
      | None => None
      | Some openList' =>
          visitNeighbors map enemyType endX endY closedList currentNode
            openList' ns'
      end
  end.

(** How the [while] loop of [findPath] ends, with the value of
    [iterations] at that point. *)
Inductive Outcome : Type :=
  | Reached (goal : PathNode.t) (iterations : nat)
  | Exhausted (openList closedList : list PathNode.t) (iterations : nat)
  | Raised (iterations : nat).

Definition maxIterations : nat := 100.

(** [while (openList.length > 0 && iterations < maxIterations)]. The
    structural argument [budget] is [maxIterations - iterations]. *)
Fixpoint search (budget : nat) (map : Grid) (enemyType : option EnemyType)
    (endX endY : Z) (openList closedList : list PathNode.t)
    (iterations : nat) : Outcome :=
  match openList with
  | [] => Exhausted openList closedList iterations
  | first :: rest =>
      match budget with
      | O => Exhausted openList closedList iterations
      | S budget' =>
          let iterations' := S iterations in
          let '(currentNode, currentIndex) := lowestF rest 1 first 0 in
          let openList1 := splice1 openList currentIndex in
          let closedList1 := closedList ++ [currentNode] in
          if sameCell endX endY currentNode
          then Reached currentNode iterations'
          else
            match visitNeighbors map enemyType endX endY closedList1
                    currentNode openList1 (neighbors currentNode) with
            | None => Raised iterations'
            | Some openList2 =>
                search budget' map enemyType endX endY openList2
                  closedList1 iterations'
            end
      end
  end.

(** Tile centre in pixels: [x * tileSize + tileSize / 2]. *)
Definition tileCentre (this : t) (cx cy : Z) : Vector2.t :=
  Vector2.mk (inject_Z cx * tileSize this + tileSize this / 2)%Q
             (inject_Z cy * tileSize this + tileSize this / 2)%Q.

(** [while (current) { path.unshift(centre); current = current.parent }]. *)
Fixpoint reconstruct (this : t) (current : PathNode.t) : list Vector2.t :=
  match current with
  | PathNode.mk cx cy _ _ _ parent =>
      match parent with
      | None => []
      | Some p => reconstruct this p
      end ++ [tileCentre this cx cy]
  end.

Definition startNodeOf (this : t) (start : Vector2.t) : PathNode.t :=
  PathNode.mk (Math_floor (Vector2.x start / tileSize this))
              (Math_floor (Vector2.y start / tileSize this)) 0 0 0 None.

(** The A* part of [findPath], after the short-circuit. *)
Definition runSearch (this : t) (start end_ : Vector2.t) (map : Grid)
    (enemyType : option EnemyType) : Outcome :=
  let endX := Math_floor (Vector2.x end_ / tileSize this) in
  let endY := Math_floor (Vector2.y end_ / tileSize this) in
  search maxIterations map enemyType endX endY [startNodeOf this start] [] 0.

(** [findPath] together with the number of loop iterations it ran; the
    path is [None] when the call raises. *)
Definition findPath_counted (this : t) (start end_ : Vector2.t) (map : Grid)
    (enemyType : option EnemyType) : option (list Vector2.t) * nat :=
  if calculateDistance_ltb start end_ (tileSize this * 3)%Q
  then (Some [end_], O)
  else
    match runSearch this start end_ map enemyType with
    | Reached goal n => (Some (tail (reconstruct this goal)), n)
    | Exhausted _ _ n => (Some [end_], n)
    | Raised n => (None, n)
    end.

Definition findPath (this : t) (start end_ : Vector2.t) (map : Grid)
    (enemyType : option EnemyType) : option (list Vector2.t) :=
  fst (findPath_counted this start end_ map enemyType).

(** The sample point number [i] of [hasLineOfSight], as a tile. *)
Definition sampleTile (this : t) (start : Vector2.t) (stepX stepY : number)
    (i : Z) : Z * Z :=
  let px := (Vector2.x start + stepX * inject_Z i)%Q in
  let py := (Vector2.y start + stepY * inject_Z i)%Q in
  (Math_floor (px / tileSize this), Math_floor (py / tileSize this)).

(** [for (let i = 0; i <= steps; i++)], with [count] samples left. *)
Fixpoint sightLoop (this : t) (start : Vector2.t) (stepX stepY : number)
    (map : Grid) (enemyType : option EnemyType) (count : nat) (i : Z)
    : option bool :=
  match count with
  | O => Some true
  | S count' =>
      let '(tileX, tileY) := sampleTile this start stepX stepY i in
      match outOfBounds map tileX tileY with
      | None => None
      | Some true => Some false
      | Some false =>
          if notGhost enemyType && tileIs map tileX tileY "#"
          then Some false
          else sightLoop this start stepX stepY map enemyType count' (i + 1)
      end
  end.

(** [Math.max(dx, dy) / this.tileSize]. *)
Definition sightSteps (this : t) (start end_ : Vector2.t) : number :=
  let dx := Math_abs (Vector2.x end_ - Vector2.x start) in
  let dy := Math_abs (Vector2.y end_ - Vector2.y start) in
  (Math_max dx dy / tileSize this)%Q.

(** Number of integers [i] with [0 <= i <= steps]. *)
Definition sampleCount (steps : number) : nat :=
  Z.to_nat (Math_floor steps + 1).

Definition hasLineOfSight (this : t) (start end_ : Vector2.t) (map : Grid)
    (enemyType : option EnemyType) : option bool :=
  let steps := sightSteps this start end_ in
  if Qeq_bool steps 0 then Some true
  else
    let stepX := ((Vector2.x end_ - Vector2.x start) / steps)%Q in
    let stepY := ((Vector2.y end_ - Vector2.y start) / steps)%Q in
    sightLoop this start stepX stepY map enemyType (sampleCount steps) 0.


(** One round of [while (attempts > 0)]: a point is drawn, [rand n] for
    [x] and [rand (n + 1)] for [y] when [n] numbers have been drawn before,
    and kept when its tile is floor. The result comes with the count of
    numbers drawn. *)
Fixpoint patrolPoint (this : t) (map : Grid) (rand : nat -> number)
    (n : nat) (attempts : nat) : option Vector2.t * nat :=
  match attempts with
  | O => (None, n)
  | S attempts' =>
      let x := (rand n * (canvasWidth this - tileSize this * 2)
                + tileSize this)%Q in
      let y := (rand (S n) * (canvasHeight this - tileSize this * 2)
                + tileSize this)%Q in
      if tileIs map (Math_floor (x / tileSize this))
           (Math_floor (y / tileSize this)) "."
      then (Some (Vector2.mk x y), S (S n))
      else patrolPoint this map rand (S (S n)) attempts'
  end.

(** [for (let i = 0; i < numPoints; i++)], with [count] rounds left. *)
Fixpoint patrolPoints (this : t) (map : Grid) (rand : nat -> number)
    (n : nat) (count : nat) (points : list Vector2.t) : list Vector2.t :=
  match count with
  | O => points
  | S count' =>
      let '(found, n') := patrolPoint this map rand n 50 in
      patrolPoints this map rand n' count'
        (match found with
         | Some point => points ++ [point]
         | None => points
         end)
  end.

(** [generatePatrolPoints(startPosition, map)]; [rand 0] is the
    [Math.random()] of the number of points. *)
Definition generatePatrolPoints (this : t) (startPosition : Vector2.t)
    (map : Grid) (rand : nat -> number) : list Vector2.t :=
  let numPoints := 3 + Math_floor (rand 0%nat * 3) in
  let points := patrolPoints this map rand 1 (Z.to_nat numPoints) [] in
  match points with
  | [] => [startPosition]
  | _ => points
  end.
End EnemyAI.

(** ** The frame orchestrator ([BabylonMode.tsx]) *)

Inductive AiType : Type := aggressive | patrol | guard.
Inductive AiState : Type := st_idle | st_patrol | st_chase | st_attack | st_return.
Inductive Direction : Type := north | south | east | west.
Inductive Animation : Type := idle | walk | hurt | attack.
Inductive PowerUpType : Type := health_regen | attack_buff | speed_buff.

(** [EnemyConfig] without its presentation-only fields ([rotation],
    [direction], [color], [hitFlash], [mmData], patrol data). *)
Module EnemyConfig.
Record t : Type := mk {
  id : string;
  type : EnemyType;
  position : Vector2.t;
  health : number;
  maxHealth : number;
  speed : number;
  damage : number;
  size : number;
  aiType : AiType;
  aiState : AiState;
  sightRange : number;
  attackRange : number
}.
End EnemyConfig.

Module Player.
Record t : Type := mk {
  position : Vector2.t;
  direction : Direction;
  health : number;
  maxHealth : number;
  isMoving : bool;
  animation : Animation;
  score : number;
  hitFlash : option Z
}.

Definition hit (p : t) (newHealth : number) (now : Z) : t :=
  {| position := position p; direction := direction p; health := newHealth;
     maxHealth := maxHealth p; isMoving := isMoving p; animation := hurt;
     score := score p; hitFlash := Some now |}.
End Player.

Module GameState.
Record t : Type := mk {
  player : Player.t;
  enemies : list EnemyConfig.t;
  level_map : Grid
}.

Definition withPlayer (s : t) (p : Player.t) : t :=
  {| player := p; enemies := enemies s; level_map := level_map s |}.
Definition withEnemies (s : t) (es : list EnemyConfig.t) : t :=
  {| player := player s; enemies := es; level_map := level_map s |}.
Definition withMap (s : t) (m : Grid) : t :=
  {| player := player s; enemies := enemies s; level_map := m |}.
End GameState.

Module GameProgress.
Record t : Type := mk {
  kills : Z;
  powerUpActive : bool;
  powerUpType : option PowerUpType;
  playerDead : bool;
  score : Z
}.

Definition withPlayerDead (g : t) (b : bool) : t :=
  {| kills := kills g; powerUpActive := powerUpActive g;
     powerUpType := powerUpType g; playerDead := b; score := score g |}.
End GameProgress.

Module StuckRecord.
Record t : Type := mk {
  position : Vector2.t;
  timeStuck : Z;
  randomDirection : option Vector2.t
}.
End StuckRecord.

(** [getSpawnerKey(x, y)] is the string [x,y]; it is one-to-one on pairs of
    integers, so the pair itself is the key. *)
Notation SpawnerKey := (Z * Z)%type.
Definition getSpawnerKey (x y : Z) : SpawnerKey := (x, y).

(** The function passed to a [setTimeout]. A respawn callback keeps the grid
    of the render whose [spawn...FromGenerator] closure scheduled it. *)
Inductive Callback : Type :=
  | RespawnGhost (closureMap : Grid) (generatorX generatorY : Z)
  | RespawnGrunt (closureMap : Grid) (generatorX generatorY : Z)
  | VerifySpawner (closureMap : Grid) (tileX tileY : Z) (t : ascii)
  | ClearRandomDirection (enemyId : string)
  | SetPlayerDead
  | ClearPlayerHitFlash.

Record Timer : Type := mkTimer { delay : Z; callback : Callback }.

Inductive SpawnKind : Type := GhostSpawn | GruntSpawn.

#[global] Instance SpawnKind_eq_dec : EqDecision SpawnKind.
Proof. solve_decision. Defined.

(** One console line [Spawned ghost at x,y] or [Spawned grunt at x,y], with
    the [Date.now()] of the call that printed it. *)
Record SpawnLine : Type := mkSpawnLine {
  line_kind : SpawnKind;
  line_key : SpawnerKey;
  line_time : Z
}.

Record World : Type := mkWorld {
  gameState : GameState.t;
  gameProgress : GameProgress.t;
  spawnerHealth : gmap SpawnerKey Z;
  spawnerActive : gmap SpawnerKey bool;       (* spawnerState.current.active *)
  spawnerLastUpdated : gmap SpawnerKey Z;     (* spawnerState.current.lastUpdated *)
  lastGhostSpawnTimes : gmap SpawnerKey Z;
  lastGruntSpawnTimes : gmap SpawnerKey Z;
  lastEnemyPositions : gmap string StuckRecord.t;
  enemyLastAttackTimes : gmap string number;
  timers : list Timer;
  console : list SpawnLine
}.

(** Field updates of the world ([{ ...prev, field: v }] and ref writes). *)
Definition set_gameState (v : GameState.t) (w : World) : World :=
  {| gameState := v;
     gameProgress := gameProgress w;
     spawnerHealth := spawnerHealth w;
     spawnerActive := spawnerActive w;
     spawnerLastUpdated := spawnerLastUpdated w;
     lastGhostSpawnTimes := lastGhostSpawnTimes w;
     lastGruntSpawnTimes := lastGruntSpawnTimes w;
     lastEnemyPositions := lastEnemyPositions w;
     enemyLastAttackTimes := enemyLastAttackTimes w;
     timers := timers w;
     console := console w |}.
Definition set_gameProgress (v : GameProgress.t) (w : World) : World :=
  {| gameState := gameState w;
     gameProgress := v;
     spawnerHealth := spawnerHealth w;
     spawnerActive := spawnerActive w;
     spawnerLastUpdated := spawnerLastUpdated w;
     lastGhostSpawnTimes := lastGhostSpawnTimes w;
     lastGruntSpawnTimes := lastGruntSpawnTimes w;
     lastEnemyPositions := lastEnemyPositions w;
     enemyLastAttackTimes := enemyLastAttackTimes w;
     timers := timers w;
     console := console w |}.
Definition set_spawnerHealth (v : gmap SpawnerKey Z) (w : World) : World :=
  {| gameState := gameState w;
     gameProgress := gameProgress w;
     spawnerHealth := v;
     spawnerActive := spawnerActive w;
     spawnerLastUpdated := spawnerLastUpdated w;
     lastGhostSpawnTimes := lastGhostSpawnTimes w;
     lastGruntSpawnTimes := lastGruntSpawnTimes w;
     lastEnemyPositions := lastEnemyPositions w;
     enemyLastAttackTimes := enemyLastAttackTimes w;
     timers := timers w;
     console := console w |}.
Definition set_spawnerActive (v : gmap SpawnerKey bool) (w : World) : World :=
  {| gameState := gameState w;
     gameProgress := gameProgress w;
     spawnerHealth := spawnerHealth w;
     spawnerActive := v;
     spawnerLastUpdated := spawnerLastUpdated w;
     lastGhostSpawnTimes := lastGhostSpawnTimes w;
     lastGruntSpawnTimes := lastGruntSpawnTimes w;
     lastEnemyPositions := lastEnemyPositions w;
     enemyLastAttackTimes := enemyLastAttackTimes w;
     timers := timers w;
     console := console w |}.
Definition set_spawnerLastUpdated (v : gmap SpawnerKey Z) (w : World) : World :=
  {| gameState := gameState w;
     gameProgress := gameProgress w;
     spawnerHealth := spawnerHealth w;
     spawnerActive := spawnerActive w;
     spawnerLastUpdated := v;
     lastGhostSpawnTimes := lastGhostSpawnTimes w;
     lastGruntSpawnTimes := lastGruntSpawnTimes w;
     lastEnemyPositions := lastEnemyPositions w;
     enemyLastAttackTimes := enemyLastAttackTimes w;
     timers := timers w;
     console := console w |}.
Definition set_lastGhostSpawnTimes (v : gmap SpawnerKey Z) (w : World) : World :=
  {| gameState := gameState w;
     gameProgress := gameProgress w;
     spawnerHealth := spawnerHealth w;
     spawnerActive := spawnerActive w;
     spawnerLastUpdated := spawnerLastUpdated w;
     lastGhostSpawnTimes := v;
     lastGruntSpawnTimes := lastGruntSpawnTimes w;
     lastEnemyPositions := lastEnemyPositions w;
     enemyLastAttackTimes := enemyLastAttackTimes w;
     timers := timers w;
     console := console w |}.
Definition set_lastGruntSpawnTimes (v : gmap SpawnerKey Z) (w : World) : World :=
  {| gameState := gameState w;
     gameProgress := gameProgress w;
     spawnerHealth := spawnerHealth w;
     spawnerActive := spawnerActive w;
     spawnerLastUpdated := spawnerLastUpdated w;
     lastGhostSpawnTimes := lastGhostSpawnTimes w;
     lastGruntSpawnTimes := v;
     lastEnemyPositions := lastEnemyPositions w;
     enemyLastAttackTimes := enemyLastAttackTimes w;
     timers := timers w;
     console := console w |}.
Definition set_lastEnemyPositions (v : gmap string StuckRecord.t) (w : World) : World :=
  {| gameState := gameState w;
     gameProgress := gameProgress w;
     spawnerHealth := spawnerHealth w;
     spawnerActive := spawnerActive w;
     spawnerLastUpdated := spawnerLastUpdated w;
     lastGhostSpawnTimes := lastGhostSpawnTimes w;
     lastGruntSpawnTimes := lastGruntSpawnTimes w;
     lastEnemyPositions := v;
     enemyLastAttackTimes := enemyLastAttackTimes w;
     timers := timers w;
     console := console w |}.
Definition set_enemyLastAttackTimes (v : gmap string number) (w : World) : World :=
  {| gameState := gameState w;
     gameProgress := gameProgress w;
     spawnerHealth := spawnerHealth w;
     spawnerActive := spawnerActive w;
     spawnerLastUpdated := spawnerLastUpdated w;
     lastGhostSpawnTimes := lastGhostSpawnTimes w;
     lastGruntSpawnTimes := lastGruntSpawnTimes w;
     lastEnemyPositions := lastEnemyPositions w;
     enemyLastAttackTimes := v;
     timers := timers w;
     console := console w |}.
Definition set_timers (v : list Timer) (w : World) : World :=
  {| gameState := gameState w;
     gameProgress := gameProgress w;
     spawnerHealth := spawnerHealth w;
     spawnerActive := spawnerActive w;
     spawnerLastUpdated := spawnerLastUpdated w;
     lastGhostSpawnTimes := lastGhostSpawnTimes w;
     lastGruntSpawnTimes := lastGruntSpawnTimes w;
     lastEnemyPositions := lastEnemyPositions w;
     enemyLastAttackTimes := enemyLastAttackTimes w;
     timers := v;
     console := console w |}.
Definition set_console (v : list SpawnLine) (w : World) : World :=
  {| gameState := gameState w;
     gameProgress := gameProgress w;
     spawnerHealth := spawnerHealth w;
     spawnerActive := spawnerActive w;
     spawnerLastUpdated := spawnerLastUpdated w;
     lastGhostSpawnTimes := lastGhostSpawnTimes w;
     lastGruntSpawnTimes := lastGruntSpawnTimes w;
     lastEnemyPositions := lastEnemyPositions w;
     enemyLastAttackTimes := enemyLastAttackTimes w;
     timers := timers w;
     console := v |}.

(** [setTimeout(callback, delay)]. *)
Definition setTimeout (cb : Callback) (d : Z) (w : World) : World :=
  set_timers (timers w ++ [mkTimer d cb]) w.

(** [setGameState(prev => ({ ...prev, player: p }))] and its siblings. *)
Definition setPlayer (p : Player.t) (w : World) : World :=
  set_gameState (GameState.withPlayer (gameState w) p) w.
Definition setEnemies (es : list EnemyConfig.t) (w : World) : World :=
  set_gameState (GameState.withEnemies (gameState w) es) w.
Definition setMap (m : Grid) (w : World) : World :=
  set_gameState (GameState.withMap (gameState w) m) w.

Definition TILE_SIZE : number := 32.

(** *** Bresenham line of sight (the utility at the top of the file) *)

(** The [while (true)] loop; [None] only when [fuel] runs out. *)
Fixpoint bresenham (fuel : nat) (map : Grid)
    (x0 y0 x1 y1 dx sx dy sy err : Z) : option bool :=
  match fuel with
  | O => None
  | S fuel' =>
      if tileIs map x0 y0 "#" then Some false
      else if (x0 =? x1) && (y0 =? y1) then Some true
      else
        let e2 := 2 * err in
        let '(err1, x0') :=
          if dy <=? e2 then (err + dy, x0 + sx) else (err, x0) in
        let '(err2, y0') :=
          if e2 <=? dx then (err1 + dx, y0 + sy) else (err1, y0) in
        bresenham fuel' map x0' y0' x1 y1 dx sx dy sy err2
  end.

(** [Math.floor((p + tileSize/2) / tileSize)]. *)
Definition centreTile (p tileSize : number) : Z :=
  Math_floor ((p + tileSize / 2) / tileSize).

(** The walk between two tiles, with the loop variables initialised as in
    the source. *)
Definition tileLineOfSight (fuel : nat) (map : Grid) (x0 y0 x1 y1 : Z)
    : option bool :=
  let dx := Z.abs (x1 - x0) in
  let sx := if x0 <? x1 then 1 else -1 in
  let dy := - Z.abs (y1 - y0) in
  let sy := if y0 <? y1 then 1 else -1 in
  bresenham fuel map x0 y0 x1 y1 dx sx dy sy (dx + dy).

(** Enough fuel for the walk from [(x0, y0)] to [(x1, y1)]. *)
Definition walkFuel (x0 y0 x1 y1 : Z) : nat :=
  S (Z.to_nat (Z.abs (x1 - x0) + Z.abs (y1 - y0))).

(** [hasLineOfSight(from, to, map, tileSize)]: no mover type among the
    arguments. The [None] branch is never taken ([tileLineOfSight_total]). *)
Definition hasLineOfSight (from to : Vector2.t) (map : Grid)
    (tileSize : number) : bool :=
  let x0 := centreTile (Vector2.x from) tileSize in
  let y0 := centreTile (Vector2.y from) tileSize in
  let x1 := centreTile (Vector2.x to) tileSize in
  let y1 := centreTile (Vector2.y to) tileSize in
  match tileLineOfSight (walkFuel x0 y0 x1 y1) map x0 y0 x1 y1 with
  | Some b => b
  | None => false
  end.

(** *** Spawner lifecycle *)

(** [isSpawnerActive(x, y, type)]: the tracker answers when it has a record;
    otherwise the closure's grid is consulted and the answer recorded. *)
Definition isSpawnerActive (closureMap : Grid) (x y : Z) (type : ascii)
    (now : Z) (w : World) : bool * World :=
  let key := getSpawnerKey x y in
  match spawnerActive w !! key with
  | None =>
      let isActive := tileIs closureMap x y type in
      (isActive,
       set_spawnerLastUpdated (<[key := now]> (spawnerLastUpdated w))
         (set_spawnerActive (<[key := isActive]> (spawnerActive w)) w))
  | Some b => (b, w)
  end.

Definition markSpawnerDestroyed (x y : Z) (now : Z) (w : World) : World :=
  let key := getSpawnerKey x y in
  set_lastGruntSpawnTimes (delete key (lastGruntSpawnTimes w))
    (set_lastGhostSpawnTimes (delete key (lastGhostSpawnTimes w))
       (set_spawnerLastUpdated (<[key := now]> (spawnerLastUpdated w))
          (set_spawnerActive (<[key := false]> (spawnerActive w)) w))).

(** The enemy literal of [spawnGhostFromGenerator]; its id and the position
    found by [findValidSpawnPosition] are arguments. *)
Definition newGhost (id : string) (spawnPosition : Vector2.t) : EnemyConfig.t :=
  {| EnemyConfig.id := id; EnemyConfig.type := ghost;
     EnemyConfig.position := spawnPosition;
     EnemyConfig.health := 2; EnemyConfig.maxHealth := 2;
     EnemyConfig.speed := 3 # 2; EnemyConfig.damage := 1;
     EnemyConfig.size := TILE_SIZE;
     EnemyConfig.aiType := aggressive; EnemyConfig.aiState := st_chase;
     EnemyConfig.sightRange := 350; EnemyConfig.attackRange := 3 |}.

Definition newGrunt (id : string) (spawnPosition : Vector2.t) : EnemyConfig.t :=
  {| EnemyConfig.id := id; EnemyConfig.type := grunt;
     EnemyConfig.position := spawnPosition;
     EnemyConfig.health := 3; EnemyConfig.maxHealth := 3;
     EnemyConfig.speed := 6 # 5; EnemyConfig.damage := 2;
     EnemyConfig.size := TILE_SIZE;
     EnemyConfig.aiType := aggressive; EnemyConfig.aiState := st_chase;
     EnemyConfig.sightRange := 350; EnemyConfig.attackRange := 3 |}.

(** [lastSpawnTimes.current[spawnerKey] || 0]. *)
Definition lastSpawnOr0 (times : gmap SpawnerKey Z) (key : SpawnerKey) : Z :=
  default 0 (times !! key).

Definition ghostInterval : Z := 2500.
Definition gruntInterval : Z := 4000.

Definition spawnGhostFromGenerator (closureMap : Grid)
    (generatorX generatorY : Z) (now : Z)
    (id : string) (spawnPosition : Vector2.t) (w : World) : World :=
  let spawnerKey := getSpawnerKey generatorX generatorY in
  let '(active, w1) := isSpawnerActive closureMap generatorX generatorY "B" now w in
  if negb active then markSpawnerDestroyed generatorX generatorY now w1
  else if negb (tileIs closureMap generatorX generatorY "B")
  then markSpawnerDestroyed generatorX generatorY now w1
  else if now - lastSpawnOr0 (lastGhostSpawnTimes w1) spawnerKey <? ghostInterval
  then setTimeout (RespawnGhost closureMap generatorX generatorY) ghostInterval w1
  else
    let w2 := set_lastGhostSpawnTimes
                (<[spawnerKey := now]> (lastGhostSpawnTimes w1)) w1 in
    let w3 := setEnemies
                (GameState.enemies (gameState w2) ++ [newGhost id spawnPosition])
                w2 in
    let w4 := set_console
                (console w3 ++ [mkSpawnLine GhostSpawn spawnerKey now]) w3 in
    setTimeout (RespawnGhost closureMap generatorX generatorY) ghostInterval w4.

Definition spawnGruntFromGenerator (closureMap : Grid)
    (generatorX generatorY : Z) (now : Z)
    (id : string) (spawnPosition : Vector2.t) (w : World) : World :=
  let spawnerKey := getSpawnerKey generatorX generatorY in
  let '(active, w1) := isSpawnerActive closureMap generatorX generatorY "G" now w in
  if negb active then markSpawnerDestroyed generatorX generatorY now w1
  else if negb (tileIs closureMap generatorX generatorY "G")
  then markSpawnerDestroyed generatorX generatorY now w1
  else if now - lastSpawnOr0 (lastGruntSpawnTimes w1) spawnerKey <? gruntInterval
  then setTimeout (RespawnGrunt closureMap generatorX generatorY) gruntInterval w1
  else
    let w2 := set_lastGruntSpawnTimes
                (<[spawnerKey := now]> (lastGruntSpawnTimes w1)) w1 in
    let w3 := setEnemies
                (GameState.enemies (gameState w2) ++ [newGrunt id spawnPosition])
                w2 in
    let w4 := set_console
                (console w3 ++ [mkSpawnLine GruntSpawn spawnerKey now]) w3 in
    setTimeout (RespawnGrunt closureMap generatorX generatorY) gruntInterval w4.

(** The body of the respawn timers:
    [if (isSpawnerActive(x, y, code)) spawn...FromGenerator(x, y)]. *)
Definition respawnGhost (closureMap : Grid) (x y : Z) (now : Z)
    (id : string) (spawnPosition : Vector2.t) (w : World) : World :=
  let '(active, w1) := isSpawnerActive closureMap x y "B" now w in
  if active then spawnGhostFromGenerator closureMap x y now id spawnPosition w1
  else w1.

Definition respawnGrunt (closureMap : Grid) (x y : Z) (now : Z)
    (id : string) (spawnPosition : Vector2.t) (w : World) : World :=
  let '(active, w1) := isSpawnerActive closureMap x y "G" now w in
  if active then spawnGruntFromGenerator closureMap x y now id spawnPosition w1
  else w1.

(** [newMap[tileY][tileX] = '.'] on a copy of the grid. The write happens
    only for a cell that was just read as a spawner, hence in range, where
    the assignment replaces the cell. *)
Definition rewriteToFloor (map : Grid) (tileX tileY : Z) : Grid :=
  match map !! Z.to_nat tileY with
  | Some row =>
      <[Z.to_nat tileY := <[Z.to_nat tileX := "."%char]> row]> map
  | None => map
  end.

(** The tile in front of the player. *)
Definition facedTile (p : Player.t) : Z * Z :=
  let dx := match Player.direction p with east => 1 | west => -1 | _ => 0 end in
  let dy := match Player.direction p with south => 1 | north => -1 | _ => 0 end in
  (Math_floor ((Vector2.x (Player.position p) + TILE_SIZE / 2) / TILE_SIZE) + dx,
   Math_floor ((Vector2.y (Player.position p) + TILE_SIZE / 2) / TILE_SIZE) + dy).

Definition spawnerDamage (g : GameProgress.t) : Z :=
  match GameProgress.powerUpActive g, GameProgress.powerUpType g with
  | true, Some attack_buff => 12
  | _, _ => 7
  end.

Definition isSpawnerCode (t : option ascii) : bool :=
  match t with
  | Some c => Ascii.eqb c "B" || Ascii.eqb c "G"
  | None => false
  end.

(** [handlePlayerAttackSpawner]: the handler is rebuilt on every change of
    the player or of the grid, so it reads both from the world. *)
Definition handlePlayerAttackSpawner (now : Z) (w : World) : World :=
  let player := GameState.player (gameState w) in
  let map := GameState.level_map (gameState w) in
  let '(tileX, tileY) := facedTile player in
  let t := tileAt map tileX tileY in
  if isSpawnerCode t then
    let key := getSpawnerKey tileX tileY in
    let damageAmount := spawnerDamage (gameProgress w) in
    match spawnerHealth w !! key with
    | Some h =>
        if 0 <? h then
          let h' := Z.max 0 (h - damageAmount) in
          let w1 := set_spawnerHealth (<[key := h']> (spawnerHealth w)) w in
          if h' <=? 0 then
            let w2 := markSpawnerDestroyed tileX tileY now w1 in
            let w3 := setMap
                        (rewriteToFloor (GameState.level_map (gameState w2))
                           tileX tileY) w2 in
            setTimeout (VerifySpawner map tileX tileY (default "."%char t)) 100 w3
          else w1
        else w
    | None => w
    end
  else w.

(** The effect that depends on [gameState.level.map]: every time the grid
    object changes (a room transition, but also the rewrite of a destroyed
    spawner's cell) the health table is built anew from the grid, 20 points
    for every [B] and every [G] cell. *)
Definition initialSpawnerHealth : Z := 20.

Fixpoint scanRow (x : nat) (y : Z) (row : list ascii)
    (newHealth : gmap (Z * Z) Z) : gmap (Z * Z) Z :=
  match row with
  | [] => newHealth
  | t :: rest =>
      scanRow (S x) y rest
        (if Ascii.eqb t "B"
         then <[getSpawnerKey (Z.of_nat x) y := initialSpawnerHealth]> newHealth
         else if Ascii.eqb t "G"
         then <[getSpawnerKey (Z.of_nat x) y := initialSpawnerHealth]> newHealth
         else newHealth)
  end.

Fixpoint scanRows (y : nat) (rows : Grid) (newHealth : gmap (Z * Z) Z)
    : gmap (Z * Z) Z :=
  match rows with
  | [] => newHealth
  | row :: rest => scanRows (S y) rest (scanRow 0 (Z.of_nat y) row newHealth)
  end.

Definition reloadSpawnerHealth (w : World) : World :=
  set_spawnerHealth (scanRows 0 (GameState.level_map (gameState w)) ∅) w.

(** *** Stuck detection and escape *)

Record StuckStatus : Type := mkStuckStatus {
  isStuck : bool;
  escapeVector : option Vector2.t
}.

Definition recordStuck (id : string) (r : StuckRecord.t) (w : World) : World :=
  set_lastEnemyPositions (<[id := r]> (lastEnemyPositions w)) w.

(** [checkAndHandleStuckEnemy(enemy)]. [cosA] and [sinA] are
    [Math.cos(randomAngle)] and [Math.sin(randomAngle)] of the angle drawn
    when a new escape heading is generated. *)
Definition checkAndHandleStuckEnemy (enemy : EnemyConfig.t) (now : Z)
    (cosA sinA : number) (w : World) : StuckStatus * World :=
  let id := EnemyConfig.id enemy in
  let currentPosition := EnemyConfig.position enemy in
  match lastEnemyPositions w !! id with
  | None =>
      (mkStuckStatus false None,
       recordStuck id (StuckRecord.mk currentPosition now None) w)
  | Some lastPosition =>
      let dx := (Vector2.x currentPosition
                 - Vector2.x (StuckRecord.position lastPosition))%Q in
      let dy := (Vector2.y currentPosition
                 - Vector2.y (StuckRecord.position lastPosition))%Q in
      if dist_gtb dx dy (TILE_SIZE * (1 # 10))%Q
      then (mkStuckStatus false None,
            recordStuck id (StuckRecord.mk currentPosition now None) w)
      else
        let stuckDuration := now - StuckRecord.timeStuck lastPosition in
        if 1000 <? stuckDuration then
          match StuckRecord.randomDirection lastPosition with
          | Some d => (mkStuckStatus true (Some d), w)
          | None =>
              let escape := Vector2.mk (cosA * (3 # 2))%Q (sinA * (3 # 2))%Q in
              let w1 := recordStuck id
                          (StuckRecord.mk currentPosition (now - 800) (Some escape))
                          w in
              (mkStuckStatus true (Some escape),
               setTimeout (ClearRandomDirection id) 1500 w1)
          end
        else
          (mkStuckStatus false None,
           recordStuck id
             (StuckRecord.mk currentPosition (StuckRecord.timeStuck lastPosition)
                (StuckRecord.randomDirection lastPosition)) w)
  end.

(** The timer set when an escape heading is generated. *)
Definition clearRandomDirection (id : string) (w : World) : World :=
  match lastEnemyPositions w !! id with
  | Some r =>
      recordStuck id
        (StuckRecord.mk (StuckRecord.position r) (StuckRecord.timeStuck r) None) w
  | None => w
  end.

Definition cleanupEnemyData (enemyId : string) (w : World) : World :=
  set_lastEnemyPositions (delete enemyId (lastEnemyPositions w)) w.


(** *** Combat: enemy attacks on the player inside [gameLoop] *)

Definition attackCheckRadius : number := (TILE_SIZE * 2)%Q.
Definition playerSize : number := (TILE_SIZE * (12 # 10))%Q.
Definition attackCooldown : number := 1100.

Definition adjustedPlayerPos (playerPos : Vector2.t) : Vector2.t :=
  Vector2.mk (Vector2.x playerPos + playerSize * (1 # 10))%Q
             (Vector2.y playerPos + playerSize * (1 # 10))%Q.

(** [enemyLastAttackTimes.get(enemy.id) || 0]. *)
Definition lastAttackTime (w : World) (id : string) : number :=
  default 0%Q (enemyLastAttackTimes w !! id).

(** The player update shared by the three hits:
    [health: Math.max(0, prev.player.health - amount), animation: 'hurt',
     hitFlash: Date.now()], then the [setTimeout] that clears the flash. *)
Definition hitPlayer (amount : number) (now : Z) (w : World) : World :=
  let p := GameState.player (gameState w) in
  setTimeout ClearPlayerHitFlash 500
    (setPlayer (Player.hit p (Math_max 0 (Player.health p - amount)) now) w).

Definition removeEnemy (id : string) (w : World) : World :=
  setEnemies
    (filter (fun e => EnemyConfig.id e ≠ id) (GameState.enemies (gameState w))) w.

(** The body of [gameState.enemies.forEach(enemy => ...)]. [snapshot] is the
    [gameState] the [gameLoop] closure was built with; the updates go to the
    current state through [setGameState(prev => ...)]. [roll] is the
    [Math.random()] of the long-range branch. *)
Definition enemyAttack (snapshot : GameState.t) (timestamp : number) (now : Z)
    (roll : number) (enemy : EnemyConfig.t) (w : World) : World :=
  let adjusted := adjustedPlayerPos (Player.position (GameState.player snapshot)) in
  let dx := (Vector2.x (EnemyConfig.position enemy) - Vector2.x adjusted)%Q in
  let dy := (Vector2.y (EnemyConfig.position enemy) - Vector2.y adjusted)%Q in
  if dist_leb dx dy attackCheckRadius then
    let canAttack :=
      Qle_bool attackCooldown (timestamp - lastAttackTime w (EnemyConfig.id enemy)) in
    let sight :=
      hasLineOfSight (EnemyConfig.position enemy) adjusted
        (GameState.level_map snapshot) TILE_SIZE in
    if dist_leb dx dy (TILE_SIZE * 1)%Q then
      if EnemyType_eqb (EnemyConfig.type enemy) grunt then
        hitPlayer 1 now
          (removeEnemy (EnemyConfig.id enemy)
             (cleanupEnemyData (EnemyConfig.id enemy) w))
      else if canAttack && sight then
        hitPlayer (1 # 4) now
          (set_enemyLastAttackTimes
             (<[EnemyConfig.id enemy := timestamp]> (enemyLastAttackTimes w)) w)
      else w
    else if dist_leb dx dy (EnemyConfig.attackRange enemy) && canAttack && sight
    then
      if Qltb roll (1 # 10) then
        hitPlayer (EnemyConfig.damage enemy) now
          (set_enemyLastAttackTimes
             (<[EnemyConfig.id enemy := timestamp]> (enemyLastAttackTimes w)) w)
      else w
    else w
  else w.

(** The whole [forEach]; [rolls i] is the roll offered to the enemy at
    index [i] of the snapshot. *)
Fixpoint enemyAttacksFrom (i : nat) (snapshot : GameState.t) (timestamp : number)
    (now : Z) (rolls : nat -> number) (es : list EnemyConfig.t) (w : World)
    : World :=
  match es with
  | [] => w
  | e :: es' =>
      enemyAttacksFrom (S i) snapshot timestamp now rolls es'
        (enemyAttack snapshot timestamp now (rolls i) e w)
  end.

Definition resolveEnemyAttacks (snapshot : GameState.t) (timestamp : number)
    (now : Z) (rolls : nat -> number) (w : World) : World :=
  enemyAttacksFrom 0 snapshot timestamp now rolls (GameState.enemies snapshot) w.

(** *** Combat: the player's melee sweep inside [handleKeyDown] *)

Definition sweepRange : number := (TILE_SIZE * (18 # 10))%Q.

(** [handleEnemyKilled(enemyId)]: the tracker entry goes, the enemy is
    filtered out, a kill is counted and scored (500 for a [big_monster] found
    in the closure's enemies, 100 otherwise). *)
Definition handleEnemyKilled (closure : GameState.t) (enemyId : string)
    (w : World) : World :=
  let scoreAdd :=
    match List.find (fun e => String.eqb (EnemyConfig.id e) enemyId)
            (GameState.enemies closure) with
    | Some e => if EnemyType_eqb (EnemyConfig.type e) big_monster then 500 else 100
    | None => 100
    end in
  let g := gameProgress w in
  set_gameProgress
    {| GameProgress.kills := GameProgress.kills g + 1;
       GameProgress.powerUpActive := GameProgress.powerUpActive g;
       GameProgress.powerUpType := GameProgress.powerUpType g;
       GameProgress.playerDead := GameProgress.playerDead g;
       GameProgress.score := GameProgress.score g + scoreAdd |}
    (removeEnemy enemyId (cleanupEnemyData enemyId w)).

(** What the callback of [prev.enemies.map] returns for one enemy: [None]
    is the [null] of a killed enemy. The test is
    [distance < TILE_SIZE * 1.8 && hasLineOfSight(adjustedPlayerPos,
    enemy.position, map, TILE_SIZE)], the same for every enemy type. *)
Definition sweepEnemy (closure : GameState.t) (g : GameProgress.t)
    (enemy : EnemyConfig.t) : option EnemyConfig.t :=
  let adjusted := adjustedPlayerPos (Player.position (GameState.player closure)) in
  let dx := (Vector2.x (EnemyConfig.position enemy) - Vector2.x adjusted)%Q in
  let dy := (Vector2.y (EnemyConfig.position enemy) - Vector2.y adjusted)%Q in
  if dist_ltb dx dy sweepRange
     && hasLineOfSight adjusted (EnemyConfig.position enemy)
          (GameState.level_map closure) TILE_SIZE
  then
    let newHealth := (EnemyConfig.health enemy - inject_Z (spawnerDamage g))%Q in
    if Qle_bool newHealth 0 then None
    else Some
      {| EnemyConfig.id := EnemyConfig.id enemy;
         EnemyConfig.type := EnemyConfig.type enemy;
         EnemyConfig.position := EnemyConfig.position enemy;
         EnemyConfig.health := newHealth;
         EnemyConfig.maxHealth := EnemyConfig.maxHealth enemy;
         EnemyConfig.speed := EnemyConfig.speed enemy;
         EnemyConfig.damage := EnemyConfig.damage enemy;
         EnemyConfig.size := EnemyConfig.size enemy;
         EnemyConfig.aiType := EnemyConfig.aiType enemy;
         EnemyConfig.aiState := EnemyConfig.aiState enemy;
         EnemyConfig.sightRange := EnemyConfig.sightRange enemy;
         EnemyConfig.attackRange := EnemyConfig.attackRange enemy |}
  else Some enemy.

(** The [map(...).filter(Boolean)] over the current enemies: the enemies
    that stay, and the ids handed to [handleEnemyKilled] on the way. *)
Fixpoint sweepEnemies (closure : GameState.t) (g : GameProgress.t)
    (prevEnemies : list EnemyConfig.t) : list EnemyConfig.t * list string :=
  match prevEnemies with
  | [] => ([], [])
  | enemy :: rest =>
      let '(kept, killed) := sweepEnemies closure g rest in
      match sweepEnemy closure g enemy with
      | None => (kept, EnemyConfig.id enemy :: killed)
      | Some enemy' => (enemy' :: kept, killed)
      end
  end.

(** The updater sets the enemies that stay; the updates queued by
    [handleEnemyKilled] while it ran are applied after it. *)
Definition playerMeleeSweep (closure : GameState.t) (g : GameProgress.t)
    (w : World) : World :=
  let '(kept, killed) :=
    sweepEnemies closure g (GameState.enemies (gameState w)) in
  fold_left (fun w' id => handleEnemyKilled closure id w') killed
    (setEnemies kept w).

(** *** Passive drain and death *)

(** The updater run by the one-second interval. *)
Definition healthDrainTick (now : Z) (w : World) : World :=
  let p := GameState.player (gameState w) in
  if Qltb 0 (Player.health p) then
    setPlayer
      {| Player.position := Player.position p;
         Player.direction := Player.direction p;
         Player.health := Math_max 0 (Player.health p - 1);
         Player.maxHealth := Player.maxHealth p;
         Player.isMoving := Player.isMoving p;
         Player.animation :=
           if Qltb 1 (Player.health p) then Player.animation p else hurt;
         Player.score := Player.score p;
         Player.hitFlash :=
           if Qltb 1 (Player.health p) then Player.hitFlash p else Some now |}
      w
  else w.

(** The effect installs the interval only while [playerDead] is false and
    removes it when the flag changes. *)
Definition drainInterval (now : Z) (w : World) : World :=
  if GameProgress.playerDead (gameProgress w) then w else healthDrainTick now w.

(** The death check of [gameLoop]: [prev.player.health <= 0] is read from
    the current state, [gameProgress.playerDead] from the closure. *)
Definition checkPlayerDead (closurePlayerDead : bool) (w : World) : World :=
  if Qle_bool (Player.health (GameState.player (gameState w))) 0
     && negb closurePlayerDead
  then setTimeout SetPlayerDead 0 w
  else w.

Definition setPlayerDead (w : World) : World :=
  set_gameProgress (GameProgress.withPlayerDead (gameProgress w) true) w.

Definition clearPlayerHitFlash (w : World) : World :=
  let p := GameState.player (gameState w) in
  setPlayer
    {| Player.position := Player.position p;
       Player.direction := Player.direction p;
       Player.health := Player.health p;
       Player.maxHealth := Player.maxHealth p;
       Player.isMoving := Player.isMoving p;
       Player.animation := if Player.isMoving p then walk else idle;
       Player.score := Player.score p;
       Player.hitFlash := None |}
    w.

(** Running the function of a timer at time [now]; [id] and [spawnPosition]
    feed a respawn. *)
Definition runCallback (cb : Callback) (now : Z) (id : string)
    (spawnPosition : Vector2.t) (w : World) : World :=
  match cb with
  | RespawnGhost m x y => respawnGhost m x y now id spawnPosition w
  | RespawnGrunt m x y => respawnGrunt m x y now id spawnPosition w
  | VerifySpawner m x y t => snd (isSpawnerActive m x y t now w)
  | ClearRandomDirection enemyId => clearRandomDirection enemyId w
  | SetPlayerDead => setPlayerDead w
  | ClearPlayerHitFlash => clearPlayerHitFlash w
  end.


(** *** Start of the spawners (the effect that initialises the game) *)

(** The double loop that collects the [G] cells and the [B] cells of the
    grid of the render, row by row. *)
Fixpoint collectRow (x : nat) (y : Z) (row : list ascii)
    (found : list (Z * Z) * list (Z * Z)) : list (Z * Z) * list (Z * Z) :=
  match row with
  | [] => found
  | t :: rest =>
      let '(gruntSpawners, ghostSpawners) := found in
      let gruntSpawners' :=
        if Ascii.eqb t "G" then gruntSpawners ++ [(Z.of_nat x, y)]
        else gruntSpawners in
      let ghostSpawners' :=
        if Ascii.eqb t "B" then ghostSpawners ++ [(Z.of_nat x, y)]
        else ghostSpawners in
      collectRow (S x) y rest (gruntSpawners', ghostSpawners')
  end.

Fixpoint collectRows (y : nat) (rows : Grid)
    (found : list (Z * Z) * list (Z * Z)) : list (Z * Z) * list (Z * Z) :=
  match rows with
  | [] => found
  | row :: rest => collectRows (S y) rest (collectRow 0 (Z.of_nat y) row found)
  end.

(** [spawnerState.current.active[key] = true;
     spawnerState.current.lastUpdated[key] = Date.now()]. *)
Definition switchOn (now : Z) (w : World) (spawner : Z * Z) : World :=
  let key := getSpawnerKey (fst spawner) (snd spawner) in
  set_spawnerLastUpdated (<[key := now]> (spawnerLastUpdated w))
    (set_spawnerActive (<[key := true]> (spawnerActive w)) w).

(** [spawners.forEach((spawner, index) =>
       setTimeout(() => { if (isSpawnerActive(...)) spawn...(...) },
                  first + index * gap))]. *)
Fixpoint scheduleFrom (cb : Z -> Z -> Callback) (first gap : Z) (index : nat)
    (spawners : list (Z * Z)) (w : World) : World :=
  match spawners with
  | [] => w
  | spawner :: rest =>
      scheduleFrom cb first gap (S index) rest
        (setTimeout (cb (fst spawner) (snd spawner))
           (first + Z.of_nat index * gap) w)
  end.

(** The spawner part of the effect: the cells are read from the grid of the
    render the effect belongs to, the tracker is switched on for each, and
    the first spawn of each is scheduled, grunts one second apart from
    1000 ms, ghosts 2.5 seconds apart from 2000 ms. The [Date.now()] of the
    tracker writes is [now]. *)
Definition initializeSpawners (closureMap : Grid) (now : Z) (w : World)
    : World :=
  let '(gruntSpawners, ghostSpawners) := collectRows 0 closureMap ([], []) in
  let w1 := fold_left (switchOn now) gruntSpawners w in
  let w2 := fold_left (switchOn now) ghostSpawners w1 in
  let w3 := scheduleFrom (RespawnGrunt closureMap) 1000 1000 0 gruntSpawners w2 in
  scheduleFrom (RespawnGhost closureMap) 2000 2500 0 ghostSpawners w3.

(** *** Walkable positions, the camera and the player's movement *)

Definition CANVAS_WIDTH : number := 1152.
Definition CANVAS_HEIGHT : number := 1152.
Definition VIEWPORT_WIDTH : number := 800.
Definition VIEWPORT_HEIGHT : number := 600.
Definition MOVE_SPEED : number := 200.

Definition Math_min (a b : number) : number :=
  if Qle_bool a b then a else b.

Module DoorConfig.
Record t : Type := mk { id : Z; position : Vector2.t; isOpen : bool }.
End DoorConfig.

(** [tile === '#' || tile === 'B' || tile === 'G']. *)
Definition blocksWalking (tile : option ascii) : bool :=
  match tile with
  | Some c => Ascii.eqb c "#" || Ascii.eqb c "B" || Ascii.eqb c "G"
  | None => false
  end.

(** The four corners of the hit box and its centre. *)
Definition checkPoints (x y : number) : list Vector2.t :=
  [ Vector2.mk (x + playerSize * (1 # 10))%Q (y + playerSize * (1 # 10))%Q;
    Vector2.mk (x + playerSize * (9 # 10))%Q (y + playerSize * (1 # 10))%Q;
    Vector2.mk (x + playerSize * (1 # 10))%Q (y + playerSize * (9 # 10))%Q;
    Vector2.mk (x + playerSize * (9 # 10))%Q (y + playerSize * (9 # 10))%Q;
    Vector2.mk (x + playerSize * (5 # 10))%Q (y + playerSize * (5 # 10))%Q ].

(** [gameState.level.map[tileY] && gameState.level.map[tileY][tileX]] for
    the tile under a point. *)
Definition tileUnder (map : Grid) (point : Vector2.t) : option ascii :=
  tileAt map (Math_floor (Vector2.x point / TILE_SIZE))
             (Math_floor (Vector2.y point / TILE_SIZE)).

(** The rectangle test of a closed door. *)
Definition doorBlocks (x y : number) (door : DoorConfig.t) : bool :=
  negb (DoorConfig.isOpen door)
  && Qltb (x + TILE_SIZE * (1 # 10))
          (Vector2.x (DoorConfig.position door) + TILE_SIZE)
  && Qltb (Vector2.x (DoorConfig.position door)) (x + TILE_SIZE * (9 # 10))
  && Qltb (y + TILE_SIZE * (1 # 10))
          (Vector2.y (DoorConfig.position door) + TILE_SIZE)
  && Qltb (Vector2.y (DoorConfig.position door)) (y + TILE_SIZE * (9 # 10)).

(** [isWalkablePosition(x, y)]; the grid and the doors are those of the
    render that built the callback. A missing door list blocks nothing, as
    the empty list does. *)
Definition isWalkablePosition (map : Grid) (doors : list DoorConfig.t)
    (x y : number) : bool :=
  if Qltb x 0 || Qltb y 0
     || Qle_bool (CANVAS_WIDTH - playerSize) x
     || Qle_bool (CANVAS_HEIGHT - playerSize) y
  then false
  else if existsb (fun point => blocksWalking (tileUnder map point))
            (checkPoints x y)
  then false
  else if existsb (doorBlocks x y) doors then false
  else true.

(** The camera state and the three refs beside it. *)
Module Camera.
Record t : Type := mk {
  cameraPosition : Vector2.t;
  cameraPositionRef : Vector2.t;
  pendingCameraUpdate : option Vector2.t;
  lastCameraUpdate : Z
}.
End Camera.

(** [updateCameraPosition(playerX, playerY)] at [Date.now() = now]. *)
Definition updateCameraPosition (now : Z) (playerX playerY : number)
    (cam : Camera.t) : Camera.t :=
  let newCameraX :=
    Math_max 0 (Math_min (playerX - VIEWPORT_WIDTH / 2)
                  (CANVAS_WIDTH - VIEWPORT_WIDTH)) in
  let newCameraY :=
    Math_max 0 (Math_min (playerY - VIEWPORT_HEIGHT / 2)
                  (CANVAS_HEIGHT - VIEWPORT_HEIGHT)) in
  let newPosition := Vector2.mk newCameraX newCameraY in
  if now - Camera.lastCameraUpdate cam <? 33
  then Camera.mk (Camera.cameraPosition cam) newPosition (Some newPosition)
         (Camera.lastCameraUpdate cam)
  else Camera.mk newPosition newPosition None now.

(** The end of [gameLoop] that applies a pending camera update. *)
Definition applyPendingCamera (now : Z) (cam : Camera.t) : Camera.t :=
  match Camera.pendingCameraUpdate cam with
  | Some pending =>
      if 33 <=? now - Camera.lastCameraUpdate cam
      then Camera.mk pending (Camera.cameraPositionRef cam) None now
      else cam
  | None => cam
  end.

Section Movement.

(** [Math.sqrt], used by the movement only to scale a diagonal step. *)
Variable Math_sqrt : number -> number.

(** The player record after a step to [position]. *)
Definition stepTo (p : Player.t) (position : Vector2.t) (d : Direction)
    : Player.t :=
  {| Player.position := position; Player.direction := d;
     Player.health := Player.health p; Player.maxHealth := Player.maxHealth p;
     Player.isMoving := true; Player.animation := walk;
     Player.score := Player.score p; Player.hitFlash := Player.hitFlash p |}.

(** [updateMovement(deltaTime)]. The callback is rebuilt only when
    [isWalkablePosition] is, so the power-up, the direction of the player,
    the grid and the doors are those of that render: [closureProgress],
    [closureDirection], [closureMap], [closureDoors]. The player and the
    camera are the current ones. *)
Definition updateMovement (closureProgress : GameProgress.t)
    (closureDirection : Direction) (closureMap : Grid)
    (closureDoors : list DoorConfig.t) (keysPressed : gset string)
    (deltaTime : number) (now : Z) (state : Player.t * Camera.t)
    : Player.t * Camera.t :=
  let '(p, cam) := state in
  if bool_decide (size keysPressed = 0%nat) then
    ({| Player.position := Player.position p;
        Player.direction := Player.direction p;
        Player.health := Player.health p;
        Player.maxHealth := Player.maxHealth p;
        Player.isMoving := false; Player.animation := idle;
        Player.score := Player.score p;
        Player.hitFlash := Player.hitFlash p |}, cam)
  else
    let speedMultiplier : number :=
      match GameProgress.powerUpActive closureProgress,
            GameProgress.powerUpType closureProgress with
      | true, Some speed_buff => (3 # 2)%Q
      | _, _ => 1%Q
      end in
    let moveDistance := (MOVE_SPEED * deltaTime * speedMultiplier)%Q in
    let up := bool_decide ("arrowup"%string ∈ keysPressed) in
    let down := bool_decide ("arrowdown"%string ∈ keysPressed) in
    let left := bool_decide ("arrowleft"%string ∈ keysPressed) in
    let right := bool_decide ("arrowright"%string ∈ keysPressed) in
    let deltaY0 : number :=
      if down then moveDistance else if up then (- moveDistance)%Q else 0%Q in
    let deltaX0 : number :=
      if right then moveDistance else if left then (- moveDistance)%Q else 0%Q in
    let newDirection :=
      if right then east else if left then west
      else if down then south else if up then north
      else closureDirection in
    let diagonal := negb (Qeq_bool deltaX0 0) && negb (Qeq_bool deltaY0 0) in
    let length := Math_sqrt (deltaX0 * deltaX0 + deltaY0 * deltaY0)%Q in
    let deltaX := if diagonal then (deltaX0 / length * moveDistance)%Q
                  else deltaX0 in
    let deltaY := if diagonal then (deltaY0 / length * moveDistance)%Q
                  else deltaY0 in
    if Qeq_bool deltaX 0 && Qeq_bool deltaY 0 then (p, cam)
    else
      let px := Vector2.x (Player.position p) in
      let py := Vector2.y (Player.position p) in
      let walkable := isWalkablePosition closureMap closureDoors in
      if walkable (px + deltaX)%Q (py + deltaY)%Q then
        (stepTo p (Vector2.mk (px + deltaX)%Q (py + deltaY)%Q) newDirection,
         updateCameraPosition now (px + deltaX)%Q (py + deltaY)%Q cam)
      else if negb (Qeq_bool deltaX 0) && negb (Qeq_bool deltaY 0)
              && walkable (px + deltaX)%Q py then
        (stepTo p (Vector2.mk (px + deltaX)%Q py)
           (if Qltb 0 deltaX then east else west),
         updateCameraPosition now (px + deltaX)%Q py cam)
      else if negb (Qeq_bool deltaX 0) && negb (Qeq_bool deltaY 0)
              && walkable px (py + deltaY)%Q then
        (stepTo p (Vector2.mk px (py + deltaY)%Q)
           (if Qltb 0 deltaY then south else north),
         updateCameraPosition now px (py + deltaY)%Q cam)
      else
        ({| Player.position := Player.position p;
            Player.direction := newDirection;
            Player.health := Player.health p;
            Player.maxHealth := Player.maxHealth p;
            Player.isMoving := false;
            Player.animation := Player.animation p;
            Player.score := Player.score p;
            Player.hitFlash := Player.hitFlash p |}, cam).

End Movement.

(** *** Keys, doors, chests and food *)

Module KeyConfig.
Record t : Type := mk { id : Z; position : Vector2.t; isCollected : bool }.
End KeyConfig.

Module ChestConfig.
Record t : Type := mk { id : Z; position : Vector2.t; isOpen : bool }.
End ChestConfig.

Module FoodPlatterConfig.
Record t : Type := mk { id : Z; position : Vector2.t; isEaten : bool }.
End FoodPlatterConfig.

(** The position [{ x: x * TILE_SIZE, y: y * TILE_SIZE }] of a cell. *)
Definition cellCorner (tileSize : number) (x y : nat) : Vector2.t :=
  Vector2.mk (inject_Z (Z.of_nat x) * tileSize)%Q
             (inject_Z (Z.of_nat y) * tileSize)%Q.

(** [findKeysInMap(map, TILE_SIZE)]: the list built so far and the counter
    [id] go through the two loops. *)
Fixpoint keysInRow (tileSize : number) (x y : nat) (row : list ascii)
    (found : list KeyConfig.t * Z) : list KeyConfig.t * Z :=
  match row with
  | [] => found
  | t :: rest =>
      keysInRow tileSize (S x) y rest
        (if Ascii.eqb t "K"
         then (fst found
                 ++ [KeyConfig.mk (snd found) (cellCorner tileSize x y) false],
               snd found + 1)
         else found)
  end.

Fixpoint keysInRows (tileSize : number) (y : nat) (rows : Grid)
    (found : list KeyConfig.t * Z) : list KeyConfig.t * Z :=
  match rows with
  | [] => found
  | row :: rest =>
      keysInRows tileSize (S y) rest (keysInRow tileSize 0 y row found)
  end.

Definition findKeysInMap (map : Grid) (tileSize : number)
    : list KeyConfig.t :=
  fst (keysInRows tileSize 0 map ([], 0)).

(** [findDoorsInMap(map, TILE_SIZE)], the same two loops for the [D]
    tiles. *)
Fixpoint doorsInRow (tileSize : number) (x y : nat) (row : list ascii)
    (found : list DoorConfig.t * Z) : list DoorConfig.t * Z :=
  match row with
  | [] => found
  | t :: rest =>
      doorsInRow tileSize (S x) y rest
        (if Ascii.eqb t "D"
         then (fst found
                 ++ [DoorConfig.mk (snd found) (cellCorner tileSize x y) false],
               snd found + 1)
         else found)
  end.

Fixpoint doorsInRows (tileSize : number) (y : nat) (rows : Grid)
    (found : list DoorConfig.t * Z) : list DoorConfig.t * Z :=
  match rows with
  | [] => found
  | row :: rest =>
      doorsInRows tileSize (S y) rest (doorsInRow tileSize 0 y row found)
  end.

Definition findDoorsInMap (map : Grid) (tileSize : number)
    : list DoorConfig.t :=
  fst (doorsInRows tileSize 0 map ([], 0)).

Inductive ChestContent : Type := food | poison | potion.

(** [generateChestContents()]; [roll i] is the [Math.random()] drawn for
    chest [i]. *)
Fixpoint generateChests (count : nat) (i : nat) (roll : nat -> number)
    (contents : gmap Z ChestContent) : gmap Z ChestContent :=
  match count with
  | O => contents
  | S count' =>
      generateChests count' (S i) roll
        (<[Z.of_nat i :=
             if Qltb (roll i) (4 # 10) then food
             else if Qltb (roll i) (7 # 10) then poison
             else potion]> contents)
  end.

Definition generateChestContents (roll : nat -> number)
    : gmap Z ChestContent :=
  generateChests 7 0 roll ∅.

Inductive Room : Type := S1 | S3 | S2.

Definition chestAt (id x y : Z) : ChestConfig.t :=
  ChestConfig.mk id
    (Vector2.mk (inject_Z x * TILE_SIZE)%Q (inject_Z y * TILE_SIZE)%Q) false.

(** [initializeChests(room)]. *)
Definition initializeChests (room : Room) : list ChestConfig.t :=
  match room with
  | S1 => [chestAt 0 5 5; chestAt 1 30 5; chestAt 2 5 30; chestAt 3 30 30;
           chestAt 4 18 18]
  | S3 => [chestAt 0 8 8; chestAt 1 28 8; chestAt 2 18 22]
  | S2 => List.map (fun i => chestAt (Z.of_nat i) (10 + Z.of_nat i * 2) 15)
            (seq 0 7)
  end.

(** The part of [gameState] and [gameProgress] that holds the things to
    pick up, with the player they act on; [keyEquipped] is the state beside
    them. A potion is entered in [potionsCollected] under the [Date.now()]
    of its name. A missing list of keys or doors makes every function
    embedded here do what it does on the empty list, which stands for it. *)
Module Loot.
Record t : Type := mk {
  player : Player.t;
  chests : option (list ChestConfig.t);
  foodPlatters : option (list FoodPlatterConfig.t);
  keys : list KeyConfig.t;
  doors : list DoorConfig.t;
  chestsOpened : gset Z;
  chestContents : gmap Z ChestContent;
  potionsCollected : gset Z;
  keyCount : option Z;
  keyEquipped : bool
}.
End Loot.

Definition withHealth (p : Player.t) (health score : number)
    (animation : Animation) : Player.t :=
  {| Player.position := Player.position p;
     Player.direction := Player.direction p;
     Player.health := health; Player.maxHealth := Player.maxHealth p;
     Player.isMoving := Player.isMoving p; Player.animation := animation;
     Player.score := score; Player.hitFlash := Player.hitFlash p |}.

(** [handleChestOpen(chestIndex)]. The opened chests and the contents are
    read from the [gameProgress] of the render that built the callback
    ([closureOpened], [closureContents]); the updates go to the current
    state. *)
Definition handleChestOpen (closureOpened : gset Z)
    (closureContents : gmap Z ChestContent) (chestIndex : Z) (now : Z)
    (s : Loot.t) : Loot.t :=
  if bool_decide (chestIndex ∈ closureOpened) then s
  else
    let p := Loot.player s in
    let chestContent := closureContents !! chestIndex in
    let baseScore := (Player.score p + 100)%Q in
    let newPlayer :=
      match chestContent with
      | Some food =>
          withHealth p (Math_min (Player.maxHealth p) (Player.health p + 25))
            (baseScore + 50)%Q (Player.animation p)
      | Some poison =>
          withHealth p (Math_max 0 (Player.health p - 10)) baseScore hurt
      | Some potion =>
          withHealth p (Player.health p) (baseScore + 100)%Q
            (Player.animation p)
      | None => withHealth p (Player.health p) baseScore (Player.animation p)
      end in
    {| Loot.player := newPlayer;
       Loot.chests :=
         Some (match Loot.chests s with
               | Some cs =>
                   List.map
                     (fun chest =>
                        if ChestConfig.id chest =? chestIndex
                        then ChestConfig.mk (ChestConfig.id chest)
                               (ChestConfig.position chest) true
                        else chest) cs
               | None => []
               end);
       Loot.foodPlatters := Loot.foodPlatters s;
       Loot.keys := Loot.keys s;
       Loot.doors := Loot.doors s;
       Loot.chestsOpened := {[chestIndex]} ∪ Loot.chestsOpened s;
       Loot.chestContents := Loot.chestContents s;
       Loot.potionsCollected :=
         match chestContent with
         | Some potion => {[now]} ∪ Loot.potionsCollected s
         | _ => Loot.potionsCollected s
         end;
       Loot.keyCount := Loot.keyCount s;
       Loot.keyEquipped := Loot.keyEquipped s |}.

(** The centre of the player's hit box, and [Math.hypot] of its offset from
    the centre of a tile-sized thing at [position], compared with
    [factor * TILE_SIZE]. *)
Definition reaches (p : Player.t) (position : Vector2.t) (factor : number)
    : bool :=
  let cx := (Vector2.x (Player.position p) + playerSize / 2)%Q in
  let cy := (Vector2.y (Player.position p) + playerSize / 2)%Q in
  dist_ltb (cx - (Vector2.x position + TILE_SIZE / 2))%Q
           (cy - (Vector2.y position + TILE_SIZE / 2))%Q
           (TILE_SIZE * factor)%Q.

(** [checkChestCollision()]: the chests, the player and the opened chests
    are those of the render [closure]; the first chest in reach that is not
    opened there is handed to [handleChestOpen]. *)
Definition checkChestCollision (closure : Loot.t) (now : Z) (s : Loot.t)
    : Loot.t :=
  match Loot.chests closure with
  | None => s
  | Some cs =>
      match List.find
              (fun chest =>
                 negb (bool_decide (ChestConfig.id chest ∈ Loot.chestsOpened closure))
                 && reaches (Loot.player closure) (ChestConfig.position chest)
                      (8 # 10))
              cs with
      | Some chest =>
          handleChestOpen (Loot.chestsOpened closure)
            (Loot.chestContents closure) (ChestConfig.id chest) now s
      | None => s
      end
  end.

(** The effect that eats a food platter. An effect runs on the state of the
    render it belongs to, which is the state it updates. *)
Definition eatFoodPlatter (s : Loot.t) : Loot.t :=
  match Loot.foodPlatters s with
  | None => s
  | Some fps =>
      match List.find
              (fun platter =>
                 negb (FoodPlatterConfig.isEaten platter)
                 && reaches (Loot.player s)
                      (FoodPlatterConfig.position platter) (7 # 10))
              fps with
      | Some platter =>
          let p := Loot.player s in
          {| Loot.player :=
               withHealth p
                 (Math_min (Player.health p + 20) (Player.maxHealth p))
                 (Player.score p) (Player.animation p);
             Loot.chests := Loot.chests s;
             Loot.foodPlatters :=
               Some (List.map
                       (fun fp =>
                          if FoodPlatterConfig.id fp
                             =? FoodPlatterConfig.id platter
                          then FoodPlatterConfig.mk (FoodPlatterConfig.id fp)
                                 (FoodPlatterConfig.position fp) true
                          else fp) fps);
             Loot.keys := Loot.keys s;
             Loot.doors := Loot.doors s;
             Loot.chestsOpened := Loot.chestsOpened s;
             Loot.chestContents := Loot.chestContents s;
             Loot.potionsCollected := Loot.potionsCollected s;
             Loot.keyCount := Loot.keyCount s;
             Loot.keyEquipped := Loot.keyEquipped s |}
      | None => s
      end
  end.

Definition withKeys (s : Loot.t) (keys : list KeyConfig.t)
    (doors : list DoorConfig.t) (keyCount : option Z) (keyEquipped : bool)
    : Loot.t :=
  {| Loot.player := Loot.player s; Loot.chests := Loot.chests s;
     Loot.foodPlatters := Loot.foodPlatters s;
     Loot.keys := keys; Loot.doors := doors;
     Loot.chestsOpened := Loot.chestsOpened s;
     Loot.chestContents := Loot.chestContents s;
     Loot.potionsCollected := Loot.potionsCollected s;
     Loot.keyCount := keyCount; Loot.keyEquipped := keyEquipped |}.

(** The effect that collects a key. *)
Definition collectKey (s : Loot.t) : Loot.t :=
  match List.find
          (fun key =>
             negb (KeyConfig.isCollected key)
             && reaches (Loot.player s) (KeyConfig.position key) (7 # 10))
          (Loot.keys s) with
  | Some key =>
      withKeys s
        (List.map
           (fun k =>
              if KeyConfig.id k =? KeyConfig.id key
              then KeyConfig.mk (KeyConfig.id k) (KeyConfig.position k) true
              else k) (Loot.keys s))
        (Loot.doors s)
        (Some (default 0 (Loot.keyCount s) + 1))
        (Loot.keyEquipped s)
  | None => s
  end.

(** The [map] of the door effect: the first closed door in reach is opened
    when a key is equipped; [unlocked] tells whether one has been. *)
Fixpoint unlockFirst (p : Player.t) (keyEquipped : bool) (unlocked : bool)
    (doors : list DoorConfig.t) : list DoorConfig.t * bool :=
  match doors with
  | [] => ([], unlocked)
  | door :: rest =>
      if DoorConfig.isOpen door then
        let '(rest', u) := unlockFirst p keyEquipped unlocked rest in
        (door :: rest', u)
      else if negb unlocked
              && reaches p (DoorConfig.position door) (7 # 10)
              && keyEquipped then
        let '(rest', u) := unlockFirst p keyEquipped true rest in
        (DoorConfig.mk (DoorConfig.id door) (DoorConfig.position door) true
           :: rest', u)
      else
        let '(rest', u) := unlockFirst p keyEquipped unlocked rest in
        (door :: rest', u)
  end.

(** The effect that opens a door. *)
Definition openDoor (s : Loot.t) : Loot.t :=
  let '(newDoors, unlocked) :=
    unlockFirst (Loot.player s) (Loot.keyEquipped s) false (Loot.doors s) in
  if unlocked
  then withKeys s (Loot.keys s) newDoors
         (Some (default 0 (Loot.keyCount s) - 1)) false
  else s.

(** The effect run once after the first render: keys and doors are read
    from the grid and the key count is set to zero. *)
Definition placeKeysAndDoors (map : Grid) (s : Loot.t) : Loot.t :=
  withKeys s (findKeysInMap map 32) (findDoorsInMap map 32) (Some 0)
    (Loot.keyEquipped s).

(** The Shift shortcut. *)
Definition addHealthShortcut (s : Loot.t) : Loot.t :=
  let p := Loot.player s in
  {| Loot.player :=
       withHealth p (Math_min (Player.maxHealth p) (Player.health p + 500))
         (Player.score p) (Player.animation p);
     Loot.chests := Loot.chests s;
     Loot.foodPlatters := Loot.foodPlatters s;
     Loot.keys := Loot.keys s; Loot.doors := Loot.doors s;
     Loot.chestsOpened := Loot.chestsOpened s;
     Loot.chestContents := Loot.chestContents s;
     Loot.potionsCollected := Loot.potionsCollected s;
     Loot.keyCount := Loot.keyCount s;
     Loot.keyEquipped := Loot.keyEquipped s |}.

(** *** Where a spawner puts its enemy *)

(** The eight neighbours of the spawner and twelve tiles further out. *)
Definition extendedDirections : list (Z * Z) :=
  [ (0, -1); (1, -1); (1, 0); (1, 1); (0, 1); (-1, 1); (-1, 0); (-1, -1);
    (0, -2); (2, 0); (0, 2); (-2, 0);
    (1, -2); (2, -1); (2, 1); (1, 2); (-1, 2); (-2, 1); (-2, -1); (-1, -2) ].

(** The test of a candidate tile: a ghost takes any tile that is not a
    wall, a grunt a floor tile on which the pixel position is walkable. *)
Definition spawnTileOk (map : Grid) (doors : list DoorConfig.t)
    (isGhost : bool) (tileX tileY : Z) (pixelX pixelY : number) : bool :=
  if isGhost then negb (tileIs map tileX tileY "#")
  else (tileIs map tileX tileY "." || tileIs map tileX tileY " ")
       && isWalkablePosition map doors pixelX pixelY.

(** The loop over the shuffled directions. Two numbers are drawn for every
    candidate inside the grid, [rand n] and [rand (n + 1)] when [n] have
    been drawn before. The outer [None] is the TypeError of the bounds test
    on an empty grid. *)
Fixpoint firstShuffled (map : Grid) (doors : list DoorConfig.t)
    (isGhost : bool) (spawnerX spawnerY : Z) (rand : nat -> number) (n : nat)
    (directions : list (Z * Z)) : option (option Vector2.t) :=
  match directions with
  | [] => Some None
  | direction :: rest =>
      let tileX := spawnerX + fst direction in
      let tileY := spawnerY + snd direction in
      match outOfBounds map tileX tileY with
      | None => None
      | Some true =>
          firstShuffled map doors isGhost spawnerX spawnerY rand n rest
      | Some false =>
          let pixelX := (inject_Z tileX * TILE_SIZE
                         + (rand n * (4 # 10) + (3 # 10)) * TILE_SIZE)%Q in
          let pixelY := (inject_Z tileY * TILE_SIZE
                         + (rand (S n) * (4 # 10) + (3 # 10)) * TILE_SIZE)%Q in
          if spawnTileOk map doors isGhost tileX tileY pixelX pixelY
          then Some (Some (Vector2.mk pixelX pixelY))
          else firstShuffled map doors isGhost spawnerX spawnerY rand
                 (S (S n)) rest
      end
  end.

(** The offsets of the fallback search, [dx] from -4 to 4 and for each
    [dx] the [dy] from -4 to 4, the spawner's own tile left out. *)
Definition fallbackOffsets : list (Z * Z) :=
  List.filter (fun d => negb ((fst d =? 0) && (snd d =? 0)))
    (flat_map (fun dx => List.map (fun dy => (dx, dy))
                           [-4; -3; -2; -1; 0; 1; 2; 3; 4])
       [-4; -3; -2; -1; 0; 1; 2; 3; 4]).

(** The fallback loops: the first offset whose tile passes the test, at the
    centre of the tile. *)
Fixpoint firstFallback (map : Grid) (doors : list DoorConfig.t)
    (isGhost : bool) (spawnerX spawnerY : Z) (offsets : list (Z * Z))
    : option (option Vector2.t) :=
  match offsets with
  | [] => Some None
  | offset :: rest =>
      let tileX := spawnerX + fst offset in
      let tileY := spawnerY + snd offset in
      match outOfBounds map tileX tileY with
      | None => None
      | Some true => firstFallback map doors isGhost spawnerX spawnerY rest
      | Some false =>
          let pixelX := (inject_Z tileX * TILE_SIZE + TILE_SIZE / 2)%Q in
          let pixelY := (inject_Z tileY * TILE_SIZE + TILE_SIZE / 2)%Q in
          if spawnTileOk map doors isGhost tileX tileY pixelX pixelY
          then Some (Some (Vector2.mk pixelX pixelY))
          else firstFallback map doors isGhost spawnerX spawnerY rest
      end
  end.

(** The centre of the spawner's own tile, the last resort. *)
Definition spawnerCentre (spawnerX spawnerY : Z) : Vector2.t :=
  Vector2.mk (inject_Z spawnerX * TILE_SIZE + TILE_SIZE / 2)%Q
             (inject_Z spawnerY * TILE_SIZE + TILE_SIZE / 2)%Q.

(** [findValidSpawnPosition(spawnerX, spawnerY, isGhost)].
    [shuffledDirections] is what the [sort] with a random comparator made
    of [extendedDirections]; the grid and the doors are those of the render
    that built the callback. [None] is the TypeError on an empty grid. *)
Definition findValidSpawnPosition (map : Grid) (doors : list DoorConfig.t)
    (shuffledDirections : list (Z * Z)) (rand : nat -> number)
    (spawnerX spawnerY : Z) (isGhost : bool) : option Vector2.t :=
  match firstShuffled map doors isGhost spawnerX spawnerY rand 0
          shuffledDirections with
  | None => None
  | Some (Some position) => Some position
  | Some None =>
      match firstFallback map doors isGhost spawnerX spawnerY
              fallbackOffsets with
      | None => None
      | Some (Some position) => Some position
      | Some None => Some (spawnerCentre spawnerX spawnerY)
      end
  end.
(** * Vocabulary of the properties *)

(** ** Pathfinder and line of sight of the AI engine *)

(** The straight-line distance from [a] to [b] is below [r]. *)
Definition distanceBelow (a b : Vector2.t) (r : number) : Prop :=
  (0 < r)%Q /\
  (sumSq (Vector2.x a - Vector2.x b) (Vector2.y a - Vector2.y b) < r * r)%Q.

(** A tile lies outside the grid. *)
Definition outsideGrid (map : Grid) (tile : Z * Z) : bool :=
  let '(tileX, tileY) := tile in
  (tileX <? 0) || (Z.of_nat (length (hd [] map)) <=? tileX)
  || (tileY <? 0) || (mapHeight map <=? tileY).

Definition wallTile (map : Grid) (tile : Z * Z) : bool :=
  tileIs map (fst tile) (snd tile) "#".


(** The tiles that [hasLineOfSight] samples, in order: none for a segment of
    zero length, otherwise those of the points [start + i * step] for
    [i = 0 .. floor(steps)]. *)
Definition sampledTiles (this : EnemyAI.t) (start end_ : Vector2.t)
    : list (Z * Z) :=
  let steps := EnemyAI.sightSteps this start end_ in
  if Qeq_bool steps 0 then []
  else
    let stepX := ((Vector2.x end_ - Vector2.x start) / steps)%Q in
    let stepY := ((Vector2.y end_ - Vector2.y start) / steps)%Q in
    List.map (fun i => EnemyAI.sampleTile this start stepX stepY (Z.of_nat i))
      (seq 0 (EnemyAI.sampleCount steps)).

(** ** The Bresenham walk *)

(** The tiles the walk visits, grid aside: the loop of [bresenham] without
    its wall test. *)
Fixpoint walkTiles (fuel : nat) (x0 y0 x1 y1 dx sx dy sy err : Z)
    : list (Z * Z) :=
  match fuel with
  | O => []
  | S fuel' =>
      (x0, y0) ::
      if (x0 =? x1) && (y0 =? y1) then []
      else
        let e2 := 2 * err in
        let '(err1, x0') :=
          if dy <=? e2 then (err + dy, x0 + sx) else (err, x0) in
        let '(err2, y0') :=
          if e2 <=? dx then (err1 + dx, y0 + sy) else (err1, y0) in
        walkTiles fuel' x0' y0' x1 y1 dx sx dy sy err2
  end.

(** The tiles on the walk from [(x0, y0)] to [(x1, y1)]. *)
Definition lineTiles (x0 y0 x1 y1 : Z) : list (Z * Z) :=
  let dx := Z.abs (x1 - x0) in
  let sx := if x0 <? x1 then 1 else -1 in
  let dy := - Z.abs (y1 - y0) in
  let sy := if y0 <? y1 then 1 else -1 in
  walkTiles (walkFuel x0 y0 x1 y1) x0 y0 x1 y1 dx sx dy sy (dx + dy).

Definition notWall (map : Grid) (tile : Z * Z) : bool :=
  negb (tileIs map (fst tile) (snd tile) "#").

(** What the loop variables satisfy at the head of every iteration: [rx]
    and [ry] are the distances still to cover on each axis. *)
Record walking (x0 y0 x1 y1 dx sx dy sy err rx ry : Z) : Prop := {
  walking_rx : 0 <= rx <= dx;
  walking_ry : 0 <= ry <= - dy;
  walking_x : x1 - x0 = sx * rx;
  walking_y : y1 - y0 = sy * ry;
  walking_sx : sx = 1 \/ sx = -1;
  walking_sy : sy = 1 \/ sy = -1;
  walking_err : err = dx * (1 + (- dy - ry)) + dy * (1 + (dx - rx))
}.

(** ** Combat *)

Definition playerHealth (w : World) : number :=
  Player.health (GameState.player (gameState w)).

Definition worldEnemies (w : World) : list EnemyConfig.t :=
  GameState.enemies (gameState w).

(** The offset of an enemy from the adjusted player position of the
    snapshot, as used by the resolver. *)
Definition offsetX (snapshot : GameState.t) (enemy : EnemyConfig.t) : number :=
  (Vector2.x (EnemyConfig.position enemy)
   - Vector2.x (adjustedPlayerPos (Player.position (GameState.player snapshot))))%Q.

Definition offsetY (snapshot : GameState.t) (enemy : EnemyConfig.t) : number :=
  (Vector2.y (EnemyConfig.position enemy)
   - Vector2.y (adjustedPlayerPos (Player.position (GameState.player snapshot))))%Q.

(** The enemy is within [r] pixels of the (adjusted) player. *)
Definition withinRange (snapshot : GameState.t) (enemy : EnemyConfig.t)
    (r : number) : Prop :=
  (0 <= r)%Q /\
  (sumSq (offsetX snapshot enemy) (offsetY snapshot enemy) <= r * r)%Q.

Definition sightOf (snapshot : GameState.t) (enemy : EnemyConfig.t) : bool :=
  hasLineOfSight (EnemyConfig.position enemy)
    (adjustedPlayerPos (Player.position (GameState.player snapshot)))
    (GameState.level_map snapshot) TILE_SIZE.

(** The attack cooldown of the enemy has elapsed at [timestamp]. *)
Definition cooledDown (w : World) (enemy : EnemyConfig.t) (timestamp : number)
    : Prop :=
  (attackCooldown <= timestamp - lastAttackTime w (EnemyConfig.id enemy))%Q.

(** ** Life of the player *)

Definition playerDead (w : World) : bool :=
  GameProgress.playerDead (gameProgress w).

(** What can happen to the player's life between a load and a respawn: a
    tick of the drain interval, a pass of the combat resolver, the death
    check of a frame (with whatever flag its closure holds) and the run of
    any timer. *)
Inductive life_step : World -> World -> Prop :=
  | life_drain now w :
      life_step w (drainInterval now w)
  | life_combat snapshot timestamp now rolls w :
      life_step w (resolveEnemyAttacks snapshot timestamp now rolls w)
  | life_check closurePlayerDead w :
      life_step w (checkPlayerDead closurePlayerDead w)
  | life_timer cb now id spawnPosition w :
      life_step w (runCallback cb now id spawnPosition w).

(** A run: the worlds reached one step after the other. *)
Inductive lifeRun : World -> list World -> Prop :=
  | lifeRun_nil w : lifeRun w []
  | lifeRun_cons w w' ws :
      life_step w w' -> lifeRun w' ws -> lifeRun w (w' :: ws).

(** How many times the flag goes from [false] to [true] along a run that
    starts with the flag at [dead]. *)
Fixpoint deathTransitions (dead : bool) (ws : list World) : nat :=
  match ws with
  | [] => 0
  | w :: ws' =>
      (if negb dead && playerDead w then 1 else 0)
      + deathTransitions (playerDead w) ws'
  end.

(** ** Stuck tracker *)








(** ** Spawner runs *)

Definition levelMap (w : World) : Grid := GameState.level_map (gameState w).

Definition spawnerCode (k : SpawnKind) : ascii :=
  match k with GhostSpawn => "B" | GruntSpawn => "G" end.

Definition spawnInterval (k : SpawnKind) : Z :=
  match k with GhostSpawn => ghostInterval | GruntSpawn => gruntInterval end.

Definition lastTimes (k : SpawnKind) (w : World) : gmap SpawnerKey Z :=
  match k with
  | GhostSpawn => lastGhostSpawnTimes w
  | GruntSpawn => lastGruntSpawnTimes w
  end.

(** The spawn function of each kind. *)
Definition spawnFromGenerator (k : SpawnKind) :
    Grid -> Z -> Z -> Z -> string -> Vector2.t -> World -> World :=
  match k with
  | GhostSpawn => spawnGhostFromGenerator
  | GruntSpawn => spawnGruntFromGenerator
  end.

Definition respawn (k : SpawnKind) (m : Grid) (x y : Z) : Callback :=
  match k with
  | GhostSpawn => RespawnGhost m x y
  | GruntSpawn => RespawnGrunt m x y
  end.

(** The three ways a spawn attempt ends. *)
Inductive SpawnOutcome : Type := Refused | TooSoon | Spawned.

(** The guards of a spawn attempt, in the order of the source. *)
Definition spawnOutcome (k : SpawnKind) (closureMap : Grid) (x y now : Z)
    (w : World) : SpawnOutcome :=
  let '(active, w1) := isSpawnerActive closureMap x y (spawnerCode k) now w in
  if negb active then Refused
  else if negb (tileIs closureMap x y (spawnerCode k)) then Refused
  else if now - lastSpawnOr0 (lastTimes k w1) (getSpawnerKey x y)
          <? spawnInterval k
  then TooSoon
  else Spawned.

(** Two worlds with the same spawner data: grid, health, tracker flags,
    last spawn times and spawn lines. *)
Record sameSpawners (w w' : World) : Prop := {
  same_map : levelMap w' = levelMap w;
  same_health : spawnerHealth w' = spawnerHealth w;
  same_active : spawnerActive w' = spawnerActive w;
  same_ghost : lastGhostSpawnTimes w' = lastGhostSpawnTimes w;
  same_grunt : lastGruntSpawnTimes w' = lastGruntSpawnTimes w;
  same_console : console w' = console w
}.

(** What can happen to the spawners between two loads of the health table
    and of the tracker: a player attack, a spawn attempt of either kind with
    the grid of any render, the run of any timer, and any other update
    (movement, AI, combat, drain) that leaves the spawner data alone. *)
Inductive spawner_step : World -> World -> Prop :=
  | spawner_attack now w :
      spawner_step w (handlePlayerAttackSpawner now w)
  | spawner_attempt k closureMap x y now id spawnPosition w :
      spawner_step w (spawnFromGenerator k closureMap x y now id spawnPosition w)
  | spawner_timer cb now id spawnPosition w :
      spawner_step w (runCallback cb now id spawnPosition w)
  | spawner_other w w' :
      sameSpawners w w' -> spawner_step w w'.

(** A step of the session: a spawner step, or the effect that builds the
    health table anew after the grid object has changed. *)
Inductive session_step : World -> World -> Prop :=
  | session_spawner w w' : spawner_step w w' -> session_step w w'
  | session_reload w : session_step w (reloadSpawnerHealth w).

(** A destroyed spawner cell: switched off, floor in the grid, no health
    left (none at all once the table has been built anew), no spawn time. *)
Record destroyed (key : SpawnerKey) (w : World) : Prop := {
  destroyed_active : spawnerActive w !! key = Some false;
  destroyed_tile : tileAt (levelMap w) (fst key) (snd key) = Some "."%char;
  destroyed_health : forall h, spawnerHealth w !! key = Some h -> h = 0;
  destroyed_ghost : lastGhostSpawnTimes w !! key = None;
  destroyed_grunt : lastGruntSpawnTimes w !! key = None
}.


(** Two spawn lines of one kind and one cell are at least the interval of
    that kind apart, the later line having the later time. *)
Definition spaced (log : list SpawnLine) : Prop :=
  forall (i j : nat) a b,
    (i < j)%nat -> log !! i = Some a -> log !! j = Some b ->
    line_kind a = line_kind b -> line_key a = line_key b ->
    spawnInterval (line_kind a) <= line_time b - line_time a.

(** Every spawn line belongs to a spawner that is switched off or whose
    last spawn time is not before the line. *)
Definition tracked (w : World) : Prop :=
  forall a, a ∈ console w ->
    spawnerActive w !! line_key a = Some false
    \/ exists tl, lastTimes (line_kind a) w !! line_key a = Some tl
                  /\ line_time a <= tl.

(** The three ways [handlePlayerAttackSpawner] ends. *)
Inductive AttackOutcome : Type :=
  | NoSpawner
  | Damaged (key : SpawnerKey) (h h' : Z)
  | Destroyed (key : SpawnerKey) (h : Z) (code : ascii).

Definition attackOutcome (w : World) : AttackOutcome :=
  let key := facedTile (GameState.player (gameState w)) in
  match tileAt (levelMap w) (fst key) (snd key) with
  | Some c =>
      if isSpawnerCode (Some c) then
        match spawnerHealth w !! key with
        | Some h =>
            if 0 <? h then
              let h' := Z.max 0 (h - spawnerDamage (gameProgress w)) in
              if h' <=? 0 then Destroyed key h c else Damaged key h h'
            else NoSpawner
        | None => NoSpawner
        end
      else NoSpawner
  | None => NoSpawner
  end.

(** The steps of [spawner_step] cut into their parts: a timer is a probe of
    the tracker followed by an attempt, or touches no spawner data. *)
Inductive spawner_part : World -> World -> Prop :=
  | part_attack now w :
      spawner_part w (handlePlayerAttackSpawner now w)
  | part_attempt k closureMap x y now id spawnPosition w :
      spawner_part w (spawnFromGenerator k closureMap x y now id spawnPosition w)
  | part_probe closureMap x y t now w :
      spawner_part w (snd (isSpawnerActive closureMap x y t now w))
  | part_other w w' :
      sameSpawners w w' -> spawner_part w w'.


(** ** Paths of the pathfinder *)

(** The cells on the chain of parents that ends at [node], first cell
    first. *)
Fixpoint chainCells (node : PathNode.t) : list (Z * Z) :=
  match node with
  | PathNode.mk x y _ _ _ parent =>
      match parent with
      | None => []
      | Some p => chainCells p
      end ++ [(x, y)]
  end.

Definition nodeCell (node : PathNode.t) : Z * Z :=
  (PathNode.x node, PathNode.y node).

(** The tile of a pixel position, as [findPath] computes it. *)
Definition cellOf (this : EnemyAI.t) (p : Vector2.t) : Z * Z :=
  (Math_floor (Vector2.x p / EnemyAI.tileSize this),
   Math_floor (Vector2.y p / EnemyAI.tileSize this)).

Definition centreOf (this : EnemyAI.t) (c : Z * Z) : Vector2.t :=
  EnemyAI.tileCentre this (fst c) (snd c).

Definition manhattan (a b : Z * Z) : Z :=
  Z.abs (fst a - fst b) + Z.abs (snd a - snd b).

(** One step left, right, up or down. *)
Definition adjacent (a b : Z * Z) : Prop := manhattan a b = 1.

(** A cell the search may enter: inside the grid, and not a wall unless the
    mover is a ghost. *)
Definition enterable (map : Grid) (enemyType : option EnemyType)
    (c : Z * Z) : Prop :=
  outsideGrid map c = false /\
  (notGhost enemyType = true -> wallTile map c = false).

(** Every cell is one step from the one before it ([from] before the
    first). *)
Fixpoint stepwise (from : Z * Z) (cells : list (Z * Z)) : Prop :=
  match cells with
  | [] => True
  | c :: rest => adjacent from c /\ stepwise c rest
  end.

(** A node whose chain of parents leads back to [startNode] by single
    steps through enterable cells, ten cost units per step. *)
Inductive linked (map : Grid) (enemyType : option EnemyType)
    (startNode : PathNode.t) : PathNode.t -> Prop :=
  | linked_start : linked map enemyType startNode startNode
  | linked_child p x y f g h :
      linked map enemyType startNode p ->
      adjacent (nodeCell p) (x, y) ->
      enterable map enemyType (x, y) ->
      g = PathNode.g p + 10 ->
      linked map enemyType startNode (PathNode.mk x y f g h (Some p)).

(** What the search keeps true of every open node when [k] iterations have
    run: it is linked to the start node and its cost is at most [10 * k]. *)
Definition openNode (map : Grid) (enemyType : option EnemyType)
    (startNode : PathNode.t) (k : nat) (node : PathNode.t) : Prop :=
  linked map enemyType startNode node /\ PathNode.g node <= 10 * Z.of_nat k.

(** [findPath] went past its short-circuit and its search reached the goal
    within the iteration cap. *)
Definition foundBySearch (this : EnemyAI.t) (start end_ : Vector2.t)
    (map : Grid) (enemyType : option EnemyType) : bool :=
  negb (EnemyAI.calculateDistance_ltb start end_ (EnemyAI.tileSize this * 3)%Q)
  && match EnemyAI.runSearch this start end_ map enemyType with
     | EnemyAI.Reached _ _ => true
     | _ => false
     end.


(** The list of nodes holds a node at the cell [c]. *)
Definition hasCell (nodes : list PathNode.t) (c : Z * Z) : bool :=
  existsb (EnemyAI.sameCell (fst c) (snd c)) nodes.

(** Every enterable cell one step from an expanded cell is itself expanded
    or waits in the open list. *)
Definition frontierKept (map : Grid) (enemyType : option EnemyType)
    (openList closedList : list PathNode.t) : Prop :=
  forall node c,
    In node closedList -> adjacent (nodeCell node) c ->
    enterable map enemyType c ->
    hasCell openList c = true \/ hasCell closedList c = true.

(** ** The rectangle of a sight line *)

(** [x] lies between [a] and [b], ends included, whichever is smaller. *)
Definition between (a b x : Z) : Prop := Z.min a b <= x <= Z.max a b.

(** The tile of a position as the orchestrator's line of sight takes it. *)
Definition sightTile (p : Vector2.t) (tileSize : number) : Z * Z :=
  (centreTile (Vector2.x p) tileSize, centreTile (Vector2.y p) tileSize).

(** The tile [t] lies in the rectangle of tiles spanned by [a] and [b]. *)
Definition inBox (a b t : Z * Z) : Prop :=
  between (fst a) (fst b) (fst t) /\ between (snd a) (snd b) (snd t).

(** ** Doors and walkable positions *)

(** The doors [doors'] are the doors [doors], some of them opened since. *)
Definition openedSince (doors doors' : list DoorConfig.t) : Prop :=
  Forall2 (fun d d' =>
             DoorConfig.position d' = DoorConfig.position d
             /\ (DoorConfig.isOpen d = true -> DoorConfig.isOpen d' = true))
    doors doors'.

(** The door stands on the tile [tile]. *)
Definition doorOnTile (door : DoorConfig.t) (tile : Z * Z) : Prop :=
  (Vector2.x (DoorConfig.position door) == inject_Z (fst tile) * TILE_SIZE)%Q
  /\ (Vector2.y (DoorConfig.position door) == inject_Z (snd tile) * TILE_SIZE)%Q.

(** ** Pickups *)

(** What can happen to the things to pick up: a chest is opened by a
    callback of any render, a frame checks the chests with the state of any
    render, one of the three effects runs, or the Shift shortcut is
    pressed. *)
Inductive loot_step : Loot.t -> Loot.t -> Prop :=
  | loot_chest closureOpened closureContents chestIndex now s :
      loot_step s
        (handleChestOpen closureOpened closureContents chestIndex now s)
  | loot_check closure now s :
      loot_step s (checkChestCollision closure now s)
  | loot_food s : loot_step s (eatFoodPlatter s)
  | loot_key s : loot_step s (collectKey s)
  | loot_door s : loot_step s (openDoor s)
  | loot_shift s : loot_step s (addHealthShortcut s).

Definition lootHealth (s : Loot.t) : number := Player.health (Loot.player s).

Definition lootMaxHealth (s : Loot.t) : number :=
  Player.maxHealth (Loot.player s).

(** The number of keys marked as collected. *)
Definition collectedKeys (s : Loot.t) : nat :=
  length (List.filter KeyConfig.isCollected (Loot.keys s)).

(** What the key effect does to each key of the list. *)
Definition markCollected (id : Z) (k : KeyConfig.t) : KeyConfig.t :=
  if KeyConfig.id k =? id
  then KeyConfig.mk (KeyConfig.id k) (KeyConfig.position k) true
  else k.

(** The keys bear their index in the list as id, the key count is the
    number of collected keys, and no key is equipped. *)
Record keysCounted (s : Loot.t) : Prop := {
  counted_ids : forall (i : nat) k,
    Loot.keys s !! i = Some k -> KeyConfig.id k = Z.of_nat i;
  counted_count : Loot.keyCount s = Some (Z.of_nat (collectedKeys s));
  counted_equipped : Loot.keyEquipped s = false
}.

(** ** Spawn positions and patrol points *)

(** The tile of the point, as the AI engine computes it, is floor. *)
Definition onFloor (this : EnemyAI.t) (map : Grid) (p : Vector2.t) : Prop :=
  tileIs map (Math_floor (Vector2.x p / EnemyAI.tileSize this))
             (Math_floor (Vector2.y p / EnemyAI.tileSize this)) "." = true.

(** Every number drawn lies in the range of [Math.random()]. *)
Definition unitRange (rand : nat -> number) : Prop :=
  forall n, (0 <= rand n)%Q /\ (rand n < 1)%Q.
(** * Scenes of the examples *)

(** A walled-in cell next to open floor. *)
Definition cell : Grid :=
  List.map list_ascii_of_string
    ["###........"; "#.#........"; "###........"]%string.

(** A corridor of 200 tiles, longer than the iteration cap. *)
Definition corridor : Grid := [List.repeat "."%char 200].

(** Way points with their coordinates in lowest terms. *)
Definition reduced (path : option (list Vector2.t)) : option (list (Q * Q)) :=
  option_map (List.map (fun v => (Qred (Vector2.x v), Qred (Vector2.y v)))) path.

(** A small room split by a wall. *)
Definition room : Grid :=
  List.map list_ascii_of_string
    ["#######"; "#..#..#"; "#..#..#"; "#######"]%string.

(** An open floor with one wall tile at (1, 1). *)
Definition wallRoom : Grid :=
  List.map list_ascii_of_string ["....."; ".#..."; "....."]%string.

(** A player standing at [(x, y)] with the given health. *)
Definition hero (x y : number) (health : number) : Player.t :=
  Player.mk (Vector2.mk x y) south health 100 false idle 0 None.

(** A world on a game state, with nothing recorded yet. *)
Definition emptyWorld (s : GameState.t) : World :=
  mkWorld s (GameProgress.mk 0 false None false 0) ∅ ∅ ∅ ∅ ∅ ∅ ∅ [] [].

(** An open floor. *)
Definition openRoom : Grid :=
  List.map list_ascii_of_string ["....."; "....."; "....."]%string.

(** A ghost within one tile of a player at full health. *)
Definition meleeScene : GameState.t :=
  GameState.mk (hero 40 40 100) [newGhost "g" (Vector2.mk 60 44)] openRoom.

(** A player with one point of health left. *)
Definition lastBreath : World :=
  emptyWorld (GameState.mk (hero 40 40 1) [] openRoom).

(** The drain fires, the next frame checks, the callback runs; then a
    further frame, a further tick and a stale callback. *)
Definition lastBreathRun : list World :=
  let w1 := drainInterval 1000 lastBreath in
  let w2 := checkPlayerDead (playerDead w1) w1 in
  let w3 := runCallback SetPlayerDead 1001 "" (Vector2.mk 0 0) w2 in
  let w4 := checkPlayerDead (playerDead w3) w3 in
  let w5 := drainInterval 2000 w4 in
  let w6 := runCallback SetPlayerDead 2001 "" (Vector2.mk 0 0) w5 in
  [w1; w2; w3; w4; w5; w6].

(** Two bone piles. *)
Definition twoPiles : Grid :=
  List.map list_ascii_of_string ["#####"; "#.B.#"; "#..B#"; "#####"]%string.

(** A bone pile at cell (2, 1). *)
Definition bonePileRoom : Grid :=
  List.map list_ascii_of_string ["#####"; "#.B.#"; "#####"]%string.

(** The bone pile with 6 health left, the player on its left facing east. *)
Definition bonePileWorld : World :=
  mkWorld
    (GameState.mk (Player.mk (Vector2.mk 32 32) east 100 100 false idle 0 None)
       [] bonePileRoom)
    (GameProgress.mk 0 false None false 0)
    {[ (2, 1) := 6 ]} {[ (2, 1) := true ]} ∅ {[ (2, 1) := 1000 ]} ∅ ∅ ∅ [] [].

(** The bone pile untouched, nothing spawned yet. *)
Definition freshBonePile : World :=
  mkWorld
    (GameState.mk (Player.mk (Vector2.mk 32 32) east 100 100 false idle 0 None)
       [] bonePileRoom)
    (GameProgress.mk 0 false None false 0)
    {[ (2, 1) := 20 ]} {[ (2, 1) := true ]} ∅ ∅ ∅ ∅ ∅ [] [].

(** Spawn attempts at 10 s, 12 s and 12.5 s. *)
Definition threeAttempts : World :=
  spawnGhostFromGenerator bonePileRoom 2 1 12500 "ghost_c" (Vector2.mk 48 48)
    (spawnGhostFromGenerator bonePileRoom 2 1 12000 "ghost_b" (Vector2.mk 48 48)
       (spawnGhostFromGenerator bonePileRoom 2 1 10000 "ghost_a"
          (Vector2.mk 48 48) freshBonePile)).


(** The bone pile room after the bone pile has been destroyed. *)
Definition clearedRoom : Grid :=
  List.map list_ascii_of_string ["#####"; "#...#"; "#####"]%string.

Definition clearedWorld : World :=
  mkWorld
    (GameState.mk (Player.mk (Vector2.mk 32 32) east 100 100 false idle 0 None)
       [] clearedRoom)
    (GameProgress.mk 0 false None false 0)
    ∅ {[ (2, 1) := false ]} ∅ ∅ ∅ ∅ ∅ [] [].

(** A closed door on the tile (2, 1) of the open room. *)
Definition doorAt21 : DoorConfig.t := DoorConfig.mk 0 (Vector2.mk 64 32) false.

(** A camera at rest in the top left corner. *)
Definition restingCamera : Camera.t :=
  Camera.mk (Vector2.mk 0 0) (Vector2.mk 0 0) None 0.

(** A player next to a chest of food, hurt, with nothing opened yet. *)
Definition chestScene : Loot.t :=
  Loot.mk (hero 160 160 90) (Some [chestAt 0 5 5]) None [] [] ∅
    {[ 0 := food ]} ∅ None false.

(** A grid with two keys and one door, and a player on the first key. *)
Definition keyRoom : Grid :=
  List.map list_ascii_of_string ["#####"; "#K.K#"; "#.D.#"; "#####"]%string.

Definition keyScene : Loot.t :=
  Loot.mk (hero 28 28 100) None None [] [] ∅ ∅ ∅ None false.
(** * Properties *)

(** ** Comparisons on numbers *)

Lemma Qltb_lt (a b : number) : Qltb a b = true <-> (a < b)%Q.
Proof.
  unfold Qltb. rewrite negb_true_iff. split.
  - intros H. apply Qnot_le_lt. intros Hle.
    apply Qle_bool_iff in Hle. congruence.
  - intros H. destruct (Qle_bool b a) eqn:E; [|reflexivity].
    apply Qle_bool_iff in E. exfalso. exact (Qlt_not_le _ _ H E).
Qed.

Lemma Qltb_ge (a b : number) : Qltb a b = false <-> (b <= a)%Q.
Proof.
  unfold Qltb. rewrite negb_false_iff. apply Qle_bool_iff.
Qed.

Lemma dist_leb_le (dx dy r : number) :
  dist_leb dx dy r = true <-> (0 <= r)%Q /\ (sumSq dx dy <= r * r)%Q.
Proof.
  unfold dist_leb. rewrite andb_true_iff, !Qle_bool_iff. reflexivity.
Qed.

Lemma dist_ltb_lt (dx dy r : number) :
  dist_ltb dx dy r = true <-> (0 < r)%Q /\ (sumSq dx dy < r * r)%Q.
Proof.
  unfold dist_ltb. rewrite andb_true_iff, !Qltb_lt. reflexivity.
Qed.

Lemma Math_max_0_nonneg (a : number) : (0 <= Math_max 0 a)%Q.
Proof.
  unfold Math_max. destruct (Qle_bool 0 a) eqn:E.
  - now apply Qle_bool_iff.
  - apply Qle_refl.
Qed.

Lemma Math_max_0_of_nonneg (a : number) : (0 <= a)%Q -> Math_max 0 a = a.
Proof.
  intros H. unfold Math_max. apply Qle_bool_iff in H. now rewrite H.
Qed.


Lemma Math_max_0_le (h a : number) :
  (0 <= h)%Q -> (0 <= a)%Q -> (Math_max 0 (h - a) <= h)%Q.
Proof.
  intros Hh Ha. unfold Math_max. destruct (Qle_bool 0 (h - a)); [|exact Hh].
  rewrite <- (Qplus_0_r h) at 2. unfold Qminus.
  apply Qplus_le_r. apply (Qopp_le_compat 0 a) in Ha. exact Ha.
Qed.

(** ** Pathfinder *)

Section Pathfinder.

Variable this : EnemyAI.t.
Variables (map : Grid) (enemyType : option EnemyType).

Lemma search_iterations (budget : nat) :
  forall endX endY openList closedList iterations,
    Forall (fun node => EnemyAI.sameCell endX endY node = false) closedList ->
    match EnemyAI.search budget map enemyType endX endY openList closedList
            iterations with
    | EnemyAI.Reached goal n =>
        (iterations < n <= iterations + budget)%nat /\
        EnemyAI.sameCell endX endY goal = true
    | EnemyAI.Raised n => (iterations < n <= iterations + budget)%nat
    | EnemyAI.Exhausted o c n =>
        (n <= iterations + budget)%nat /\
        (o = [] \/ n = (iterations + budget)%nat) /\
        Forall (fun node => EnemyAI.sameCell endX endY node = false) c
    end.
Proof.
  induction budget as [|budget IH]; intros endX endY openList closedList
    iterations Hclosed; cbn [EnemyAI.search].
  - destruct openList; repeat split; auto; lia.
  - destruct openList as [|first rest].
    + repeat split; auto; lia.
    + destruct (EnemyAI.lowestF rest 1 first 0) as [currentNode currentIndex].
      destruct (EnemyAI.sameCell endX endY currentNode) eqn:Egoal.
      * split; [lia | exact Egoal].
      * destruct (EnemyAI.visitNeighbors map enemyType endX endY _ currentNode
                    _ _) as [openList2|].
        -- assert (Hc : Forall
                     (fun node => EnemyAI.sameCell endX endY node = false)
                     (closedList ++ [currentNode])).
           { apply Forall_app. split; [exact Hclosed|].
             constructor; [exact Egoal | constructor]. }
           specialize (IH endX endY openList2 _ (S iterations) Hc).
           destruct (EnemyAI.search budget map enemyType endX endY openList2 _ _)
             as [goal n|o c n|n].
           ++ destruct IH as [IH1 IH2]. split; [lia | exact IH2].
           ++ destruct IH as (IH1 & IH2 & IH3). split; [lia|]. split; [|exact IH3].
              destruct IH2 as [->| ->]; [now left | right; lia].
           ++ lia.
        -- lia.
Qed.

(** C5. [findPath] never runs its loop body more than [maxIterations] = 100
    times, on any input; and when the loop ends because the open list is
    empty or the counter has reached 100, no expanded node being the goal,
    the result is exactly [[end]]. *)
Theorem findPath_iteration_cap (start end_ : Vector2.t) :
  EnemyAI.maxIterations = 100%nat /\
  (snd (EnemyAI.findPath_counted this start end_ map enemyType)
     <= EnemyAI.maxIterations)%nat /\
  (forall o c n,
      EnemyAI.runSearch this start end_ map enemyType = EnemyAI.Exhausted o c n ->
      (o = [] \/ n = EnemyAI.maxIterations) /\
      Forall (fun node =>
                EnemyAI.sameCell
                  (Math_floor (Vector2.x end_ / EnemyAI.tileSize this))
                  (Math_floor (Vector2.y end_ / EnemyAI.tileSize this))
                  node = false) c /\
      EnemyAI.findPath this start end_ map enemyType = Some [end_]).
Proof.
  pose proof (search_iterations EnemyAI.maxIterations
                (Math_floor (Vector2.x end_ / EnemyAI.tileSize this))
                (Math_floor (Vector2.y end_ / EnemyAI.tileSize this))
                [EnemyAI.startNodeOf this start] [] 0%nat (List.Forall_nil _)) as H.
  fold (EnemyAI.runSearch this start end_ map enemyType) in H.
  split; [reflexivity|]. split.
  - unfold EnemyAI.findPath_counted.
    destruct (EnemyAI.calculateDistance_ltb _ _ _); [simpl; lia|].
    destruct (EnemyAI.runSearch this start end_ map enemyType); simpl; lia.
  - intros o c n E. rewrite E in H. destruct H as (H1 & H2 & H3).
    split; [exact H2|]. split; [exact H3|].
    unfold EnemyAI.findPath, EnemyAI.findPath_counted.
    destruct (EnemyAI.calculateDistance_ltb _ _ _); [reflexivity|].
    now rewrite E.
Qed.

(** C6. When the straight-line distance from [start] to [end] is strictly
    below three tile widths, [findPath] returns exactly [[end]] and the
    search loop does not run at all (zero iterations), whatever the grid and
    the mover type. *)
Theorem findPath_short_circuit (start end_ : Vector2.t) :
  distanceBelow start end_ (EnemyAI.tileSize this * 3)%Q ->
  EnemyAI.findPath this start end_ map enemyType = Some [end_] /\
  EnemyAI.findPath_counted this start end_ map enemyType = (Some [end_], 0%nat).
Proof.
  intros H. apply dist_ltb_lt in H.
  unfold EnemyAI.findPath, EnemyAI.findPath_counted,
    EnemyAI.calculateDistance_ltb.
  rewrite H. split; reflexivity.
Qed.

End Pathfinder.

(** From the walled-in cell the open list empties after one expansion; in
    the corridor a far goal exhausts the cap and a near one is reached. *)
Example walled_in_search_empties_the_open_list :
  EnemyAI.findPath_counted EnemyAI.initial
    (Vector2.mk 48 48) (Vector2.mk 304 48) cell (Some orc)
  = (Some [Vector2.mk 304 48], 1%nat).
Proof. vm_compute. reflexivity. Qed.

Example long_corridor_hits_the_cap :
  EnemyAI.findPath_counted EnemyAI.initial
    (Vector2.mk 16 16) (Vector2.mk 4816 16) corridor (Some orc)
  = (Some [Vector2.mk 4816 16], 100%nat).
Proof. vm_compute. reflexivity. Qed.

Example short_corridor_is_walked :
  reduced (EnemyAI.findPath EnemyAI.initial
             (Vector2.mk 16 16) (Vector2.mk 144 16) corridor (Some orc))
  = Some [(48, 16); (80, 16); (112, 16); (144, 16)]%Q
  /\ snd (EnemyAI.findPath_counted EnemyAI.initial
            (Vector2.mk 16 16) (Vector2.mk 144 16) corridor (Some orc)) = 5%nat.
Proof. split; vm_compute; reflexivity. Qed.

Example empty_grid_raises :
  EnemyAI.findPath_counted EnemyAI.initial
    (Vector2.mk 16 16) (Vector2.mk 144 16) [] (Some orc)
  = (None, 1%nat).
Proof. vm_compute. reflexivity. Qed.

Lemma findPath_iteration_cap_witness :
  EnemyAI.findPath EnemyAI.initial
    (Vector2.mk 16 16) (Vector2.mk 4816 16) corridor (Some orc)
  = Some [Vector2.mk 4816 16].
Proof.
  destruct (findPath_iteration_cap EnemyAI.initial corridor (Some orc)
              (Vector2.mk 16 16) (Vector2.mk 4816 16)) as (_ & _ & H).
  edestruct H as (_ & _ & E); [vm_compute; reflexivity | exact E].
Defined.

Lemma findPath_short_circuit_witness :
  EnemyAI.findPath EnemyAI.initial
    (Vector2.mk 48 48) (Vector2.mk 112 80) cell (Some orc)
  = Some [Vector2.mk 112 80].
Proof.
  apply (findPath_short_circuit EnemyAI.initial cell (Some orc)
           (Vector2.mk 48 48) (Vector2.mk 112 80)).
  split; vm_compute; reflexivity.
Defined.

(** ** Line of sight of the AI engine *)

Section AiLineOfSight.

Variable this : EnemyAI.t.

Variable map : Grid.

Lemma outOfBounds_outside (tileX tileY : Z) :
  map <> [] -> outOfBounds map tileX tileY = Some (outsideGrid map (tileX, tileY)).
Proof.
  intros Hne. unfold outOfBounds, outsideGrid, row0Length.
  destruct map as [|row rows]; [congruence|]. simpl hd.
  destruct (tileX <? 0); reflexivity.
Qed.



End AiLineOfSight.

(** In the split room a ghost sees through the wall, an orc does not, and
    the ghost loses sight beyond the right edge of the grid. *)
Example ghost_sees_through_wall :
  EnemyAI.hasLineOfSight EnemyAI.initial
    (Vector2.mk 48 48) (Vector2.mk 176 48) room (Some ghost) = Some true.
Proof. vm_compute. reflexivity. Qed.

Example orc_blocked_by_wall :
  EnemyAI.hasLineOfSight EnemyAI.initial
    (Vector2.mk 48 48) (Vector2.mk 176 48) room (Some orc) = Some false.
Proof. vm_compute. reflexivity. Qed.

Example ghost_blocked_by_edge :
  EnemyAI.hasLineOfSight EnemyAI.initial
    (Vector2.mk 48 48) (Vector2.mk 304 48) room (Some ghost) = Some false.
Proof. vm_compute. reflexivity. Qed.

(** The samples are the points one step apart from [start]: a segment of
    zero length has none and is answered [true] even inside a wall, and an
    end point less than one step past the last sample is not looked at. *)
Example zero_length_segment_has_no_sample :
  sampledTiles EnemyAI.initial (Vector2.mk 100 48) (Vector2.mk 100 48) = []
  /\ tileIs room 3 1 "#" = true
  /\ EnemyAI.hasLineOfSight EnemyAI.initial
       (Vector2.mk 100 48) (Vector2.mk 100 48) room (Some orc) = Some true.
Proof. vm_compute. repeat split; reflexivity. Qed.

Example end_point_past_the_last_sample :
  sampledTiles EnemyAI.initial (Vector2.mk 40 48) (Vector2.mk 100 48)
  = [(1, 1); (2, 1)]
  /\ EnemyAI.hasLineOfSight EnemyAI.initial
       (Vector2.mk 40 48) (Vector2.mk 100 48) room (Some orc) = Some true.
Proof. vm_compute. repeat split; reflexivity. Qed.


(** ** Bresenham line of sight of the orchestrator *)

Lemma walking_start (x0 y0 x1 y1 : Z) :
  walking x0 y0 x1 y1 (Z.abs (x1 - x0)) (if x0 <? x1 then 1 else -1)
    (- Z.abs (y1 - y0)) (if y0 <? y1 then 1 else -1)
    (Z.abs (x1 - x0) + - Z.abs (y1 - y0))
    (Z.abs (x1 - x0)) (Z.abs (y1 - y0)).
Proof.
  split; try lia.
  - destruct (Z.ltb_spec x0 x1); lia.
  - destruct (Z.ltb_spec y0 y1); lia.
  - destruct (x0 <? x1); auto.
  - destruct (y0 <? y1); auto.
Qed.

(** One iteration that has not reached the target moves on at least one
    axis, never past the target, and keeps the loop variables related. *)
Lemma walking_step (x0 y0 x1 y1 dx sx dy sy err rx ry : Z) :
  walking x0 y0 x1 y1 dx sx dy sy err rx ry ->
  (x0 =? x1) && (y0 =? y1) = false ->
  let e2 := 2 * err in
  let stepX := dy <=? e2 in
  let stepY := e2 <=? dx in
  let err1 := if stepX then err + dy else err in
  let x0' := if stepX then x0 + sx else x0 in
  let err2 := if stepY then err1 + dx else err1 in
  let y0' := if stepY then y0 + sy else y0 in
  let rx' := if stepX then rx - 1 else rx in
  let ry' := if stepY then ry - 1 else ry in
  walking x0' y0' x1 y1 dx sx dy sy err2 rx' ry' /\ rx' + ry' < rx + ry.
Proof.
  intros [Hrx Hry Hx Hy Hsx Hsy Herr] Hnot. cbv zeta.
  assert (Hpos : 0 < rx \/ 0 < ry).
  { apply andb_false_iff in Hnot. destruct Hnot as [H|H];
      apply Z.eqb_neq in H; [left|right]; nia. }
  destruct (Z.leb_spec dy (2 * err)) as [HX|HX];
    destruct (Z.leb_spec (2 * err) dx) as [HY|HY].
  - assert (0 < rx) by nia. assert (0 < ry) by nia.
    split; [split|]; try lia; nia.
  - assert (0 < rx) by nia.
    split; [split|]; try lia; nia.
  - assert (0 < ry) by nia.
    split; [split|]; try lia; nia.
  - exfalso. lia.
Qed.

Lemma walking_done (x0 y0 x1 y1 dx sx dy sy err rx ry : Z) :
  walking x0 y0 x1 y1 dx sx dy sy err rx ry ->
  rx + ry <= 0 -> (x0 =? x1) && (y0 =? y1) = true.
Proof.
  intros [Hrx Hry Hx Hy Hsx Hsy Herr] H.
  assert (rx = 0) by lia. assert (ry = 0) by lia. subst rx ry.
  apply andb_true_iff. split; apply Z.eqb_eq; lia.
Qed.

Lemma bresenham_walk (map : Grid) (fuel : nat) :
  forall x0 y0 x1 y1 dx sx dy sy err rx ry,
    walking x0 y0 x1 y1 dx sx dy sy err rx ry ->
    rx + ry < Z.of_nat fuel ->
    bresenham fuel map x0 y0 x1 y1 dx sx dy sy err
    = Some (forallb (notWall map) (walkTiles fuel x0 y0 x1 y1 dx sx dy sy err))
    /\ last (walkTiles fuel x0 y0 x1 y1 dx sx dy sy err) = Some (x1, y1).
Proof.
  induction fuel as [|fuel IH]; intros x0 y0 x1 y1 dx sx dy sy err rx ry W Hf.
  - destruct W. lia.
  - cbn [bresenham walkTiles forallb]. unfold notWall at 1. cbn [fst snd].
    destruct ((x0 =? x1) && (y0 =? y1)) eqn:Hat.
    + apply andb_true_iff in Hat. destruct Hat as [Ex Ey].
      apply Z.eqb_eq in Ex, Ey. subst x1 y1.
      split; [|reflexivity].
      destruct (tileIs map x0 y0 "#"); reflexivity.
    + pose proof (walking_step _ _ _ _ _ _ _ _ _ _ _ W Hat) as Hs.
      cbv zeta in Hs. destruct Hs as [W' Hlt].
      destruct (dy <=? 2 * err); destruct (2 * err <=? dx);
        (destruct (IH _ _ _ _ _ _ _ _ _ _ _ W' ltac:(lia)) as [IH1 IH2];
         split;
         [ destruct (tileIs map x0 y0 "#"); [reflexivity | exact IH1]
         | rewrite last_cons, IH2; reflexivity ]).
Qed.

Lemma tileLineOfSight_total (map : Grid) (x0 y0 x1 y1 : Z) :
  tileLineOfSight (walkFuel x0 y0 x1 y1) map x0 y0 x1 y1
  = Some (forallb (notWall map) (lineTiles x0 y0 x1 y1))
  /\ last (lineTiles x0 y0 x1 y1) = Some (x1, y1).
Proof.
  unfold tileLineOfSight, lineTiles.
  apply (bresenham_walk map _ _ _ _ _ _ _ _ _ _ _ _ (walking_start x0 y0 x1 y1)).
  unfold walkFuel. lia.
Qed.

Lemma lineTiles_head (x0 y0 x1 y1 : Z) :
  head (lineTiles x0 y0 x1 y1) = Some (x0, y0).
Proof. reflexivity. Qed.

Lemma hasLineOfSight_lineTiles (from to : Vector2.t) (map : Grid)
    (tileSize : number) :
  hasLineOfSight from to map tileSize
  = forallb (notWall map)
      (lineTiles (centreTile (Vector2.x from) tileSize)
                 (centreTile (Vector2.y from) tileSize)
                 (centreTile (Vector2.x to) tileSize)
                 (centreTile (Vector2.y to) tileSize)).
Proof.
  unfold hasLineOfSight.
  now rewrite (proj1 (tileLineOfSight_total map _ _ _ _)).
Qed.

(** ** Combat: enemy attacks on the player *)

Lemma withinRange_leb snapshot enemy r :
  withinRange snapshot enemy r <->
  dist_leb (offsetX snapshot enemy) (offsetY snapshot enemy) r = true.
Proof. symmetry. apply dist_leb_le. Qed.

Lemma one_tile_within_check snapshot enemy :
  withinRange snapshot enemy (TILE_SIZE * 1)%Q ->
  withinRange snapshot enemy attackCheckRadius.
Proof.
  intros [_ H]. split; [discriminate|].
  eapply Qle_trans; [exact H|]. discriminate.
Qed.

(** C10. The line-of-sight function of the orchestrator has no mover type
    among its arguments: it answers [true] exactly when no tile on the
    Bresenham walk from the tile of [from] to the tile of [to] (both ends
    included) is a wall, so one wall on the walk gives [false] whoever
    moves. In the combat resolver every enemy that is not a grunt, ghosts
    included, attacks only under this test: when it fails the world is left
    as it was. The player's melee sweep applies the same test to every
    enemy: when it fails the enemy is left as it was. *)
Theorem hasLineOfSight_walls_block_every_mover
    (from to : Vector2.t) (map : Grid) (tileSize : number) :
  let tiles :=
    lineTiles (centreTile (Vector2.x from) tileSize)
              (centreTile (Vector2.y from) tileSize)
              (centreTile (Vector2.x to) tileSize)
              (centreTile (Vector2.y to) tileSize) in
  hasLineOfSight from to map tileSize = forallb (notWall map) tiles
  /\ head tiles = Some (centreTile (Vector2.x from) tileSize,
                        centreTile (Vector2.y from) tileSize)
  /\ last tiles = Some (centreTile (Vector2.x to) tileSize,
                        centreTile (Vector2.y to) tileSize)
  /\ (forall tile, In tile tiles ->
        tileIs map (fst tile) (snd tile) "#" = true ->
        hasLineOfSight from to map tileSize = false)
  /\ (forall snapshot timestamp now roll enemy w,
        EnemyConfig.type enemy <> grunt ->
        sightOf snapshot enemy = false ->
        enemyAttack snapshot timestamp now roll enemy w = w)
  /\ (forall closure g enemy,
        hasLineOfSight
          (adjustedPlayerPos (Player.position (GameState.player closure)))
          (EnemyConfig.position enemy) (GameState.level_map closure) TILE_SIZE
        = false ->
        sweepEnemy closure g enemy = Some enemy).
Proof.
  cbv zeta. split; [apply hasLineOfSight_lineTiles|].
  split; [apply lineTiles_head|].
  split; [apply tileLineOfSight_total; exact map|].
  split; [|split].
  - intros tile Hin Hwall. rewrite hasLineOfSight_lineTiles.
    apply not_true_is_false. intros Hall.
    rewrite forallb_forall in Hall. specialize (Hall tile Hin).
    unfold notWall in Hall. rewrite Hwall in Hall. discriminate.
  - intros snapshot timestamp now roll enemy w Hty Hsight.
    unfold enemyAttack. fold (sightOf snapshot enemy). rewrite Hsight.
    rewrite !andb_false_r.
    destruct (EnemyConfig.type enemy); try congruence;
      cbn [EnemyType_eqb];
      repeat match goal with |- context [if ?b then _ else _] => destruct b end;
      reflexivity.
  - intros closure g enemy Hsight. unfold sweepEnemy.
    rewrite Hsight, andb_false_r. reflexivity.
Qed.

(** A ghost that stands inside a wall tile next to the player: the
    orchestrator's test fails on the ghost's own tile and the ghost does not
    hit, although the AI engine's test lets the ghost see from there. *)
Example ghost_inside_wall_does_not_hit :
  let snapshot :=
    GameState.mk (hero 4 28 100) [newGhost "g" (Vector2.mk 32 32)] wallRoom in
  let g := newGhost "g" (Vector2.mk 32 32) in
  withinRange snapshot g (TILE_SIZE * 1)%Q /\
  sightOf snapshot g = false /\
  EnemyAI.hasLineOfSight (EnemyAI.setDimensions EnemyAI.initial 32 1152 1152)
    (EnemyConfig.position g)
    (adjustedPlayerPos (Player.position (GameState.player snapshot)))
    wallRoom (Some ghost) = Some true /\
  playerHealth (enemyAttack snapshot 5000 0 0 g (emptyWorld snapshot)) = 100%Q /\
  sweepEnemy snapshot (gameProgress (emptyWorld snapshot)) g = Some g.
Proof.
  cbv zeta. split; [split; vm_compute; discriminate|].
  split; [vm_compute; reflexivity|]. split; [vm_compute; reflexivity|].
  split; vm_compute; reflexivity.
Qed.

(** On open floor the same sweep kills the ghost (2 health against 7) and
    counts the kill. *)
Example sweep_kills_a_ghost_in_sight :
  let w := playerMeleeSweep meleeScene (gameProgress (emptyWorld meleeScene))
             (emptyWorld meleeScene) in
  worldEnemies w = [] /\ GameProgress.kills (gameProgress w) = 1
  /\ GameProgress.score (gameProgress w) = 100.
Proof. vm_compute. repeat split; reflexivity. Qed.

Lemma hasLineOfSight_walls_block_every_mover_witness :
  hasLineOfSight (Vector2.mk 32 32) (Vector2.mk (196 # 25) (796 # 25))
    wallRoom TILE_SIZE = false.
Proof.
  apply (hasLineOfSight_walls_block_every_mover
           (Vector2.mk 32 32) (Vector2.mk (196 # 25) (796 # 25))
           wallRoom TILE_SIZE) with (tile := (1, 1)).
  - vm_compute. auto.
  - reflexivity.
Defined.


(** The branch taken by any other enemy within one tile, cooled down and
    in sight. *)
Lemma enemyAttack_melee snapshot timestamp now roll enemy w :
  EnemyConfig.type enemy <> grunt ->
  withinRange snapshot enemy (TILE_SIZE * 1)%Q ->
  cooledDown w enemy timestamp ->
  sightOf snapshot enemy = true ->
  enemyAttack snapshot timestamp now roll enemy w
  = hitPlayer (1 # 4) now
      (set_enemyLastAttackTimes
         (<[EnemyConfig.id enemy := timestamp]> (enemyLastAttackTimes w)) w).
Proof.
  intros Hty Hin Hcool Hsight.
  pose proof (one_tile_within_check _ _ Hin) as Hcheck.
  apply withinRange_leb in Hin, Hcheck. apply Qle_bool_iff in Hcool.
  unfold enemyAttack. fold (offsetX snapshot enemy) (offsetY snapshot enemy).
  fold (sightOf snapshot enemy). rewrite Hcheck, Hin, Hcool, Hsight.
  destruct (EnemyConfig.type enemy); try congruence; reflexivity.
Qed.

(** The branch taken beyond one tile, within the check radius and the
    enemy's [attackRange], cooled down and in sight. *)
Lemma enemyAttack_ranged snapshot timestamp now roll enemy w :
  ~ withinRange snapshot enemy (TILE_SIZE * 1)%Q ->
  withinRange snapshot enemy attackCheckRadius ->
  withinRange snapshot enemy (EnemyConfig.attackRange enemy) ->
  cooledDown w enemy timestamp ->
  sightOf snapshot enemy = true ->
  enemyAttack snapshot timestamp now roll enemy w
  = if Qltb roll (1 # 10)
    then hitPlayer (EnemyConfig.damage enemy) now
           (set_enemyLastAttackTimes
              (<[EnemyConfig.id enemy := timestamp]> (enemyLastAttackTimes w)) w)
    else w.
Proof.
  intros Hfar Hcheck Hrange Hcool Hsight.
  rewrite withinRange_leb in Hfar. apply not_true_is_false in Hfar.
  apply withinRange_leb in Hcheck, Hrange. apply Qle_bool_iff in Hcool.
  unfold enemyAttack. fold (offsetX snapshot enemy) (offsetY snapshot enemy).
  fold (sightOf snapshot enemy).
  rewrite Hcheck, Hfar, Hrange, Hcool, Hsight. reflexivity.
Qed.

Lemma playerHealth_hitPlayer amount now w :
  playerHealth (hitPlayer amount now w) = Math_max 0 (playerHealth w - amount).
Proof. reflexivity. Qed.



(** C1, as amended. An enemy that is not a grunt, within one tile of the
    player, in line of sight and past its 1.1 s cooldown takes a fixed 0.25
    from the player's health (never below zero) and restarts its cooldown;
    no dice is thrown there, and its [damage] plays no part. Its [damage] is
    dealt only beyond one tile, within the two-tile check radius and within
    its [attackRange], under the same cooldown and sight test, and then only
    when the roll is below 0.1; otherwise nothing changes. *)
Theorem enemy_hit_amounts snapshot timestamp now roll enemy w :
  EnemyConfig.type enemy <> grunt ->
  cooledDown w enemy timestamp ->
  sightOf snapshot enemy = true ->
  let w' := enemyAttack snapshot timestamp now roll enemy w in
  (withinRange snapshot enemy (TILE_SIZE * 1)%Q ->
     playerHealth w' = Math_max 0 (playerHealth w - (1 # 4))
     /\ (0 <= playerHealth w')%Q
     /\ enemyLastAttackTimes w' !! EnemyConfig.id enemy = Some timestamp
     /\ (forall roll', enemyAttack snapshot timestamp now roll' enemy w = w'))
  /\ (~ withinRange snapshot enemy (TILE_SIZE * 1)%Q ->
      withinRange snapshot enemy attackCheckRadius ->
      withinRange snapshot enemy (EnemyConfig.attackRange enemy) ->
      ((roll < 1 # 10)%Q ->
         playerHealth w' = Math_max 0 (playerHealth w - EnemyConfig.damage enemy)
         /\ enemyLastAttackTimes w' !! EnemyConfig.id enemy = Some timestamp)
      /\ ((1 # 10 <= roll)%Q -> w' = w)).
Proof.
  intros Hty Hcool Hsight. cbv zeta. split.
  - intros Hin.
    rewrite (enemyAttack_melee _ _ _ _ _ _ Hty Hin Hcool Hsight).
    rewrite playerHealth_hitPlayer. repeat split.
    + apply Math_max_0_nonneg.
    + apply lookup_insert_eq.
    + intros roll'.
      apply (enemyAttack_melee _ _ _ _ _ _ Hty Hin Hcool Hsight).
  - intros Hfar Hcheck Hrange.
    rewrite (enemyAttack_ranged _ _ _ _ _ _ Hfar Hcheck Hrange Hcool Hsight).
    split.
    + intros Hroll. apply Qltb_lt in Hroll. rewrite Hroll.
      rewrite playerHealth_hitPlayer. split; [reflexivity|].
      apply lookup_insert_eq.
    + intros Hroll. apply Qltb_ge in Hroll. now rewrite Hroll.
Qed.

Lemma enemy_hit_amounts_witness :
  playerHealth
    (enemyAttack meleeScene 5000 7 0 (newGhost "g" (Vector2.mk 60 44))
       (emptyWorld meleeScene))
  = Math_max 0 (100 - (1 # 4)).
Proof.
  assert (Hty : EnemyConfig.type (newGhost "g" (Vector2.mk 60 44)) <> grunt)
    by discriminate.
  assert (Hcool : cooledDown (emptyWorld meleeScene)
                    (newGhost "g" (Vector2.mk 60 44)) 5000)
    by (vm_compute; discriminate).
  assert (Hsight : sightOf meleeScene (newGhost "g" (Vector2.mk 60 44)) = true)
    by (vm_compute; reflexivity).
  assert (Hin : withinRange meleeScene (newGhost "g" (Vector2.mk 60 44))
                  (TILE_SIZE * 1)%Q)
    by (split; vm_compute; discriminate).
  pose proof (enemy_hit_amounts meleeScene 5000 7 0
                (newGhost "g" (Vector2.mk 60 44)) (emptyWorld meleeScene)
                Hty Hcool Hsight) as H.
  cbv zeta in H. exact (proj1 (proj1 H Hin)).
Defined.

(** C1 as first stated fails: a ghost with [damage] 1, within one tile, in
    sight and cooled down, takes 0.25 from a player at 100, not 1. *)
Lemma melee_hit_is_not_the_damage_stat :
  let g := newGhost "g" (Vector2.mk 60 44) in
  let w := emptyWorld meleeScene in
  let w' := enemyAttack meleeScene 5000 7 0 g w in
  EnemyConfig.type g <> grunt
  /\ withinRange meleeScene g (TILE_SIZE * 1)%Q
  /\ sightOf meleeScene g = true
  /\ cooledDown w g 5000
  /\ (EnemyConfig.damage g == 1)%Q
  /\ (playerHealth w == 100)%Q
  /\ (playerHealth w' == 399 # 4)%Q
  /\ ~ (playerHealth w' == playerHealth w - EnemyConfig.damage g)%Q.
Proof.
  cbv zeta. split; [discriminate|].
  split; [split; vm_compute; discriminate|].
  split; [vm_compute; reflexivity|].
  split; [vm_compute; discriminate|].
  split; [reflexivity|]. split; [reflexivity|].
  split; [vm_compute; reflexivity|].
  intros H. vm_compute in H. discriminate.
Qed.

(** ** Passive drain and the death transition *)

Lemma enemyAttack_cases snapshot timestamp now roll enemy w :
  enemyAttack snapshot timestamp now roll enemy w = w
  \/ exists amount w0,
       enemyAttack snapshot timestamp now roll enemy w = hitPlayer amount now w0
       /\ gameProgress w0 = gameProgress w
       /\ playerHealth w0 = playerHealth w.
Proof.
  unfold enemyAttack.
  repeat match goal with
         | |- context [if ?b then _ else _] => destruct b
         end;
    first [ left; reflexivity
          | right; eexists _, _; split; [reflexivity | split; reflexivity] ].
Qed.

Lemma enemyAttack_life snapshot timestamp now roll enemy w :
  playerDead (enemyAttack snapshot timestamp now roll enemy w) = playerDead w
  /\ ((0 <= playerHealth w)%Q ->
      (0 <= playerHealth (enemyAttack snapshot timestamp now roll enemy w))%Q).
Proof.
  destruct (enemyAttack_cases snapshot timestamp now roll enemy w)
    as [-> | (amount & w0 & -> & Hg & Hh)]; [tauto|].
  split.
  - unfold playerDead. cbn. now rewrite Hg.
  - intros _. rewrite playerHealth_hitPlayer. apply Math_max_0_nonneg.
Qed.

Lemma enemyAttacksFrom_life snapshot timestamp now rolls es :
  forall i w,
    playerDead (enemyAttacksFrom i snapshot timestamp now rolls es w)
    = playerDead w
    /\ ((0 <= playerHealth w)%Q ->
        (0 <= playerHealth
                (enemyAttacksFrom i snapshot timestamp now rolls es w))%Q).
Proof.
  induction es as [|e es IH]; intros i w; cbn [enemyAttacksFrom]; [tauto|].
  destruct (IH (S i) (enemyAttack snapshot timestamp now (rolls i) e w))
    as [IH1 IH2].
  destruct (enemyAttack_life snapshot timestamp now (rolls i) e w) as [H1 H2].
  split; [congruence | auto].
Qed.

Lemma isSpawnerActive_life m x y t now w :
  playerDead (snd (isSpawnerActive m x y t now w)) = playerDead w
  /\ playerHealth (snd (isSpawnerActive m x y t now w)) = playerHealth w.
Proof.
  unfold isSpawnerActive. destruct (spawnerActive w !! getSpawnerKey x y);
    split; reflexivity.
Qed.

Lemma spawnGhost_life m x y now id pos w :
  playerDead (spawnGhostFromGenerator m x y now id pos w) = playerDead w
  /\ playerHealth (spawnGhostFromGenerator m x y now id pos w) = playerHealth w.
Proof.
  unfold spawnGhostFromGenerator.
  pose proof (isSpawnerActive_life m x y "B" now w) as H.
  destruct (isSpawnerActive m x y "B" now w) as [active w1]. cbn [snd] in H.
  repeat match goal with
         | |- context [if ?b then _ else _] => destruct b
         end; exact H.
Qed.

Lemma spawnGrunt_life m x y now id pos w :
  playerDead (spawnGruntFromGenerator m x y now id pos w) = playerDead w
  /\ playerHealth (spawnGruntFromGenerator m x y now id pos w) = playerHealth w.
Proof.
  unfold spawnGruntFromGenerator.
  pose proof (isSpawnerActive_life m x y "G" now w) as H.
  destruct (isSpawnerActive m x y "G" now w) as [active w1]. cbn [snd] in H.
  repeat match goal with
         | |- context [if ?b then _ else _] => destruct b
         end; exact H.
Qed.

Lemma runCallback_life cb now id pos w :
  (playerDead w = true -> playerDead (runCallback cb now id pos w) = true)
  /\ playerHealth (runCallback cb now id pos w) = playerHealth w.
Proof.
  destruct cb as [m x y|m x y|m x y t|enemyId| |]; cbn [runCallback].
  - unfold respawnGhost.
    pose proof (isSpawnerActive_life m x y "B" now w) as [H1 H2].
    destruct (isSpawnerActive m x y "B" now w) as [active w1]. cbn [snd] in *.
    destruct active; [|split; congruence].
    destruct (spawnGhost_life m x y now id pos w1). split; congruence.
  - unfold respawnGrunt.
    pose proof (isSpawnerActive_life m x y "G" now w) as [H1 H2].
    destruct (isSpawnerActive m x y "G" now w) as [active w1]. cbn [snd] in *.
    destruct active; [|split; congruence].
    destruct (spawnGrunt_life m x y now id pos w1). split; congruence.
  - destruct (isSpawnerActive_life m x y t now w). split; congruence.
  - unfold clearRandomDirection.
    destruct (lastEnemyPositions w !! enemyId); split; auto.
  - split; reflexivity.
  - split; [auto | reflexivity].
Qed.

Lemma healthDrainTick_health now w :
  playerHealth (healthDrainTick now w)
  = if Qltb 0 (playerHealth w) then Math_max 0 (playerHealth w - 1)
    else playerHealth w.
Proof.
  unfold healthDrainTick, playerHealth.
  destruct (Qltb 0 (Player.health (GameState.player (gameState w))));
    reflexivity.
Qed.

Lemma life_step_facts w w' :
  life_step w w' ->
  (playerDead w = true -> playerDead w' = true)
  /\ ((0 <= playerHealth w)%Q -> (0 <= playerHealth w')%Q).
Proof.
  intros [now w0|snapshot timestamp now rolls w0|closure w0|cb now id pos w0].
  - unfold drainInterval. fold (playerDead w0).
    destruct (playerDead w0) eqn:E; [tauto|]. split; [congruence|].
    intros H. rewrite healthDrainTick_health.
    destruct (Qltb 0 (playerHealth w0)); [apply Math_max_0_nonneg | exact H].
  - destruct (enemyAttacksFrom_life snapshot timestamp now rolls
                (GameState.enemies snapshot) 0%nat w0) as [H1 H2].
    unfold resolveEnemyAttacks. split; [congruence | exact H2].
  - unfold checkPlayerDead.
    destruct (Qle_bool _ 0 && negb closure); split; auto.
  - destruct (runCallback_life cb now id pos w0) as [H1 H2].
    split; [exact H1 | congruence].
Qed.

Lemma deathTransitions_dead ws :
  forall w, lifeRun w ws -> playerDead w = true ->
            deathTransitions true ws = 0%nat.
Proof.
  induction ws as [|w' ws IH]; intros w Hrun Hdead; [reflexivity|].
  inversion Hrun as [|? ? ? Hstep Hrest]; subst.
  pose proof (proj1 (life_step_facts _ _ Hstep) Hdead) as Hdead'.
  cbn [deathTransitions negb andb]. rewrite Hdead'. apply (IH w' Hrest Hdead').
Qed.

Lemma last_cons_shift {A : Type} (l : list A) :
  forall a d : A, List.last (a :: l) d = List.last l a.
Proof.
  induction l as [|b l IH]; intros a d; [reflexivity|].
  change (List.last (a :: b :: l) d) with (List.last (b :: l) d).
  rewrite !IH. reflexivity.
Qed.

Lemma deathTransitions_alive ws :
  forall w, lifeRun w ws -> playerDead w = false ->
    (deathTransitions false ws <= 1)%nat
    /\ (playerDead (List.last ws w) = true -> deathTransitions false ws = 1%nat).
Proof.
  induction ws as [|w' ws IH]; intros w Hrun Halive.
  - cbn. split; [lia | congruence].
  - inversion Hrun as [|? ? ? Hstep Hrest]; subst.
    cbn [deathTransitions negb andb].
    rewrite last_cons_shift.
    destruct (playerDead w') eqn:E.
    + rewrite (deathTransitions_dead ws w' Hrest E). split; [lia | reflexivity].
    + apply (IH w' Hrest E).
Qed.

(** C9. While the player is alive every tick of the one-second interval
    takes one point of health, whatever else the world holds, stopping at
    zero; health never becomes negative along a run; once health is at zero
    the death check of the next frame schedules the callback that sets
    [playerDead]; and the flag goes from [false] to [true] at most once in
    a run, exactly once in a run that ends dead, after which a frame that
    reads the flag schedules nothing and the drain has stopped. *)
Theorem drain_clamps_and_death_happens_once :
  (forall now w, playerDead w = false ->
     playerHealth (drainInterval now w)
     = (if Qltb 0 (playerHealth w) then Math_max 0 (playerHealth w - 1)
        else playerHealth w)
     /\ ((1 <= playerHealth w)%Q ->
         playerHealth (drainInterval now w) = (playerHealth w - 1)%Q)
     /\ ((0 <= playerHealth w)%Q -> (0 <= playerHealth (drainInterval now w))%Q))
  /\ (forall w ws, lifeRun w ws -> (0 <= playerHealth w)%Q ->
        Forall (fun w' => (0 <= playerHealth w')%Q) ws)
  /\ (forall w, (playerHealth w <= 0)%Q -> playerDead w = false ->
        let w1 := checkPlayerDead (playerDead w) w in
        timers w1 = timers w ++ [mkTimer 0 SetPlayerDead]
        /\ forall now id pos,
             playerDead (runCallback SetPlayerDead now id pos w1) = true)
  /\ (forall w now, playerDead w = true ->
        checkPlayerDead (playerDead w) w = w /\ drainInterval now w = w)
  /\ (forall w ws, lifeRun w ws -> playerDead w = false ->
        (deathTransitions false ws <= 1)%nat
        /\ (playerDead (List.last ws w) = true ->
            deathTransitions false ws = 1%nat)).
Proof.
  split; [|split; [|split; [|split]]].
  - intros now w Halive. unfold drainInterval. fold (playerDead w).
    rewrite Halive, healthDrainTick_health. split; [reflexivity|]. split.
    + intros H.
      assert (Hpos : Qltb 0 (playerHealth w) = true).
      { apply Qltb_lt. eapply Qlt_le_trans; [|exact H]. reflexivity. }
      rewrite Hpos. apply Math_max_0_of_nonneg.
      unfold Qminus. rewrite <- Qle_minus_iff. exact H.
    + intros H. destruct (Qltb 0 (playerHealth w));
        [apply Math_max_0_nonneg | exact H].
  - intros w ws Hrun. induction Hrun as [w|w w' ws Hstep Hrest IH]; intros H.
    + constructor.
    + pose proof (proj2 (life_step_facts _ _ Hstep) H) as H'.
      constructor; [exact H' | exact (IH H')].
  - intros w Hzero Halive. cbv zeta. rewrite Halive.
    unfold checkPlayerDead. fold (playerHealth w).
    apply Qle_bool_iff in Hzero. rewrite Hzero. cbn [negb andb].
    split; reflexivity.
  - intros w now Hdead. rewrite Hdead. unfold checkPlayerDead, drainInterval.
    fold (playerDead w). rewrite Hdead, andb_false_r. split; reflexivity.
  - intros w ws Hrun Halive. exact (deathTransitions_alive ws w Hrun Halive).
Qed.

(** The scenario of the specification: health at 1, the drain fires, the
    next frame checks, the callback runs; further frames, ticks and stale
    callbacks change nothing. *)
Lemma lastBreathRun_is_run : lifeRun lastBreath lastBreathRun.
Proof.
  unfold lastBreathRun. cbv zeta.
  repeat (first [ apply lifeRun_nil | apply lifeRun_cons ]);
    first [ apply life_drain | apply life_check | apply life_timer ].
Qed.

Lemma drain_clamps_and_death_happens_once_witness :
  (playerHealth (drainInterval 1000 lastBreath) == 0)%Q
  /\ deathTransitions false lastBreathRun = 1%nat
  /\ List.map (fun w => List.length (timers w)) lastBreathRun
     = [0; 1; 1; 1; 1; 1]%nat.
Proof.
  destruct drain_clamps_and_death_happens_once as (_ & _ & _ & _ & Honce).
  split; [vm_compute; reflexivity|]. split.
  - apply (Honce lastBreath lastBreathRun lastBreathRun_is_run).
    + reflexivity.
    + vm_compute. reflexivity.
  - vm_compute. reflexivity.
Defined.

(** ** Stuck detection and escape *)












(** ** Spawner lifecycle *)

Ltac fields :=
  cbn [gameState gameProgress spawnerHealth spawnerActive spawnerLastUpdated
       lastGhostSpawnTimes lastGruntSpawnTimes lastEnemyPositions
       enemyLastAttackTimes timers console
       set_gameState set_gameProgress set_spawnerHealth set_spawnerActive
       set_spawnerLastUpdated set_lastGhostSpawnTimes set_lastGruntSpawnTimes
       set_lastEnemyPositions set_enemyLastAttackTimes set_timers set_console
       setTimeout setPlayer setEnemies setMap markSpawnerDestroyed recordStuck
       levelMap worldEnemies lastTimes
       GameState.level_map GameState.enemies GameState.player
       GameState.withMap GameState.withEnemies GameState.withPlayer
       fst snd] in *.

Lemma isSpawnerActive_spec m x y t now w :
  let '(b, w1) := isSpawnerActive m x y t now w in
  spawnerActive w1 !! getSpawnerKey x y = Some b
  /\ (forall b0, spawnerActive w !! getSpawnerKey x y = Some b0 ->
                 b = b0 /\ w1 = w)
  /\ (spawnerActive w !! getSpawnerKey x y = None -> b = tileIs m x y t)
  /\ (forall key, key <> getSpawnerKey x y ->
                  spawnerActive w1 !! key = spawnerActive w !! key)
  /\ levelMap w1 = levelMap w /\ spawnerHealth w1 = spawnerHealth w
  /\ lastGhostSpawnTimes w1 = lastGhostSpawnTimes w
  /\ lastGruntSpawnTimes w1 = lastGruntSpawnTimes w
  /\ console w1 = console w /\ timers w1 = timers w
  /\ worldEnemies w1 = worldEnemies w.
Proof.
  unfold isSpawnerActive.
  destruct (spawnerActive w !! getSpawnerKey x y) as [b0|] eqn:E; fields.
  - repeat split; auto; congruence.
  - repeat split; auto; try congruence.
    + apply lookup_insert_eq.
    + intros key Hne. apply lookup_insert_ne. congruence.
Qed.

(** The attempt of either kind, guard by guard. *)
Lemma spawnFromGenerator_outcome k m x y now id pos w :
  let w1 := snd (isSpawnerActive m x y (spawnerCode k) now w) in
  let key := getSpawnerKey x y in
  spawnFromGenerator k m x y now id pos w
  = match spawnOutcome k m x y now w with
    | Refused => markSpawnerDestroyed x y now w1
    | TooSoon => setTimeout (respawn k m x y) (spawnInterval k) w1
    | Spawned =>
        setTimeout (respawn k m x y) (spawnInterval k)
          (set_console (console w1 ++ [mkSpawnLine k key now])
             (setEnemies
                (worldEnemies w1 ++
                   [match k with
                    | GhostSpawn => newGhost id pos
                    | GruntSpawn => newGrunt id pos
                    end])
                (match k with
                 | GhostSpawn =>
                     set_lastGhostSpawnTimes
                       (<[key := now]> (lastGhostSpawnTimes w1)) w1
                 | GruntSpawn =>
                     set_lastGruntSpawnTimes
                       (<[key := now]> (lastGruntSpawnTimes w1)) w1
                 end)))
    end.
Proof.
  cbv zeta. unfold spawnOutcome.
  destruct k; cbn [spawnFromGenerator spawnerCode spawnInterval respawn lastTimes];
    [unfold spawnGhostFromGenerator | unfold spawnGruntFromGenerator];
    match goal with
    | |- context [isSpawnerActive ?m ?x ?y ?c ?n ?w] =>
        destruct (isSpawnerActive m x y c n w) as [active w1]
    end; cbn [snd];
    repeat match goal with
           | |- context [if ?b then _ else _] => destruct b
           end; reflexivity.
Qed.

Lemma tileAt_Some_range (m : Grid) (x y : Z) (c : ascii) :
  tileAt m x y = Some c ->
  0 <= x /\ 0 <= y /\
  exists row, m !! Z.to_nat y = Some row /\ row !! Z.to_nat x = Some c.
Proof.
  unfold tileAt. destruct (Z.ltb_spec x 0); [discriminate|].
  destruct (Z.ltb_spec y 0); [discriminate|]. cbn [orb].
  destruct (m !! Z.to_nat y) as [row|]; [|discriminate].
  intros Hrow. repeat split; try lia. now exists row.
Qed.



Lemma isSpawnerCode_Some (t : option ascii) :
  isSpawnerCode t = true ->
  exists c, t = Some c /\ (c = "B"%char \/ c = "G"%char).
Proof.
  destruct t as [c|]; [|discriminate]. cbn. intros H. exists c. split; [reflexivity|].
  apply orb_true_iff in H. destruct H as [H|H]; apply Ascii.eqb_eq in H; auto.
Qed.

Lemma handlePlayerAttackSpawner_outcome now w :
  handlePlayerAttackSpawner now w
  = match attackOutcome w with
    | NoSpawner => w
    | Damaged key h h' =>
        set_spawnerHealth (<[key := h']> (spawnerHealth w)) w
    | Destroyed key h code =>
        let w2 := markSpawnerDestroyed (fst key) (snd key) now
                    (set_spawnerHealth (<[key := 0]> (spawnerHealth w)) w) in
        setTimeout (VerifySpawner (levelMap w) (fst key) (snd key) code) 100
          (setMap (rewriteToFloor (levelMap w) (fst key) (snd key)) w2)
    end.
Proof.
  unfold handlePlayerAttackSpawner, attackOutcome, levelMap.
  destruct (facedTile (GameState.player (gameState w))) as [tileX tileY].
  cbv zeta. cbn [fst snd].
  destruct (tileAt (GameState.level_map (gameState w)) tileX tileY) as [c|];
    [|reflexivity].
  destruct (isSpawnerCode (Some c)); [|reflexivity].
  unfold getSpawnerKey.
  destruct (spawnerHealth w !! (tileX, tileY)) as [h|]; [|reflexivity].
  destruct (0 <? h); [|reflexivity].
  destruct (Z.leb_spec (Z.max 0 (h - spawnerDamage (gameProgress w))) 0) as [Hle|Hgt];
    [|reflexivity].
  replace (Z.max 0 (h - spawnerDamage (gameProgress w))) with 0 by lia.
  reflexivity.
Qed.



Lemma sameSpawners_refl w : sameSpawners w w.
Proof. split; reflexivity. Qed.

Lemma spawner_step_parts w w' :
  spawner_step w w' -> rtc spawner_part w w'.
Proof.
  intros [now w0|k m x y now id pos w0|cb now id pos w0|w0 w0' Hsame].
  - apply rtc_once. constructor.
  - apply rtc_once. constructor.
  - destruct cb as [m x y|m x y|m x y t|enemyId| |]; cbn [runCallback].
    + unfold respawnGhost.
      pose proof (part_probe m x y "B" now w0) as Hprobe.
      destruct (isSpawnerActive m x y "B" now w0) as [active w1]. cbn [snd] in *.
      destruct active; [|now apply rtc_once].
      eapply rtc_l; [exact Hprobe|]. apply rtc_once.
      apply (part_attempt GhostSpawn).
    + unfold respawnGrunt.
      pose proof (part_probe m x y "G" now w0) as Hprobe.
      destruct (isSpawnerActive m x y "G" now w0) as [active w1]. cbn [snd] in *.
      destruct active; [|now apply rtc_once].
      eapply rtc_l; [exact Hprobe|]. apply rtc_once.
      apply (part_attempt GruntSpawn).
    + apply rtc_once. constructor.
    + apply rtc_once. apply part_other. unfold clearRandomDirection.
      destruct (lastEnemyPositions w0 !! enemyId); split; reflexivity.
    + apply rtc_once. apply part_other. split; reflexivity.
    + apply rtc_once. apply part_other. split; reflexivity.
  - apply rtc_once. now apply part_other.
Qed.


(** Frame of a probe and of an attempt. *)
Lemma probe_frame m x y t now w :
  let w1 := snd (isSpawnerActive m x y t now w) in
  levelMap w1 = levelMap w /\ spawnerHealth w1 = spawnerHealth w
  /\ lastGhostSpawnTimes w1 = lastGhostSpawnTimes w
  /\ lastGruntSpawnTimes w1 = lastGruntSpawnTimes w
  /\ console w1 = console w /\ timers w1 = timers w
  /\ worldEnemies w1 = worldEnemies w
  /\ (forall key, key <> getSpawnerKey x y ->
        spawnerActive w1 !! key = spawnerActive w !! key)
  /\ (forall b, spawnerActive w !! getSpawnerKey x y = Some b -> w1 = w).
Proof.
  cbv zeta. pose proof (isSpawnerActive_spec m x y t now w) as H.
  destruct (isSpawnerActive m x y t now w) as [b w1]. cbn [snd].
  destruct H as (_ & H2 & _ & H4 & H5 & H6 & H7 & H8 & H9 & H10 & H11).
  repeat split; auto. intros b0 Hb0. now destruct (H2 b0 Hb0).
Qed.



Lemma world_eta w :
  mkWorld (gameState w) (gameProgress w) (spawnerHealth w) (spawnerActive w)
    (spawnerLastUpdated w) (lastGhostSpawnTimes w) (lastGruntSpawnTimes w)
    (lastEnemyPositions w) (enemyLastAttackTimes w) (timers w) (console w) = w.
Proof. destruct w; reflexivity. Qed.








(** The reload of the health table gives no entry to a cell that holds no
    spawner code. *)
Lemma scanRow_other (y : Z) (row : list ascii) :
  forall (x : nat) (acc : gmap (Z * Z) Z) (key : Z * Z),
    (forall (i : nat) c, row !! i = Some c -> key = (Z.of_nat (x + i), y) ->
                 isSpawnerCode (Some c) = false) ->
    scanRow x y row acc !! key = acc !! key.
Proof.
  induction row as [|t rest IH]; intros x acc key Hno; [reflexivity|].
  cbn [scanRow]. rewrite IH.
  - destruct (decide (key = (Z.of_nat x, y))) as [->|Hne].
    + specialize (Hno 0%nat t eq_refl). rewrite Nat.add_0_r in Hno.
      specialize (Hno eq_refl). cbn in Hno. apply orb_false_iff in Hno.
      destruct Hno as [-> ->]. reflexivity.
    + unfold getSpawnerKey.
      destruct (Ascii.eqb t "B"); [now rewrite lookup_insert_ne|].
      destruct (Ascii.eqb t "G"); [now rewrite lookup_insert_ne|reflexivity].
  - intros i c Hi Hk. apply (Hno (S i) c Hi).
    rewrite Hk. f_equal. lia.
Qed.

Lemma scanRows_other (rows : Grid) :
  forall (y : nat) (acc : gmap (Z * Z) Z) (key : Z * Z),
    (forall (j : nat) row (i : nat) c,
        rows !! j = Some row -> row !! i = Some c ->
        key = (Z.of_nat i, Z.of_nat (y + j)) -> isSpawnerCode (Some c) = false) ->
    scanRows y rows acc !! key = acc !! key.
Proof.
  induction rows as [|row rest IH]; intros y acc key Hno; [reflexivity|].
  cbn [scanRows]. rewrite IH.
  - apply scanRow_other. intros i c Hi Hk.
    apply (Hno 0%nat row i c eq_refl Hi). rewrite Hk. do 2 f_equal. lia.
  - intros j row' i c Hj Hi Hk. apply (Hno (S j) row' i c Hj Hi).
    rewrite Hk. do 2 f_equal. lia.
Qed.

Lemma reload_no_spawner w key :
  isSpawnerCode (tileAt (levelMap w) (fst key) (snd key)) = false ->
  spawnerHealth (reloadSpawnerHealth w) !! key = None.
Proof.
  intros Hno. unfold reloadSpawnerHealth. fields.
  rewrite scanRows_other; [apply lookup_empty|].
  intros j row i c Hj Hi ->. cbn [fst snd] in Hno.
  unfold tileAt, levelMap in Hno.
  destruct (Z.ltb_spec (Z.of_nat i) 0); [lia|].
  destruct (Z.ltb_spec (Z.of_nat (0 + j)) 0); [lia|]. cbn [orb] in Hno.
  rewrite !Nat2Z.id in Hno. cbn [Nat.add] in Hno. rewrite Hj, Hi in Hno.
  exact Hno.
Qed.




(** Destroying one spawner rewrites the grid, and the reload that follows
    refills the health of the spawners that are left. *)
Example reload_refills_the_other_spawner :
  let w0 :=
    mkWorld
      (GameState.mk (Player.mk (Vector2.mk 32 32) east 100 100 false idle 0 None)
         [] twoPiles)
      (GameProgress.mk 0 false None false 0)
      {[ (2, 1) := 6; (3, 2) := 13 ]} {[ (2, 1) := true; (3, 2) := true ]}
      ∅ ∅ ∅ ∅ ∅ [] [] in
  let w1 := handlePlayerAttackSpawner 4000 w0 in
  let w2 := reloadSpawnerHealth w1 in
  List.map (fun w => (spawnerHealth w !! (2, 1), spawnerHealth w !! (3, 2)))
    [w0; w1; w2]
  = [(Some 6, Some 13); (Some 0, Some 13); (None, Some 20)].
Proof. vm_compute. reflexivity. Qed.






(** Three hits of 7 take a full spawner from 20 to 13, 6 and 0; the third
    rewrites the cell and a fourth finds no spawner. *)
Example three_hits_destroy_a_full_spawner :
  let w0 :=
    set_spawnerHealth {[ (2, 1) := initialSpawnerHealth ]} bonePileWorld in
  let w1 := handlePlayerAttackSpawner 1 w0 in
  let w2 := handlePlayerAttackSpawner 2 w1 in
  let w3 := handlePlayerAttackSpawner 3 w2 in
  let w4 := handlePlayerAttackSpawner 4 w3 in
  List.map (fun w => spawnerHealth w !! (2, 1)) [w0; w1; w2; w3; w4]
  = [Some 20; Some 13; Some 6; Some 0; Some 0]
  /\ List.map (fun w => tileAt (levelMap w) 2 1) [w2; w3]
     = [Some "B"%char; Some "."%char]
  /\ spawnerActive w3 !! (2, 1) = Some false.
Proof. vm_compute. repeat split; reflexivity. Qed.

(** *** Spacing of the spawns *)

Lemma spawnOutcome_spec k m x y now w :
  let b := fst (isSpawnerActive m x y (spawnerCode k) now w) in
  let w1 := snd (isSpawnerActive m x y (spawnerCode k) now w) in
  match spawnOutcome k m x y now w with
  | Refused => b = false \/ tileIs m x y (spawnerCode k) = false
  | TooSoon =>
      b = true /\ tileIs m x y (spawnerCode k) = true
      /\ now - lastSpawnOr0 (lastTimes k w1) (getSpawnerKey x y) < spawnInterval k
  | Spawned =>
      b = true /\ tileIs m x y (spawnerCode k) = true
      /\ spawnInterval k
         <= now - lastSpawnOr0 (lastTimes k w1) (getSpawnerKey x y)
  end.
Proof.
  cbv zeta. unfold spawnOutcome.
  destruct (isSpawnerActive m x y (spawnerCode k) now w) as [b w1]. cbn [fst snd].
  destruct b; cbn [negb]; [|now left].
  destruct (tileIs m x y (spawnerCode k)); cbn [negb]; [|now right].
  destruct (Z.ltb_spec
              (now - lastSpawnOr0 (lastTimes k w1) (getSpawnerKey x y))
              (spawnInterval k)); auto.
Qed.

Lemma spawnInterval_pos k : 0 < spawnInterval k.
Proof. destruct k; reflexivity. Qed.

Lemma tracked_probe m x y t now w :
  tracked w -> tracked (snd (isSpawnerActive m x y t now w)).
Proof.
  intros Ht a Ha.
  destruct (probe_frame m x y t now w)
    as (_ & _ & Hg & Hr & Hc & _ & _ & Hact & Hsame).
  rewrite Hc in Ha. destruct (Ht a Ha) as [Hoff|(tl & Htl & Hle)].
  - left. destruct (decide (line_key a = getSpawnerKey x y)) as [E|Hne].
    + rewrite E in Hoff. rewrite (Hsame false Hoff). now rewrite E.
    + now rewrite (Hact _ Hne).
  - right. exists tl. split; [|exact Hle].
    destruct (line_kind a); cbn [lastTimes] in *; congruence.
Qed.

Lemma tracked_marked x y now w :
  tracked w -> tracked (markSpawnerDestroyed x y now w).
Proof.
  intros Ht a Ha. change (console (markSpawnerDestroyed x y now w))
    with (console w) in Ha.
  destruct (decide (line_key a = getSpawnerKey x y)) as [E|Hne].
  - left. rewrite E. unfold markSpawnerDestroyed. fields.
    apply lookup_insert_eq.
  - destruct (Ht a Ha) as [Hoff|(tl & Htl & Hle)].
    + left. unfold markSpawnerDestroyed. fields.
      now rewrite lookup_insert_ne.
    + right. exists tl. split; [|exact Hle].
      unfold markSpawnerDestroyed.
      destruct (line_kind a); fields; now rewrite lookup_delete_ne.
Qed.

Lemma tracked_ext w w' :
  spawnerActive w' = spawnerActive w ->
  lastGhostSpawnTimes w' = lastGhostSpawnTimes w ->
  lastGruntSpawnTimes w' = lastGruntSpawnTimes w ->
  console w' = console w ->
  tracked w -> tracked w'.
Proof.
  intros Ha Hg Hr Hc Ht a Hin. rewrite Hc in Hin.
  destruct (Ht a Hin) as [Hoff|(tl & Htl & Hle)].
  - left. now rewrite Ha.
  - right. exists tl. split; [|exact Hle].
    destruct (line_kind a); cbn [lastTimes] in *; congruence.
Qed.

Lemma spaced_snoc log a :
  spaced log ->
  (forall b, b ∈ log -> line_kind b = line_kind a -> line_key b = line_key a ->
             spawnInterval (line_kind b) <= line_time a - line_time b) ->
  spaced (log ++ [a]).
Proof.
  intros Hs Hnew i j p q Hij Hp Hq Hk Hkey.
  apply lookup_snoc_Some in Hq. destruct Hq as [[Hj Hq]|[Hj <-]].
  - rewrite lookup_app_l in Hp by lia. exact (Hs i j p q Hij Hp Hq Hk Hkey).
  - rewrite lookup_app_l in Hp by lia.
    exact (Hnew p (list_elem_of_lookup_2 _ _ _ Hp) Hk Hkey).
Qed.

(** The spawner data invariant, kept by every part of a step. *)
Lemma spacing_part w w' :
  spawner_part w w' ->
  spaced (console w) /\ tracked w -> spaced (console w') /\ tracked w'.
Proof.
  intros Hstep [Hs Ht].
  destruct Hstep as [now w|k m x y now id pos w|m x y t now w|w w' Hsame].
  - rewrite handlePlayerAttackSpawner_outcome.
    destruct (attackOutcome w) as [|key h h'|key h code]; [auto| |].
    + split; [exact Hs|]. apply (tracked_ext w); auto.
    + cbv zeta. split; [exact Hs|].
      apply (tracked_ext
               (markSpawnerDestroyed (fst key) (snd key) now
                  (set_spawnerHealth (<[key:=0]> (spawnerHealth w)) w)));
        try reflexivity.
      apply tracked_marked.
      apply (tracked_ext w); auto.
  - rewrite spawnFromGenerator_outcome. cbv zeta.
    pose proof (spawnOutcome_spec k m x y now w) as Hspec. cbv zeta in Hspec.
    pose proof (tracked_probe m x y (spawnerCode k) now w Ht) as Ht1.
    pose proof (isSpawnerActive_spec m x y (spawnerCode k) now w) as Hprobe.
    destruct (isSpawnerActive m x y (spawnerCode k) now w) as [b w1].
    cbn [fst snd] in *.
    destruct Hprobe as (Hb & _ & _ & _ & _ & _ & _ & _ & Hc & _).
    rewrite <- Hc in Hs.
    destruct (spawnOutcome k m x y now w).
    + split; [exact Hs|]. now apply tracked_marked.
    + split; [exact Hs|]. apply (tracked_ext w1); auto.
    + destruct Hspec as (-> & _ & Hlate).
      assert (Hold : forall a, a ∈ console w1 ->
                line_kind a = k -> line_key a = getSpawnerKey x y ->
                line_time a <= now - spawnInterval k).
      { intros a Ha Hk Hkey. destruct (Ht1 a Ha) as [Hoff|(tl & Htl & Hle)].
        - rewrite Hkey in Hoff. congruence.
        - rewrite Hk, Hkey in Htl. unfold lastSpawnOr0 in Hlate.
          rewrite Htl in Hlate. cbn in Hlate. lia. }
      pose proof (spawnInterval_pos k) as Hpos.
      split.
      * destruct k; fields; apply spaced_snoc; try exact Hs;
          intros a Ha Hk Hkey; cbn [line_kind line_key line_time] in *;
          rewrite Hk; specialize (Hold a Ha Hk Hkey); lia.
      * intros a Ha.
        assert (Hcase : a ∈ console w1 \/ a = mkSpawnLine k (getSpawnerKey x y) now).
        { destruct k; fields; apply elem_of_app in Ha;
            destruct Ha as [Ha|Ha]; auto; apply list_elem_of_singleton in Ha; auto. }
        destruct Hcase as [Hin| ->].
        -- destruct (decide (line_kind a = k /\ line_key a = getSpawnerKey x y))
             as [[Hk Hkey]|Hne].
           ++ right. exists now. specialize (Hold a Hin Hk Hkey).
              split; [|lia]. rewrite Hk, Hkey.
              destruct k; fields; apply lookup_insert_eq.
           ++ destruct (Ht1 a Hin) as [Hoff|(tl & Htl & Hle)].
              ** left. destruct k; fields; exact Hoff.
              ** right. exists tl. split; [|exact Hle].
                 destruct k; destruct (line_kind a) eqn:Ek; fields;
                   try exact Htl;
                   (apply not_and_l in Hne; destruct Hne as [Hne|Hne];
                    [congruence | now rewrite lookup_insert_ne]).
        -- right. exists now. cbn [line_kind line_key line_time].
           split; [|lia]. destruct k; fields; apply lookup_insert_eq.
  - destruct (probe_frame m x y t now w) as (_ & _ & _ & _ & Hc & _).
    rewrite Hc. split; [exact Hs|]. now apply tracked_probe.
  - split; [now rewrite (same_console _ _ Hsame)|].
    destruct Hsame as [_ _ Ha Hg Hr Hc]. exact (tracked_ext _ _ Ha Hg Hr Hc Ht).
Qed.

Lemma spaced_nil : spaced [].
Proof. intros i j a b _ Ha. rewrite lookup_nil in Ha. discriminate. Qed.

Lemma tracked_no_lines w : console w = [] -> tracked w.
Proof. intros E a Ha. rewrite E in Ha. now apply not_elem_of_nil in Ha. Qed.

Lemma spacing_parts w w' :
  rtc spawner_part w w' ->
  spaced (console w) /\ tracked w -> spaced (console w') /\ tracked w'.
Proof.
  induction 1 as [|w w1 w' Hstep _ IH]; [auto|].
  intros H. apply IH. exact (spacing_part _ _ Hstep H).
Qed.

Lemma spacing_run w w' :
  rtc session_step w w' ->
  spaced (console w) /\ tracked w -> spaced (console w') /\ tracked w'.
Proof.
  induction 1 as [|w w1 w' Hstep _ IH]; [auto|].
  intros H. apply IH. destruct Hstep as [w w1 Hstep|w].
  - exact (spacing_parts _ _ (spawner_step_parts _ _ Hstep) H).
  - destruct H as [Hs Ht]. split; [exact Hs|].
    apply (tracked_ext w); auto.
Qed.

(** C3. Along any run of the session that starts with no enemy spawned
    yet, two enemies that come out of one spawner cell are at least its
    interval apart in time (2500 ms for ghosts, 4000 ms for grunts), the
    time being that of the spawner's own last spawn. Every attempt looks first at the
    tracker flag and then at the grid cell: when the flag is off or the cell
    does not hold the code of the spawner, no enemy is added, no timer is
    set, grid and health stay as they are and the tracker has the cell
    switched off; an attempt that adds an enemy has found the flag on, the
    code in the cell and the interval elapsed since the last spawn of that
    cell. *)
Theorem spawns_keep_their_interval :
  (spawnFromGenerator GhostSpawn = spawnGhostFromGenerator
   /\ spawnFromGenerator GruntSpawn = spawnGruntFromGenerator
   /\ spawnInterval GhostSpawn = 2500 /\ spawnInterval GruntSpawn = 4000
   /\ spawnerCode GhostSpawn = "B"%char /\ spawnerCode GruntSpawn = "G"%char)
  /\ (forall w w', console w = [] -> rtc session_step w w' ->
        spaced (console w'))
  /\ (forall k m x y now id pos w,
        let b := fst (isSpawnerActive m x y (spawnerCode k) now w) in
        let w' := spawnFromGenerator k m x y now id pos w in
        ((b = false \/ tileIs m x y (spawnerCode k) = false) ->
           worldEnemies w' = worldEnemies w /\ console w' = console w
           /\ timers w' = timers w /\ levelMap w' = levelMap w
           /\ spawnerHealth w' = spawnerHealth w
           /\ spawnerActive w' !! getSpawnerKey x y = Some false)
        /\ (worldEnemies w' <> worldEnemies w ->
            b = true /\ tileIs m x y (spawnerCode k) = true
            /\ spawnInterval k
               <= now - lastSpawnOr0 (lastTimes k w) (getSpawnerKey x y)
            /\ console w'
               = console w ++ [mkSpawnLine k (getSpawnerKey x y) now])).
Proof.
  split; [repeat split|]. split.
  - intros w w' Hempty Hrun.
    apply (spacing_run w w' Hrun). split.
    + rewrite Hempty. apply spaced_nil.
    + now apply tracked_no_lines.
  - intros k m x y now id pos w. cbv zeta.
    rewrite spawnFromGenerator_outcome. cbv zeta.
    pose proof (spawnOutcome_spec k m x y now w) as Hspec. cbv zeta in Hspec.
    destruct (probe_frame m x y (spawnerCode k) now w)
      as (Hm & Hh & Hg & Hr & Hc & Ht & He & _ & _).
    set (b := fst (isSpawnerActive m x y (spawnerCode k) now w)) in *.
    set (w1 := snd (isSpawnerActive m x y (spawnerCode k) now w)) in *.
    assert (Hlast : lastTimes k w1 = lastTimes k w) by (destruct k; assumption).
    destruct (spawnOutcome k m x y now w).
    + split.
      * intros _. unfold markSpawnerDestroyed. fields.
        repeat split; auto. apply lookup_insert_eq.
      * intros Hchanged. exfalso. apply Hchanged.
        unfold markSpawnerDestroyed. fields. exact He.
    + split.
      * intros [Hb|Htile]; destruct Hspec as (Hb' & Htile' & _); congruence.
      * intros Hchanged. exfalso. apply Hchanged. fields. exact He.
    + destruct Hspec as (Hb' & Htile' & Hlate). split.
      * intros [Hb|Htile]; congruence.
      * intros _. rewrite Hlast in Hlate.
        repeat split; auto. destruct k; fields; now rewrite Hc.
Qed.

(** A ghost spawner at (2, 1): the first attempt at 10 s spawns, an attempt
    two seconds later is put off, the attempt at 12.5 s spawns again. *)
Lemma spawns_keep_their_interval_witness :
  spaced (console threeAttempts)
  /\ console threeAttempts
     = [mkSpawnLine GhostSpawn (2, 1) 10000; mkSpawnLine GhostSpawn (2, 1) 12500]
  /\ List.map EnemyConfig.id (worldEnemies threeAttempts)
     = ["ghost_a"; "ghost_c"]%string.
Proof.
  destruct spawns_keep_their_interval as (_ & Hspaced & _).
  split; [|split; vm_compute; reflexivity].
  apply (Hspaced freshBonePile threeAttempts eq_refl).
  unfold threeAttempts.
  eapply rtc_l; [apply session_spawner;
                 apply (spawner_attempt GhostSpawn bonePileRoom 2 1 10000
                          "ghost_a" (Vector2.mk 48 48))|].
  eapply rtc_l; [apply session_spawner;
                 apply (spawner_attempt GhostSpawn bonePileRoom 2 1 12000
                          "ghost_b" (Vector2.mk 48 48))|].
  apply rtc_once. apply session_spawner.
  apply (spawner_attempt GhostSpawn bonePileRoom 2 1 12500
           "ghost_c" (Vector2.mk 48 48)).
Defined.

(** ** The paths found by the pathfinder *)

Lemma lowestF_In (rest : list PathNode.t) :
  forall i currentNode currentIndex node index,
    EnemyAI.lowestF rest i currentNode currentIndex = (node, index) ->
    node = currentNode \/ In node rest.
Proof.
  induction rest as [|n rest IH]; intros i cur idx node index H; simpl in H.
  - left. congruence.
  - destruct (PathNode.f n <? PathNode.f cur).
    + destruct (IH _ _ _ _ _ H) as [->|Hin]; [right; now left | right; now right].
    + destruct (IH _ _ _ _ _ H) as [->|Hin]; [now left | right; now right].
Qed.

Lemma splice1_Forall (P : PathNode.t -> Prop) (l : list PathNode.t) :
  forall i, Forall P l -> Forall P (EnemyAI.splice1 l i).
Proof.
  induction l as [|a l IH]; intros i H; [constructor|].
  inversion H; subst. destruct i; simpl; [assumption|].
  constructor; auto.
Qed.

Lemma relax_Forall (P : PathNode.t -> Prop) nx ny gCost fCost currentNode :
  forall openList,
    Forall P openList ->
    (forall n, EnemyAI.sameCell nx ny n = true ->
               P (PathNode.mk (PathNode.x n) (PathNode.y n) fCost gCost
                    (PathNode.h n) (Some currentNode))) ->
    Forall P (EnemyAI.relax openList nx ny gCost fCost currentNode).
Proof.
  induction openList as [|n rest IH]; intros H Hnew; [constructor|].
  inversion H; subst. simpl.
  destruct (EnemyAI.sameCell nx ny n) eqn:E.
  - constructor; [|assumption].
    destruct (gCost <? PathNode.g n); [now apply Hnew | assumption].
  - constructor; [assumption | now apply IH].
Qed.

Lemma outOfBounds_inside (map : Grid) (x y : Z) :
  outOfBounds map x y = Some false -> outsideGrid map (x, y) = false.
Proof.
  intros H. destruct map as [|row rows].
  - unfold outOfBounds in H. destruct (x <? 0); discriminate.
  - rewrite outOfBounds_outside in H by discriminate. congruence.
Qed.

Section FoundPaths.

Variables (map : Grid) (enemyType : option EnemyType) (startNode : PathNode.t).

Notation kept := (openNode map enemyType startNode).

Lemma kept_mono k node : kept k node -> kept (S k) node.
Proof. intros [H1 H2]. split; [assumption | lia]. Qed.

Lemma visitNeighbor_kept endX endY closedList currentNode openList nx ny k
    openList' :
  kept k currentNode ->
  adjacent (nodeCell currentNode) (nx, ny) ->
  Forall (kept (S k)) openList ->
  EnemyAI.visitNeighbor map enemyType endX endY closedList currentNode
    openList nx ny = Some openList' ->
  Forall (kept (S k)) openList'.
Proof.
  intros [Hcur Hg] Hadj Hopen H. unfold EnemyAI.visitNeighbor in H.
  destruct (outOfBounds map nx ny) as [[|]|] eqn:Eb; [congruence| |discriminate].
  destruct (notGhost enemyType && tileIs map nx ny "#") eqn:Ew; [congruence|].
  destruct (existsb (EnemyAI.sameCell nx ny) closedList); [congruence|].
  assert (Hent : enterable map enemyType (nx, ny)).
  { split; [now apply outOfBounds_inside|].
    intros Hng. rewrite Hng in Ew. exact Ew. }
  cbv zeta in H.
  destruct (existsb (EnemyAI.sameCell nx ny) openList).
  - injection H as <-. apply relax_Forall; [assumption|].
    intros n En. unfold EnemyAI.sameCell in En.
    apply andb_true_iff in En. destruct En as [Ex Ey].
    apply Z.eqb_eq in Ex, Ey. rewrite Ex, Ey. split.
    + now apply linked_child.
    + cbn [PathNode.g]. lia.
  - injection H as <-. apply Forall_app. split; [assumption|].
    constructor; [|constructor]. split.
    + now apply linked_child.
    + cbn [PathNode.g]. lia.
Qed.

Lemma visitNeighbors_kept endX endY closedList currentNode k :
  kept k currentNode ->
  forall ns openList openList',
    Forall (fun c => adjacent (nodeCell currentNode) c) ns ->
    Forall (kept (S k)) openList ->
    EnemyAI.visitNeighbors map enemyType endX endY closedList currentNode
      openList ns = Some openList' ->
    Forall (kept (S k)) openList'.
Proof.
  intros Hcur. induction ns as [|[nx ny] ns IH]; intros openList openList'
    Hadj Hopen H; simpl in H.
  - congruence.
  - inversion Hadj; subst.
    destruct (EnemyAI.visitNeighbor map enemyType endX endY closedList
                currentNode openList nx ny) as [openList1|] eqn:E;
      [|discriminate].
    apply (IH openList1 openList'); [assumption| |assumption].
    eapply visitNeighbor_kept; eauto.
Qed.

Lemma neighbors_adjacent (currentNode : PathNode.t) :
  Forall (fun c => adjacent (nodeCell currentNode) c)
    (EnemyAI.neighbors currentNode).
Proof.
  unfold EnemyAI.neighbors, adjacent, manhattan, nodeCell.
  repeat constructor; cbn [fst snd]; lia.
Qed.

Lemma search_kept (budget : nat) :
  forall endX endY openList closedList k goal n,
    Forall (kept k) openList ->
    EnemyAI.search budget map enemyType endX endY openList closedList k
    = EnemyAI.Reached goal n ->
    linked map enemyType startNode goal
    /\ EnemyAI.sameCell endX endY goal = true
    /\ PathNode.g goal + 10 <= 10 * Z.of_nat n
    /\ (n <= k + budget)%nat.
Proof.
  induction budget as [|budget IH]; intros endX endY openList closedList k
    goal n Hopen H; cbn [EnemyAI.search] in H.
  - destruct openList; discriminate.
  - destruct openList as [|first rest]; [discriminate|].
    destruct (EnemyAI.lowestF rest 1 first 0) as [currentNode currentIndex]
      eqn:Elow.
    assert (Hcur : kept k currentNode).
    { rewrite List.Forall_forall in Hopen. apply Hopen.
      destruct (lowestF_In _ _ _ _ _ _ Elow) as [->|Hin];
        [now left | now right]. }
    destruct (EnemyAI.sameCell endX endY currentNode) eqn:Egoal.
    + injection H as <- <-. destruct Hcur as [H1 H2].
      repeat split; [assumption | assumption | lia | lia].
    + destruct (EnemyAI.visitNeighbors map enemyType endX endY _ currentNode
                  _ _) as [openList2|] eqn:Evisit; [|discriminate].
      assert (Hopen2 : Forall (kept (S k)) openList2).
      { eapply visitNeighbors_kept; [exact Hcur | apply neighbors_adjacent
                                     | | exact Evisit].
        apply splice1_Forall.
        eapply Forall_impl; [exact Hopen | apply kept_mono]. }
      destruct (IH _ _ _ _ _ _ _ Hopen2 H) as (I1 & I2 & I3 & I4).
      repeat split; [assumption | assumption | assumption | lia].
Qed.

End FoundPaths.

Lemma List_last_default {A : Type} (l : list A) (d d' : A) :
  l <> [] -> List.last l d = List.last l d'.
Proof.
  induction l as [|a l IH]; [congruence|]. intros _.
  destruct l as [|b l]; [reflexivity|]. apply IH. discriminate.
Qed.


Lemma stepwise_snoc (cells : list (Z * Z)) :
  forall from c,
    stepwise from cells ->
    adjacent (List.last cells from) c ->
    stepwise from (cells ++ [c]).
Proof.
  induction cells as [|a cells IH]; intros from c Hw Hadj.
  - simpl. split; [exact Hadj | exact I].
  - destruct Hw as [H1 H2]. split; [exact H1|].
    apply IH; [exact H2|]. now rewrite last_cons_shift in Hadj.
Qed.

Lemma last_snoc_default {A : Type} (l : list A) (a d : A) :
  List.last (l ++ [a]) d = a.
Proof.
  induction l as [|b l IH]; [reflexivity|].
  change ((b :: l) ++ [a]) with (b :: (l ++ [a])).
  rewrite last_cons_shift. rewrite <- (IH) at 2. apply List_last_default.
  destruct l; discriminate.
Qed.

Lemma linked_chain (this : EnemyAI.t) (map : Grid)
    (enemyType : option EnemyType) (startNode node : PathNode.t) :
  PathNode.parent startNode = None ->
  linked map enemyType startNode node ->
  exists cells,
    EnemyAI.reconstruct this node
    = List.map (centreOf this) (nodeCell startNode :: cells)
    /\ stepwise (nodeCell startNode) cells
    /\ Forall (enterable map enemyType) cells
    /\ List.last cells (nodeCell startNode) = nodeCell node
    /\ PathNode.g node = PathNode.g startNode + 10 * Z.of_nat (length cells).
Proof.
  intros Hroot H. induction H as [|p x y f g h Hp IH Hadj Hent Hg].
  - exists []. destruct startNode as [sx sy sf sg sh sp].
    cbn [PathNode.parent] in Hroot. subst sp.
    repeat split; try reflexivity; [constructor | cbn; lia].
  - destruct IH as (cells & I1 & I2 & I3 & I4 & I5).
    exists (cells ++ [(x, y)]).
    split; [|split; [|split; [|split]]].
    + cbn [EnemyAI.reconstruct]. rewrite I1.
      change (nodeCell startNode :: cells ++ [(x, y)])
        with ((nodeCell startNode :: cells) ++ [(x, y)]).
      rewrite List.map_app. reflexivity.
    + apply stepwise_snoc; [exact I2|]. rewrite I4. exact Hadj.
    + apply Forall_app. split; [exact I3|]. constructor; [exact Hent|constructor].
    + apply last_snoc_default.
    + cbn [PathNode.g]. rewrite Hg, I5, length_app. cbn [length]. lia.
Qed.

Lemma stepwise_manhattan (cells : list (Z * Z)) :
  forall from,
    stepwise from cells ->
    manhattan from (List.last cells from) <= Z.of_nat (length cells).
Proof.
  induction cells as [|c cells IH]; intros from H.
  - unfold manhattan. simpl. lia.
  - destruct H as [H1 H2]. specialize (IH c H2).
    rewrite last_cons_shift.
    unfold adjacent, manhattan in *. cbn [length]. lia.
Qed.

(** ** Tiles of pixel positions *)

Lemma floor_div_bounds (a t : Q) :
  (0 < t)%Q ->
  (inject_Z (Math_floor (a / t)) * t <= a)%Q /\
  (a < (inject_Z (Math_floor (a / t)) + 1) * t)%Q.
Proof.
  intros Ht. unfold Math_floor.
  pose proof (Qfloor_le (a / t)) as H1.
  pose proof (Qlt_floor (a / t)) as H2.
  rewrite inject_Z_plus in H2.
  assert (Ha : (a == a / t * t)%Q).
  { field. intros E. rewrite E in Ht. exact (Qlt_irrefl _ Ht). }
  split.
  - rewrite Ha at 2. apply Qmult_le_compat_r; [exact H1 | now apply Qlt_le_weak].
  - rewrite Ha at 1. apply Qmult_lt_compat_r; [exact Ht | exact H2].
Qed.

Lemma same_tile_close (a b t : Q) :
  (0 < t)%Q -> Math_floor (a / t) = Math_floor (b / t) ->
  ((a - b) * (a - b) < t * t)%Q.
Proof.
  intros Ht E.
  destruct (floor_div_bounds a t Ht) as [A1 A2].
  destruct (floor_div_bounds b t Ht) as [B1 B2].
  rewrite E in A1, A2.
  set (k := inject_Z (Math_floor (b / t))) in *.
  nra.
Qed.

Lemma same_cell_short_circuit (this : EnemyAI.t) (a b : Vector2.t) :
  (0 < EnemyAI.tileSize this)%Q ->
  cellOf this a = cellOf this b ->
  EnemyAI.calculateDistance_ltb a b (EnemyAI.tileSize this * 3)%Q = true.
Proof.
  intros Ht E. unfold cellOf in E. injection E as Ex Ey.
  pose proof (same_tile_close _ _ _ Ht Ex) as Hx.
  pose proof (same_tile_close _ _ _ Ht Ey) as Hy.
  unfold EnemyAI.calculateDistance_ltb. apply dist_ltb_lt. unfold sumSq.
  split; nra.
Qed.

Lemma found_cells (this : EnemyAI.t) (start end_ : Vector2.t) (map : Grid)
    (enemyType : option EnemyType) (goal : PathNode.t) (n : nat) :
  EnemyAI.runSearch this start end_ map enemyType = EnemyAI.Reached goal n ->
  exists cells,
    EnemyAI.reconstruct this goal
    = List.map (centreOf this) (cellOf this start :: cells)
    /\ stepwise (cellOf this start) cells
    /\ Forall (enterable map enemyType) cells
    /\ List.last cells (cellOf this start) = cellOf this end_
    /\ (length cells <= 99)%nat.
Proof.
  intros H. unfold EnemyAI.runSearch in H. cbv zeta in H.
  apply (search_kept map enemyType (EnemyAI.startNodeOf this start)) in H.
  - destruct H as (Hl & Hgoal & Hg & Hn).
    destruct (linked_chain this map enemyType
                (EnemyAI.startNodeOf this start) goal eq_refl Hl)
      as (cells & I1 & I2 & I3 & I4 & I5).
    exists cells. change (nodeCell (EnemyAI.startNodeOf this start))
      with (cellOf this start) in *.
    split; [exact I1|]. split; [exact I2|]. split; [exact I3|]. split.
    + rewrite I4. unfold EnemyAI.sameCell in Hgoal.
      apply andb_true_iff in Hgoal. destruct Hgoal as [Ex Ey].
      apply Z.eqb_eq in Ex, Ey. unfold nodeCell, cellOf. now rewrite Ex, Ey.
    + cbn [EnemyAI.startNodeOf PathNode.g] in I5.
      unfold EnemyAI.maxIterations in Hn. lia.
  - constructor; [|constructor]. split; [constructor | cbn; lia].
Qed.

Lemma foundBySearch_path (this : EnemyAI.t) (start end_ : Vector2.t)
    (map : Grid) (enemyType : option EnemyType) :
  foundBySearch this start end_ map enemyType = true ->
  exists goal n,
    EnemyAI.runSearch this start end_ map enemyType = EnemyAI.Reached goal n
    /\ EnemyAI.findPath this start end_ map enemyType
       = Some (tail (EnemyAI.reconstruct this goal)).
Proof.
  unfold foundBySearch, EnemyAI.findPath, EnemyAI.findPath_counted.
  intros H. apply andb_true_iff in H. destruct H as [H1 H2].
  apply negb_true_iff in H1. rewrite H1.
  destruct (EnemyAI.runSearch this start end_ map enemyType)
    as [goal n| |]; try discriminate.
  exists goal, n. split; reflexivity.
Qed.

(** X1. A path that the search finds is a walk on the grid: its way points
    are the centres of tiles that follow one another by single steps left,
    right, up or down, beginning one step from the tile of [start] and
    ending on the tile of [end]; every one of these tiles lies inside the
    grid and, unless the mover is a ghost, is not a wall. *)
Theorem found_path_walks_the_grid (this : EnemyAI.t) (start end_ : Vector2.t)
    (map : Grid) (enemyType : option EnemyType) :
  foundBySearch this start end_ map enemyType = true ->
  exists cells,
    EnemyAI.findPath this start end_ map enemyType
    = Some (List.map (centreOf this) cells)
    /\ stepwise (cellOf this start) cells
    /\ Forall (enterable map enemyType) cells
    /\ List.last cells (cellOf this start) = cellOf this end_.
Proof.
  intros H. destruct (foundBySearch_path _ _ _ _ _ H) as (goal & n & E & Ep).
  destruct (found_cells _ _ _ _ _ _ _ E) as (cells & I1 & I2 & I3 & I4 & _).
  exists cells. rewrite Ep, I1. repeat split; assumption.
Qed.

Lemma found_path_walks_the_grid_witness :
  exists cells,
    EnemyAI.findPath EnemyAI.initial (Vector2.mk 16 16) (Vector2.mk 144 16)
      corridor (Some orc)
    = Some (List.map (centreOf EnemyAI.initial) cells)
    /\ stepwise (0, 0) cells
    /\ Forall (enterable corridor (Some orc)) cells
    /\ List.last cells (0, 0) = (4, 0).
Proof.
  apply (found_path_walks_the_grid EnemyAI.initial (Vector2.mk 16 16)
           (Vector2.mk 144 16) corridor (Some orc)).
  vm_compute. reflexivity.
Defined.

(** X2. A path that the search finds has at least as many way points as
    the tiles of [start] and [end] are steps apart, and at most 99: a goal
    that needs a longer walk is never reached within the 100 iterations. *)
Theorem found_path_length (this : EnemyAI.t) (start end_ : Vector2.t)
    (map : Grid) (enemyType : option EnemyType) :
  foundBySearch this start end_ map enemyType = true ->
  exists path,
    EnemyAI.findPath this start end_ map enemyType = Some path
    /\ manhattan (cellOf this start) (cellOf this end_)
       <= Z.of_nat (length path) <= 99.
Proof.
  intros H. destruct (foundBySearch_path _ _ _ _ _ H) as (goal & n & E & Ep).
  destruct (found_cells _ _ _ _ _ _ _ E) as (cells & I1 & I2 & _ & I4 & I5).
  exists (List.map (centreOf this) cells). rewrite Ep, I1.
  split; [reflexivity|]. rewrite length_map.
  pose proof (stepwise_manhattan cells _ I2) as Hm. rewrite I4 in Hm. lia.
Qed.

Lemma found_path_length_witness :
  exists path,
    EnemyAI.findPath EnemyAI.initial (Vector2.mk 16 16) (Vector2.mk 144 16)
      corridor (Some orc) = Some path
    /\ 4 <= Z.of_nat (length path) <= 99.
Proof.
  apply (found_path_length EnemyAI.initial (Vector2.mk 16 16)
           (Vector2.mk 144 16) corridor (Some orc)).
  vm_compute. reflexivity.
Defined.

(** X3. With a positive tile size [findPath] never returns an empty path:
    the result is [[end]] on the short-circuit and on the fallback, and a
    found path has at least one way point, because two positions on one
    tile are always closer than three tile widths. *)
Theorem findPath_never_empty (this : EnemyAI.t) (start end_ : Vector2.t)
    (map : Grid) (enemyType : option EnemyType) (path : list Vector2.t) :
  (0 < EnemyAI.tileSize this)%Q ->
  EnemyAI.findPath this start end_ map enemyType = Some path ->
  path <> [].
Proof.
  intros Ht H. unfold EnemyAI.findPath, EnemyAI.findPath_counted in H.
  destruct (EnemyAI.calculateDistance_ltb start end_
              (EnemyAI.tileSize this * 3)%Q) eqn:Ed.
  - cbn in H. injection H as <-. discriminate.
  - destruct (EnemyAI.runSearch this start end_ map enemyType)
      as [goal n| |] eqn:E; cbn in H.
    + injection H as <-.
      destruct (found_cells _ _ _ _ _ _ _ E) as (cells & I1 & _ & _ & I4 & _).
      rewrite I1. cbn [List.map tail]. destruct cells as [|c cells].
      * cbn in I4. rewrite (same_cell_short_circuit this start end_ Ht I4) in Ed.
        discriminate.
      * discriminate.
    + injection H as <-. discriminate.
    + discriminate.
Qed.

Lemma findPath_never_empty_witness :
  exists path,
    EnemyAI.findPath EnemyAI.initial (Vector2.mk 16 16) (Vector2.mk 144 16)
      corridor (Some orc) = Some path
    /\ path <> [].
Proof.
  eexists. split.
  - vm_compute. reflexivity.
  - apply (findPath_never_empty EnemyAI.initial (Vector2.mk 16 16)
             (Vector2.mk 144 16) corridor (Some orc)).
    + reflexivity.
    + vm_compute. reflexivity.
Defined.

(** ** When the search gives up *)

Lemma hasCell_app (l1 l2 : list PathNode.t) (c : Z * Z) :
  hasCell (l1 ++ l2) c = hasCell l1 c || hasCell l2 c.
Proof. unfold hasCell. apply existsb_app. Qed.

Lemma hasCell_node (node : PathNode.t) :
  EnemyAI.sameCell (fst (nodeCell node)) (snd (nodeCell node)) node = true.
Proof.
  unfold EnemyAI.sameCell, nodeCell. cbn [fst snd]. now rewrite !Z.eqb_refl.
Qed.

Lemma sameCell_nodeCell (c : Z * Z) (node : PathNode.t) :
  EnemyAI.sameCell (fst c) (snd c) node = true <-> nodeCell node = c.
Proof.
  unfold EnemyAI.sameCell, nodeCell. rewrite andb_true_iff, !Z.eqb_eq.
  destruct c as [x y]. cbn [fst snd]. split.
  - intros [-> ->]. reflexivity.
  - intros [= -> ->]. auto.
Qed.

Lemma relax_hasCell nx ny gCost fCost currentNode (c : Z * Z) :
  forall openList,
    hasCell (EnemyAI.relax openList nx ny gCost fCost currentNode) c
    = hasCell openList c.
Proof.
  induction openList as [|n rest IH]; [reflexivity|]. cbn [EnemyAI.relax].
  destruct (EnemyAI.sameCell nx ny n) eqn:E.
  - destruct (gCost <? PathNode.g n); [|reflexivity].
    unfold hasCell. cbn [existsb]. f_equal.
  - unfold hasCell in *. cbn [existsb]. now rewrite IH.
Qed.

Lemma enterable_checks (map : Grid) (enemyType : option EnemyType)
    (nx ny : Z) :
  enterable map enemyType (nx, ny) ->
  outOfBounds map nx ny = Some false
  /\ notGhost enemyType && tileIs map nx ny "#" = false.
Proof.
  intros [Hin Hwall]. split.
  - destruct map as [|row rows].
    + unfold outsideGrid in Hin. cbn [hd length] in Hin.
      change (Z.of_nat 0) with 0 in Hin. revert Hin.
      destruct (Z.ltb_spec nx 0) as [E1|E1]; [discriminate|].
      destruct (Z.leb_spec 0 nx) as [E2|E2]; [discriminate | lia].
    + rewrite outOfBounds_outside by discriminate. now rewrite Hin.
  - destruct (notGhost enemyType); [|reflexivity].
    cbn [andb]. now apply Hwall.
Qed.

Lemma visitNeighbor_frontier map enemyType endX endY closedList currentNode
    openList nx ny openList' :
  EnemyAI.visitNeighbor map enemyType endX endY closedList currentNode
    openList nx ny = Some openList' ->
  (forall c, hasCell openList c = true -> hasCell openList' c = true)
  /\ (enterable map enemyType (nx, ny) ->
      hasCell closedList (nx, ny) = true \/ hasCell openList' (nx, ny) = true).
Proof.
  unfold EnemyAI.visitNeighbor. intros H.
  destruct (outOfBounds map nx ny) as [[|]|] eqn:Eb; [| |discriminate].
  { injection H as <-. split; [auto|]. intros He.
    destruct (enterable_checks _ _ _ _ He). congruence. }
  destruct (notGhost enemyType && tileIs map nx ny "#") eqn:Ew.
  { injection H as <-. split; [auto|]. intros He.
    destruct (enterable_checks _ _ _ _ He). congruence. }
  destruct (existsb (EnemyAI.sameCell nx ny) closedList) eqn:Ec.
  { injection H as <-. split; [auto|]. intros _. now left. }
  cbv zeta in H.
  destruct (existsb (EnemyAI.sameCell nx ny) openList) eqn:Eo;
    injection H as <-.
  - split.
    + intros c Hc. now rewrite relax_hasCell.
    + intros _. right. now rewrite relax_hasCell.
  - split.
    + intros c Hc. rewrite hasCell_app, Hc. reflexivity.
    + intros _. right. rewrite hasCell_app. apply orb_true_iff. right.
      unfold hasCell, EnemyAI.sameCell. cbn. now rewrite !Z.eqb_refl.
Qed.

Lemma visitNeighbors_frontier map enemyType endX endY closedList currentNode :
  forall ns openList openList',
    EnemyAI.visitNeighbors map enemyType endX endY closedList currentNode
      openList ns = Some openList' ->
    (forall c, hasCell openList c = true -> hasCell openList' c = true)
    /\ (forall c, In c ns -> enterable map enemyType c ->
          hasCell closedList c = true \/ hasCell openList' c = true).
Proof.
  induction ns as [|[nx ny] ns IH]; intros openList openList' H;
    cbn [EnemyAI.visitNeighbors] in H.
  - injection H as <-. split; [auto | intros c []].
  - destruct (EnemyAI.visitNeighbor map enemyType endX endY closedList
                currentNode openList nx ny) as [openList1|] eqn:E;
      [|discriminate].
    destruct (visitNeighbor_frontier _ _ _ _ _ _ _ _ _ _ E) as [V1 V2].
    destruct (IH _ _ H) as [I1 I2]. split.
    + intros c Hc. apply I1, V1, Hc.
    + intros c [<-|Hin] He.
      * destruct (V2 He) as [Hc|Ho]; [now left | right; now apply I1].
      * now apply I2.
Qed.

Lemma adjacent_neighbors (node : PathNode.t) (c : Z * Z) :
  adjacent (nodeCell node) c -> In c (EnemyAI.neighbors node).
Proof.
  unfold adjacent, manhattan, nodeCell, EnemyAI.neighbors.
  destruct c as [x y]. cbn [fst snd]. intros H.
  assert (Hc : (x = PathNode.x node - 1 /\ y = PathNode.y node)
               \/ (x = PathNode.x node + 1 /\ y = PathNode.y node)
               \/ (x = PathNode.x node /\ y = PathNode.y node - 1)
               \/ (x = PathNode.x node /\ y = PathNode.y node + 1)) by lia.
  destruct Hc as [[-> ->]|[[-> ->]|[[-> ->]|[-> ->]]]]; cbn; auto.
Qed.

Lemma lowestF_lookup (rest : list PathNode.t) :
  forall (pre : list PathNode.t) currentNode currentIndex node index,
    (pre ++ rest) !! currentIndex = Some currentNode ->
    EnemyAI.lowestF rest (length pre) currentNode currentIndex = (node, index) ->
    (pre ++ rest) !! index = Some node.
Proof.
  induction rest as [|n rest IH]; intros pre cur idx node index Hcur H;
    cbn [EnemyAI.lowestF] in H.
  - now injection H as <- <-.
  - replace (pre ++ n :: rest) with ((pre ++ [n]) ++ rest) in *
      by (now rewrite <- app_assoc).
    replace (S (length pre)) with (length (pre ++ [n])) in H
      by (rewrite length_app; cbn; lia).
    destruct (PathNode.f n <? PathNode.f cur).
    + apply (IH (pre ++ [n]) n (length pre)); [|exact H].
      rewrite lookup_app_l by (rewrite length_app; cbn; lia).
      rewrite lookup_app_r by lia. now rewrite Nat.sub_diag.
    + now apply (IH (pre ++ [n]) cur idx).
Qed.

Lemma splice1_hasCell (l : list PathNode.t) (c : Z * Z) :
  forall i node,
    l !! i = Some node -> hasCell l c = true ->
    hasCell (EnemyAI.splice1 l i) c = true \/ nodeCell node = c.
Proof.
  induction l as [|a l IH]; intros i node Hi Hc; [discriminate|].
  unfold hasCell in *. cbn [existsb] in Hc. destruct i as [|i].
  - cbn in Hi. injection Hi as ->. cbn [EnemyAI.splice1].
    apply orb_true_iff in Hc. destruct Hc as [Hc|Hc]; [|now left].
    right. now apply sameCell_nodeCell.
  - cbn in Hi. cbn [EnemyAI.splice1 existsb].
    apply orb_true_iff in Hc. destruct Hc as [Hc|Hc].
    + left. now rewrite Hc.
    + destruct (IH i node Hi Hc) as [H|H]; [left | now right].
      rewrite H. apply orb_true_r.
Qed.

Lemma search_exhausted (map : Grid) (enemyType : option EnemyType)
    (budget : nat) :
  forall endX endY openList closedList k o c n,
    frontierKept map enemyType openList closedList ->
    EnemyAI.search budget map enemyType endX endY openList closedList k
    = EnemyAI.Exhausted o c n ->
    frontierKept map enemyType o c
    /\ (forall cell, hasCell openList cell = true \/ hasCell closedList cell = true ->
                     hasCell o cell = true \/ hasCell c cell = true).
Proof.
  induction budget as [|budget IH]; intros endX endY openList closedList k
    o c n Hinv H; cbn [EnemyAI.search] in H.
  - destruct openList; injection H as <- <- _; auto.
  - destruct openList as [|first rest]; [injection H as <- <- _; auto|].
    destruct (EnemyAI.lowestF rest 1 first 0) as [currentNode currentIndex]
      eqn:Elow.
    pose proof (lowestF_lookup rest [first] first 0%nat currentNode
                  currentIndex eq_refl Elow) as Hcur.
    cbn [app] in Hcur.
    destruct (EnemyAI.sameCell endX endY currentNode); [discriminate|].
    destruct (EnemyAI.visitNeighbors map enemyType endX endY
                (closedList ++ [currentNode]) currentNode
                (EnemyAI.splice1 (first :: rest) currentIndex)
                (EnemyAI.neighbors currentNode)) as [openList2|] eqn:Ev;
      [|discriminate].
    destruct (visitNeighbors_frontier _ _ _ _ _ _ _ _ _ Ev) as [V1 V2].
    assert (Hmove : forall cell,
               hasCell (first :: rest) cell = true
               \/ hasCell closedList cell = true ->
               hasCell openList2 cell = true
               \/ hasCell (closedList ++ [currentNode]) cell = true).
    { intros cell [Ho|Hc].
      - destruct (splice1_hasCell _ cell _ _ Hcur Ho) as [Hs|Hs].
        + left. now apply V1.
        + right. rewrite hasCell_app. apply orb_true_iff. right.
          unfold hasCell. cbn [existsb]. rewrite orb_false_r.
          now apply sameCell_nodeCell.
      - right. rewrite hasCell_app, Hc. reflexivity. }
    assert (Hinv2 : frontierKept map enemyType openList2
                      (closedList ++ [currentNode])).
    { intros node cell Hin Hadj Hent. apply in_app_iff in Hin.
      destruct Hin as [Hin|[<-|[]]].
      - apply Hmove. exact (Hinv node cell Hin Hadj Hent).
      - destruct (V2 cell (adjacent_neighbors _ _ Hadj) Hent) as [Hc|Ho];
          [now right | now left]. }
    destruct (IH _ _ _ _ _ _ _ _ Hinv2 H) as [I1 I2].
    split; [exact I1|]. intros cell Hcell. apply I2, Hmove, Hcell.
Qed.

Lemma closed_under_steps (map : Grid) (enemyType : option EnemyType)
    (closedList : list PathNode.t) :
  frontierKept map enemyType [] closedList ->
  forall cells from,
    hasCell closedList from = true ->
    stepwise from cells -> Forall (enterable map enemyType) cells ->
    hasCell closedList (List.last cells from) = true.
Proof.
  intros Hinv. induction cells as [|c cells IH]; intros from Hfrom Hw Hall;
    [exact Hfrom|].
  destruct Hw as [Hadj Hw]. inversion Hall as [|? ? Hent Hall']; subst.
  rewrite last_cons_shift. apply IH; [|exact Hw | exact Hall'].
  unfold hasCell in Hfrom. apply existsb_exists in Hfrom.
  destruct Hfrom as (node & Hin & Hsame). apply sameCell_nodeCell in Hsame.
  rewrite <- Hsame in Hadj.
  destruct (Hinv node c Hin Hadj Hent) as [Ho|Hc]; [discriminate | exact Hc].
Qed.

(** X4. When the search ends because the open list is empty, the goal
    cannot be reached at all: there is no walk by single steps through
    enterable tiles from the tile of [start] to the tile of [end]. The
    fallback [[end]] is then returned for want of any path, not for want of
    iterations. *)
Theorem empty_open_list_means_no_way (this : EnemyAI.t)
    (start end_ : Vector2.t) (map : Grid) (enemyType : option EnemyType)
    (closedList : list PathNode.t) (n : nat) (cells : list (Z * Z)) :
  EnemyAI.runSearch this start end_ map enemyType
  = EnemyAI.Exhausted [] closedList n ->
  stepwise (cellOf this start) cells ->
  Forall (enterable map enemyType) cells ->
  List.last cells (cellOf this start) <> cellOf this end_.
Proof.
  intros H Hw Hall Hlast. unfold EnemyAI.runSearch in H. cbv zeta in H.
  pose proof (search_iterations map enemyType EnemyAI.maxIterations
                (Math_floor (Vector2.x end_ / EnemyAI.tileSize this))
                (Math_floor (Vector2.y end_ / EnemyAI.tileSize this))
                [EnemyAI.startNodeOf this start] [] 0%nat
                (List.Forall_nil _)) as Hgoal.
  rewrite H in Hgoal. cbv beta iota in Hgoal. destruct Hgoal as (_ & _ & Hgoal).
  assert (Hinit : frontierKept map enemyType
                    [EnemyAI.startNodeOf this start] [])
    by (intros node c []).
  destruct (search_exhausted map enemyType _ _ _ _ _ _ _ _ _ Hinit H)
    as [Hinv Hkeep].
  assert (Hstart : hasCell closedList (cellOf this start) = true).
  { destruct (Hkeep (cellOf this start)) as [Ho|Hc]; [|discriminate|exact Hc].
    left. unfold hasCell, cellOf, EnemyAI.sameCell. cbn.
    now rewrite !Z.eqb_refl. }
  pose proof (closed_under_steps map enemyType closedList Hinv cells _
                Hstart Hw Hall) as Hend.
  rewrite Hlast in Hend. unfold hasCell, cellOf in Hend. cbn [fst snd] in Hend.
  apply existsb_exists in Hend. destruct Hend as (node & Hin & Hsame).
  rewrite List.Forall_forall in Hgoal. rewrite (Hgoal node Hin) in Hsame.
  discriminate.
Qed.

Lemma empty_open_list_means_no_way_witness :
  exists closedList n,
    EnemyAI.runSearch EnemyAI.initial (Vector2.mk 48 48) (Vector2.mk 144 48)
      room (Some grunt)
    = EnemyAI.Exhausted [] closedList n
    /\ List.last [(2, 1)] (cellOf EnemyAI.initial (Vector2.mk 48 48))
       <> cellOf EnemyAI.initial (Vector2.mk 144 48).
Proof.
  eexists _, _. split; [vm_compute; reflexivity|].
  eapply (empty_open_list_means_no_way EnemyAI.initial (Vector2.mk 48 48)
            (Vector2.mk 144 48) room (Some grunt)).
  - vm_compute. reflexivity.
  - split; [reflexivity | exact I].
  - constructor; [|constructor]. split; [reflexivity | reflexivity].
Defined.

(** ** What a ghost sees *)






(** ** The rectangle of the Bresenham walk *)

Lemma walkTiles_remaining (fuel : nat) :
  forall x0 y0 x1 y1 dx sx dy sy err rx ry,
    walking x0 y0 x1 y1 dx sx dy sy err rx ry ->
    rx + ry < Z.of_nat fuel ->
    Forall (fun t => exists rx' ry',
                0 <= rx' <= rx /\ 0 <= ry' <= ry /\
                x1 - fst t = sx * rx' /\ y1 - snd t = sy * ry')
      (walkTiles fuel x0 y0 x1 y1 dx sx dy sy err).
Proof.
  induction fuel as [|fuel IH]; intros x0 y0 x1 y1 dx sx dy sy err rx ry W Hf.
  - destruct W. lia.
  - cbn [walkTiles]. constructor.
    + exists rx, ry. destruct W. cbn [fst snd]. lia.
    + destruct ((x0 =? x1) && (y0 =? y1)) eqn:Hat; [constructor|].
      pose proof (walking_step _ _ _ _ _ _ _ _ _ _ _ W Hat) as Hs.
      cbv zeta in Hs. destruct Hs as [W' Hlt]. destruct W as [Hrx Hry _ _ _ _ _].
      destruct (dy <=? 2 * err); destruct (2 * err <=? dx);
        (eapply Forall_impl; [apply (IH _ _ _ _ _ _ _ _ _ _ _ W'); lia|];
         intros t (rx' & ry' & ? & ? & ? & ?); exists rx', ry';
         repeat split; try assumption; lia).
Qed.

Lemma walkTiles_column (fuel : nat) :
  forall x0 y0 x1 y1 dx sx dy sy err rx ry,
    walking x0 y0 x1 y1 dx sx dy sy err rx ry ->
    rx + ry < Z.of_nat fuel ->
    forall rx', 0 <= rx' <= rx ->
      exists t, In t (walkTiles fuel x0 y0 x1 y1 dx sx dy sy err)
                /\ x1 - fst t = sx * rx'.
Proof.
  induction fuel as [|fuel IH]; intros x0 y0 x1 y1 dx sx dy sy err rx ry W Hf
    rx' Hrx'.
  - destruct W. lia.
  - cbn [walkTiles].
    destruct (Z.eq_dec rx' rx) as [->|Hne].
    + exists (x0, y0). split; [now left|]. destruct W. assumption.
    + destruct ((x0 =? x1) && (y0 =? y1)) eqn:Hat.
      * exfalso. apply andb_true_iff in Hat. destruct Hat as [Ex _].
        apply Z.eqb_eq in Ex. destruct W as [? ? Hx ? Hsx ? ?].
        assert (rx = 0) by nia. lia.
      * pose proof (walking_step _ _ _ _ _ _ _ _ _ _ _ W Hat) as Hs.
        cbv zeta in Hs. destruct Hs as [W' Hlt].
        destruct (dy <=? 2 * err); destruct (2 * err <=? dx);
          (destruct (IH _ _ _ _ _ _ _ _ _ _ _ W' ltac:(lia) rx' ltac:(lia))
             as (t & Hin & Ht);
           exists t; split; [now right | exact Ht]).
Qed.

Lemma walkTiles_row (fuel : nat) :
  forall x0 y0 x1 y1 dx sx dy sy err rx ry,
    walking x0 y0 x1 y1 dx sx dy sy err rx ry ->
    rx + ry < Z.of_nat fuel ->
    forall ry', 0 <= ry' <= ry ->
      exists t, In t (walkTiles fuel x0 y0 x1 y1 dx sx dy sy err)
                /\ y1 - snd t = sy * ry'.
Proof.
  induction fuel as [|fuel IH]; intros x0 y0 x1 y1 dx sx dy sy err rx ry W Hf
    ry' Hry'.
  - destruct W. lia.
  - cbn [walkTiles].
    destruct (Z.eq_dec ry' ry) as [->|Hne].
    + exists (x0, y0). split; [now left|]. destruct W. assumption.
    + destruct ((x0 =? x1) && (y0 =? y1)) eqn:Hat.
      * exfalso. apply andb_true_iff in Hat. destruct Hat as [_ Ey].
        apply Z.eqb_eq in Ey. destruct W as [? ? ? Hy ? Hsy ?].
        assert (ry = 0) by nia. lia.
      * pose proof (walking_step _ _ _ _ _ _ _ _ _ _ _ W Hat) as Hs.
        cbv zeta in Hs. destruct Hs as [W' Hlt].
        destruct (dy <=? 2 * err); destruct (2 * err <=? dx);
          (destruct (IH _ _ _ _ _ _ _ _ _ _ _ W' ltac:(lia) ry' ltac:(lia))
             as (t & Hin & Ht);
           exists t; split; [now right | exact Ht]).
Qed.

Lemma lineTiles_inBox (x0 y0 x1 y1 : Z) :
  Forall (inBox (x0, y0) (x1, y1)) (lineTiles x0 y0 x1 y1).
Proof.
  unfold lineTiles.
  eapply Forall_impl;
    [apply (walkTiles_remaining _ _ _ _ _ _ _ _ _ _ _ _
              (walking_start x0 y0 x1 y1)); unfold walkFuel; lia|].
  intros [tx ty] (rx' & ry' & Hrx & Hry & Hx & Hy). cbn [fst snd] in *.
  unfold inBox, between. cbn [fst snd]. revert Hx Hy.
  destruct (Z.ltb_spec x0 x1); destruct (Z.ltb_spec y0 y1); lia.
Qed.

Lemma lineTiles_column (x0 y0 x1 y1 xw : Z) :
  between x0 x1 xw ->
  exists y, In (xw, y) (lineTiles x0 y0 x1 y1) /\ between y0 y1 y.
Proof.
  intros Hb. unfold lineTiles.
  assert (Hf : Z.abs (x1 - x0) + Z.abs (y1 - y0)
               < Z.of_nat (walkFuel x0 y0 x1 y1)) by (unfold walkFuel; lia).
  destruct (walkTiles_column _ _ _ _ _ _ _ _ _ _ _ _
              (walking_start x0 y0 x1 y1) Hf (Z.abs (x1 - xw)))
    as ([tx ty] & Hin & Ht).
  { unfold between in Hb. lia. }
  cbn [fst] in Ht. assert (tx = xw).
  { unfold between in Hb. revert Ht. destruct (Z.ltb_spec x0 x1); lia. }
  subst tx. exists ty. split; [exact Hin|].
  pose proof (lineTiles_inBox x0 y0 x1 y1) as Hbox.
  rewrite List.Forall_forall in Hbox. apply (Hbox (xw, ty) Hin).
Qed.

Lemma lineTiles_row (x0 y0 x1 y1 yw : Z) :
  between y0 y1 yw ->
  exists x, In (x, yw) (lineTiles x0 y0 x1 y1) /\ between x0 x1 x.
Proof.
  intros Hb. unfold lineTiles.
  assert (Hf : Z.abs (x1 - x0) + Z.abs (y1 - y0)
               < Z.of_nat (walkFuel x0 y0 x1 y1)) by (unfold walkFuel; lia).
  destruct (walkTiles_row _ _ _ _ _ _ _ _ _ _ _ _
              (walking_start x0 y0 x1 y1) Hf (Z.abs (y1 - yw)))
    as ([tx ty] & Hin & Ht).
  { unfold between in Hb. lia. }
  cbn [snd] in Ht. assert (ty = yw).
  { unfold between in Hb. revert Ht. destruct (Z.ltb_spec y0 y1); lia. }
  subst ty. exists tx. split; [exact Hin|].
  pose proof (lineTiles_inBox x0 y0 x1 y1) as Hbox.
  rewrite List.Forall_forall in Hbox. apply (Hbox (tx, yw) Hin).
Qed.

(** X6. The line of sight of the orchestrator looks only at tiles of the
    rectangle spanned by the tiles of its two end points: when no tile of
    that rectangle is a wall the answer is [true], whatever the rest of the
    grid holds. *)
Theorem sight_depends_on_the_rectangle (from to : Vector2.t) (map : Grid)
    (tileSize : number) :
  (forall t, inBox (sightTile from tileSize) (sightTile to tileSize) t ->
             wallTile map t = false) ->
  hasLineOfSight from to map tileSize = true.
Proof.
  intros Hfree. rewrite hasLineOfSight_lineTiles. apply forallb_forall.
  intros t Hin. unfold notWall. apply negb_true_iff. apply Hfree.
  pose proof (lineTiles_inBox (centreTile (Vector2.x from) tileSize)
                (centreTile (Vector2.y from) tileSize)
                (centreTile (Vector2.x to) tileSize)
                (centreTile (Vector2.y to) tileSize)) as Hbox.
  rewrite List.Forall_forall in Hbox. exact (Hbox t Hin).
Qed.

Lemma sight_depends_on_the_rectangle_witness :
  hasLineOfSight (Vector2.mk 70 70) (Vector2.mk 130 40) wallRoom TILE_SIZE
  = true.
Proof.
  apply sight_depends_on_the_rectangle.
  replace (sightTile (Vector2.mk 70 70) TILE_SIZE) with (2, 2)
    by (vm_compute; reflexivity).
  replace (sightTile (Vector2.mk 130 40) TILE_SIZE) with (4, 1)
    by (vm_compute; reflexivity).
  intros [tx ty] [Hbx Hby]. unfold between in Hbx, Hby. cbn [fst snd] in *.
  assert (Hx : tx = 2 \/ tx = 3 \/ tx = 4) by lia.
  assert (Hy : ty = 1 \/ ty = 2) by lia.
  destruct Hx as [->|[->| ->]]; destruct Hy as [->| ->]; reflexivity.
Defined.

(** X7. A line of walls across the rectangle blocks the sight: when a
    whole column of the rectangle spanned by the two end tiles is wall, or
    a whole row of it, the answer is [false]. *)
Theorem wall_across_the_rectangle_blocks (from to : Vector2.t) (map : Grid)
    (tileSize : number) :
  let a := sightTile from tileSize in
  let b := sightTile to tileSize in
  (exists xw, between (fst a) (fst b) xw /\
              forall y, between (snd a) (snd b) y -> wallTile map (xw, y) = true)
  \/ (exists yw, between (snd a) (snd b) yw /\
                 forall x, between (fst a) (fst b) x -> wallTile map (x, yw) = true) ->
  hasLineOfSight from to map tileSize = false.
Proof.
  cbv zeta. unfold sightTile. cbn [fst snd]. intros H.
  rewrite hasLineOfSight_lineTiles. apply not_true_is_false. intros Hall.
  rewrite forallb_forall in Hall.
  destruct H as [(xw & Hb & Hwall)|(yw & Hb & Hwall)].
  - destruct (lineTiles_column _ (centreTile (Vector2.y from) tileSize) _
                (centreTile (Vector2.y to) tileSize) xw Hb) as (y & Hin & Hy).
    specialize (Hall _ Hin). specialize (Hwall y Hy).
    unfold notWall, wallTile in *. cbn [fst snd] in *.
    rewrite Hwall in Hall. discriminate.
  - destruct (lineTiles_row (centreTile (Vector2.x from) tileSize) _
                (centreTile (Vector2.x to) tileSize) _ yw Hb) as (x & Hin & Hx).
    specialize (Hall _ Hin). specialize (Hwall x Hx).
    unfold notWall, wallTile in *. cbn [fst snd] in *.
    rewrite Hwall in Hall. discriminate.
Qed.

Lemma wall_across_the_rectangle_blocks_witness :
  hasLineOfSight (Vector2.mk 40 40) (Vector2.mk 150 40) room TILE_SIZE = false.
Proof.
  apply wall_across_the_rectangle_blocks.
  replace (sightTile (Vector2.mk 40 40) TILE_SIZE) with (1, 1)
    by (vm_compute; reflexivity).
  replace (sightTile (Vector2.mk 150 40) TILE_SIZE) with (5, 1)
    by (vm_compute; reflexivity).
  left. exists 3. unfold between. cbn [fst snd]. split; [lia|].
  intros y Hy. assert (y = 1) by lia. subst y. reflexivity.
Defined.

(** ** Cooldown and bookkeeping of the combat resolver *)

Lemma hitPlayer_frame amount now w :
  enemyLastAttackTimes (hitPlayer amount now w) = enemyLastAttackTimes w
  /\ worldEnemies (hitPlayer amount now w) = worldEnemies w
  /\ lastEnemyPositions (hitPlayer amount now w) = lastEnemyPositions w.
Proof. repeat split; reflexivity. Qed.

(** What an attack of an enemy that is not a grunt leaves behind when it
    changes the world at all. *)
Lemma enemyAttack_hit snapshot timestamp now roll enemy w :
  EnemyConfig.type enemy <> grunt ->
  enemyAttack snapshot timestamp now roll enemy w <> w ->
  exists amount,
    enemyAttack snapshot timestamp now roll enemy w
    = hitPlayer amount now
        (set_enemyLastAttackTimes
           (<[EnemyConfig.id enemy := timestamp]> (enemyLastAttackTimes w)) w)
    /\ (amount = (1 # 4)%Q \/ amount = EnemyConfig.damage enemy).
Proof.
  intros Hty. unfold enemyAttack.
  destruct (EnemyConfig.type enemy); try congruence; cbn [EnemyType_eqb];
    repeat match goal with
           | |- context [if ?b then _ else _] => destruct b
           end;
    intros Hne; try congruence;
    eexists; (split; [reflexivity | auto]).
Qed.

(** X8. A hit starts the cooldown of the enemy that dealt it: after an
    attack of an enemy that is not a grunt has changed the world, an attack
    under the same id less than 1100 ms later changes nothing, wherever the
    enemy and the player then stand and whatever is rolled. *)
Theorem hit_starts_the_cooldown snapshot timestamp now roll enemy w
    snapshot' timestamp' now' roll' enemy' :
  EnemyConfig.type enemy <> grunt ->
  enemyAttack snapshot timestamp now roll enemy w <> w ->
  EnemyConfig.id enemy' = EnemyConfig.id enemy ->
  EnemyConfig.type enemy' <> grunt ->
  (timestamp' - timestamp < attackCooldown)%Q ->
  let w1 := enemyAttack snapshot timestamp now roll enemy w in
  enemyAttack snapshot' timestamp' now' roll' enemy' w1 = w1.
Proof.
  intros Hty Hhit Hid Hty' Hsoon. cbv zeta.
  destruct (enemyAttack_hit _ _ _ _ _ _ Hty Hhit) as (amount & -> & _).
  set (w1 := hitPlayer amount now _).
  assert (Hlast : lastAttackTime w1 (EnemyConfig.id enemy') = timestamp).
  { unfold lastAttackTime, w1. rewrite Hid.
    rewrite (proj1 (hitPlayer_frame _ _ _)). cbn [enemyLastAttackTimes
      set_enemyLastAttackTimes]. now rewrite lookup_insert_eq. }
  assert (Hcan : Qle_bool attackCooldown
                   (timestamp' - lastAttackTime w1 (EnemyConfig.id enemy'))
                 = false).
  { rewrite Hlast. apply not_true_is_false. intros H.
    apply Qle_bool_iff in H. exact (Qlt_not_le _ _ Hsoon H). }
  unfold enemyAttack. rewrite Hcan. rewrite !andb_false_r. cbn [andb].
  destruct (EnemyConfig.type enemy'); try congruence; cbn [EnemyType_eqb];
    repeat match goal with
           | |- context [if ?b then _ else _] => destruct b
           end; reflexivity.
Qed.

Lemma hit_starts_the_cooldown_witness :
  let g := newGhost "g" (Vector2.mk 60 44) in
  let w1 := enemyAttack meleeScene 5000 7 0 g (emptyWorld meleeScene) in
  enemyAttack meleeScene 6000 8 0 g w1 = w1.
Proof.
  cbv zeta.
  apply (hit_starts_the_cooldown meleeScene 5000 7 0
           (newGhost "g" (Vector2.mk 60 44)) (emptyWorld meleeScene)
           meleeScene 6000 8 0 (newGhost "g" (Vector2.mk 60 44))).
  - discriminate.
  - intros H. apply (f_equal playerHealth) in H. vm_compute in H. discriminate.
  - reflexivity.
  - discriminate.
  - reflexivity.
Defined.

Lemma removeEnemy_sub id w e :
  e ∈ worldEnemies (removeEnemy id w) -> e ∈ worldEnemies w.
Proof.
  unfold removeEnemy. cbn. intros H. apply list_elem_of_filter in H. tauto.
Qed.

Lemma enemyAttack_enemies snapshot timestamp now roll enemy w :
  (worldEnemies (enemyAttack snapshot timestamp now roll enemy w)
   = worldEnemies w)
  \/ (EnemyConfig.type enemy = grunt /\
      worldEnemies (enemyAttack snapshot timestamp now roll enemy w)
      = filter (fun e => EnemyConfig.id e ≠ EnemyConfig.id enemy)
          (worldEnemies w)).
Proof.
  unfold enemyAttack.
  destruct (EnemyConfig.type enemy) eqn:Et; cbn [EnemyType_eqb];
    repeat match goal with
           | |- context [if ?b then _ else _] => destruct b
           end;
    first [ left; reflexivity | right; split; reflexivity ].
Qed.

Lemma enemyAttacksFrom_enemies snapshot timestamp now rolls es :
  forall i w e,
    (e ∈ worldEnemies (enemyAttacksFrom i snapshot timestamp now rolls es w) ->
     e ∈ worldEnemies w)
    /\ (e ∈ worldEnemies w ->
        (forall r, r ∈ es -> EnemyConfig.type r = grunt ->
                   EnemyConfig.id r <> EnemyConfig.id e) ->
        e ∈ worldEnemies (enemyAttacksFrom i snapshot timestamp now rolls es w)).
Proof.
  induction es as [|r es IH]; intros i w e; cbn [enemyAttacksFrom]; [tauto|].
  destruct (IH (S i) (enemyAttack snapshot timestamp now (rolls i) r w) e)
    as [IH1 IH2].
  destruct (enemyAttack_enemies snapshot timestamp now (rolls i) r w)
    as [E|[Hty E]].
  - rewrite E in IH1, IH2. split; [exact IH1|].
    intros Hin Hno. apply IH2; [exact Hin|].
    intros r' Hr'. apply Hno. now right.
  - rewrite E in IH1, IH2. split.
    + intros Hin. specialize (IH1 Hin). apply list_elem_of_filter in IH1. tauto.
    + intros Hin Hno. apply IH2.
      * apply list_elem_of_filter. split; [|exact Hin].
        intros Heq. apply (Hno r); [now left | exact Hty | now symmetry].
      * intros r' Hr'. apply Hno. now right.
Qed.

(** X9. A pass of the combat resolver adds no enemy and removes only
    grunts: every enemy of the world after the pass was there before it,
    and an enemy stays whenever no grunt of the snapshot bears its id. *)
Theorem combat_pass_removes_only_grunts snapshot timestamp now rolls w e :
  let w' := resolveEnemyAttacks snapshot timestamp now rolls w in
  (e ∈ worldEnemies w' -> e ∈ worldEnemies w)
  /\ (e ∈ worldEnemies w ->
      (forall r, r ∈ GameState.enemies snapshot -> EnemyConfig.type r = grunt ->
                 EnemyConfig.id r <> EnemyConfig.id e) ->
      e ∈ worldEnemies w').
Proof.
  cbv zeta. unfold resolveEnemyAttacks. apply enemyAttacksFrom_enemies.
Qed.

(** ** Bookkeeping of the melee sweep *)

Lemma filter_all {A : Type} (P : A -> Prop) `{!forall x, Decision (P x)}
    (l : list A) :
  (forall x, x ∈ l -> P x) -> filter P l = l.
Proof.
  induction l as [|a l IH]; intros Hall; [reflexivity|].
  rewrite filter_cons_True by (apply Hall; left).
  f_equal. apply IH. intros x Hx. apply Hall. now right.
Qed.

Lemma sweepEnemy_id closure g e e' :
  sweepEnemy closure g e = Some e' ->
  EnemyConfig.id e' = EnemyConfig.id e
  /\ (e' = e
      \/ (EnemyConfig.health e'
          = (EnemyConfig.health e - inject_Z (spawnerDamage g))%Q
          /\ (0 < EnemyConfig.health e')%Q)).
Proof.
  unfold sweepEnemy.
  destruct (dist_ltb _ _ sweepRange && hasLineOfSight _ _ _ TILE_SIZE).
  - cbv zeta.
    destruct (Qle_bool (EnemyConfig.health e - inject_Z (spawnerDamage g)) 0)
      eqn:E; [discriminate|].
    intros [= <-]. cbn. split; [reflexivity|]. right. split; [reflexivity|].
    apply Qnot_le_lt. intros H. apply Qle_bool_iff in H. congruence.
  - intros [= <-]. split; [reflexivity | now left].
Qed.

Lemma sweepEnemies_spec closure g l :
  forall kept killed,
    sweepEnemies closure g l = (kept, killed) ->
    (length kept + length killed = length l)%nat
    /\ (forall e', e' ∈ kept ->
          exists e, e ∈ l /\ sweepEnemy closure g e = Some e')
    /\ (forall id, id ∈ killed ->
          exists e, e ∈ l /\ sweepEnemy closure g e = None
                    /\ EnemyConfig.id e = id)
    /\ (forall e, e ∈ l -> sweepEnemy closure g e = None ->
          EnemyConfig.id e ∈ killed)
    /\ (NoDup (List.map EnemyConfig.id l) ->
        NoDup (List.map EnemyConfig.id kept)
        /\ forall id, id ∈ killed -> id ∉ List.map EnemyConfig.id kept).
Proof.
  induction l as [|e l IH]; intros kept killed H; cbn [sweepEnemies] in H.
  - injection H as <- <-.
    split; [reflexivity|]. split; [intros ? Hin; inversion Hin|].
    split; [intros ? Hin; inversion Hin|].
    split; [intros ? Hin; inversion Hin|].
    intros _. split; [constructor | intros ? Hin; inversion Hin].
  - destruct (sweepEnemies closure g l) as [kept0 killed0].
    destruct (IH kept0 killed0 eq_refl) as (I1 & I2 & I3 & I4 & I5).
    destruct (sweepEnemy closure g e) as [e'|] eqn:Ee; injection H as <- <-.
    + split; [cbn [length]; lia|]. split; [|split; [|split]].
      * intros x Hx. apply elem_of_cons in Hx. destruct Hx as [->|Hx].
        -- exists e. split; [left | exact Ee].
        -- destruct (I2 x Hx) as (e0 & H0 & H1). exists e0. split; [now right|exact H1].
      * intros id Hid. destruct (I3 id Hid) as (e0 & H0 & H1).
        exists e0. split; [now right | exact H1].
      * intros x Hx Hn. apply elem_of_cons in Hx. destruct Hx as [->|Hx];
          [congruence | now apply I4].
      * intros Hnd. cbn [List.map] in Hnd. apply NoDup_cons in Hnd.
        destruct Hnd as [Hnotin Hnd]. destruct (I5 Hnd) as [J1 J2].
        destruct (sweepEnemy_id _ _ _ _ Ee) as [Hid _].
        assert (Hsub : forall id, id ∈ List.map EnemyConfig.id kept0 ->
                                  id ∈ List.map EnemyConfig.id l).
        { intros id Hin. apply list_elem_of_fmap in Hin.
          destruct Hin as (x & -> & Hx). destruct (I2 x Hx) as (e0 & H0 & H1).
          destruct (sweepEnemy_id _ _ _ _ H1) as [-> _].
          apply list_elem_of_fmap. now exists e0. }
        split.
        -- cbn [List.map]. apply NoDup_cons. split; [|exact J1].
           rewrite Hid. intros Hin. apply Hnotin. now apply Hsub.
        -- intros id Hk. cbn [List.map]. intros Hin.
           apply elem_of_cons in Hin. destruct Hin as [->|Hin].
           ++ destruct (I3 _ Hk) as (e0 & H0 & _ & H2).
              apply Hnotin. rewrite <- Hid, <- H2.
              apply list_elem_of_fmap. now exists e0.
           ++ exact (J2 id Hk Hin).
    + split; [cbn [length]; lia|]. split; [|split; [|split]].
      * intros x Hx. destruct (I2 x Hx) as (e0 & H0 & H1).
        exists e0. split; [now right | exact H1].
      * intros id Hid. apply elem_of_cons in Hid. destruct Hid as [->|Hid].
        -- exists e. split; [left|]. split; [exact Ee | reflexivity].
        -- destruct (I3 id Hid) as (e0 & H0 & H1). exists e0.
           split; [now right | exact H1].
      * intros x Hx Hn. apply elem_of_cons in Hx. destruct Hx as [->|Hx];
          [left | right; now apply I4].
      * intros Hnd. cbn [List.map] in Hnd. apply NoDup_cons in Hnd.
        destruct Hnd as [Hnotin Hnd]. destruct (I5 Hnd) as [J1 J2].
        split; [exact J1|].
        intros id Hk Hin. apply elem_of_cons in Hk. destruct Hk as [->|Hk].
        -- apply Hnotin. apply list_elem_of_fmap in Hin.
           destruct Hin as (x & Ex & Hx). destruct (I2 x Hx) as (e0 & H0 & H1).
           destruct (sweepEnemy_id _ _ _ _ H1) as [Hid _].
           rewrite Ex, Hid. apply list_elem_of_fmap. now exists e0.
        -- exact (J2 id Hk Hin).
Qed.

Lemma handleEnemyKilled_facts closure id w :
  let w' := handleEnemyKilled closure id w in
  GameProgress.kills (gameProgress w') = GameProgress.kills (gameProgress w) + 1
  /\ GameProgress.score (gameProgress w') >= GameProgress.score (gameProgress w) + 100
  /\ worldEnemies w'
     = filter (fun e => EnemyConfig.id e ≠ id) (worldEnemies w)
  /\ lastEnemyPositions w' = delete id (lastEnemyPositions w).
Proof.
  cbv zeta. unfold handleEnemyKilled. cbn.
  repeat split; try reflexivity.
  destruct (List.find _ _) as [e|]; [|lia].
  destruct (EnemyType_eqb (EnemyConfig.type e) big_monster); lia.
Qed.

Lemma killAll_facts closure killed :
  forall w,
    let w' := fold_left (fun w' id => handleEnemyKilled closure id w') killed w in
    GameProgress.kills (gameProgress w')
    = GameProgress.kills (gameProgress w) + Z.of_nat (length killed)
    /\ GameProgress.score (gameProgress w')
       >= GameProgress.score (gameProgress w) + 100 * Z.of_nat (length killed)
    /\ worldEnemies w'
       = filter (fun e => EnemyConfig.id e ∉ killed) (worldEnemies w)
    /\ (forall id, id ∈ killed -> lastEnemyPositions w' !! id = None)
    /\ (forall id, id ∉ killed ->
          lastEnemyPositions w' !! id = lastEnemyPositions w !! id).
Proof.
  induction killed as [|k killed IH]; intros w; cbn [fold_left].
  - cbn [length]. repeat split; try lia.
    + symmetry. apply filter_all. intros e He Hin; inversion Hin.
    + intros id Hin. inversion Hin.
  - destruct (IH (handleEnemyKilled closure k w)) as (I1 & I2 & I3 & I4 & I5).
    destruct (handleEnemyKilled_facts closure k w) as (H1 & H2 & H3 & H4).
    cbv zeta in *. split; [|split; [|split; [|split]]].
    + rewrite I1, H1. cbn [length]. lia.
    + cbn [length]. lia.
    + rewrite I3, H3. rewrite list_filter_filter.
      apply list_filter_iff. intros e. rewrite not_elem_of_cons. tauto.
    + intros id Hin. destruct (decide (id ∈ killed)) as [Hk|Hk]; [now apply I4|].
      rewrite (I5 id Hk), H4. apply elem_of_cons in Hin.
      destruct Hin as [->|Hin]; [apply lookup_delete_eq | contradiction].
    + intros id Hnot. apply not_elem_of_cons in Hnot. destruct Hnot as [Hne Hnot].
      rewrite (I5 id Hnot), H4. now apply lookup_delete_ne.
Qed.

(** X10. The melee sweep changes an enemy only by hitting it, and a hit
    enemy stays only with health above zero: every enemy left after the
    sweep is an enemy from before it, either as it was or with the damage of
    the sweep taken off and health still positive; and an enemy brought to
    zero or below is gone under its id, together with its entry of the
    stuck tracker. *)
Theorem sweep_survivors_and_kills closure g w :
  let w' := playerMeleeSweep closure g w in
  (forall e', e' ∈ worldEnemies w' ->
     exists e, e ∈ worldEnemies w
       /\ EnemyConfig.id e' = EnemyConfig.id e
       /\ (e' = e
           \/ (EnemyConfig.health e'
               = (EnemyConfig.health e - inject_Z (spawnerDamage g))%Q
               /\ (0 < EnemyConfig.health e')%Q)))
  /\ (forall e, e ∈ worldEnemies w -> sweepEnemy closure g e = None ->
        lastEnemyPositions w' !! EnemyConfig.id e = None
        /\ forall e', e' ∈ worldEnemies w' ->
             EnemyConfig.id e' <> EnemyConfig.id e).
Proof.
  cbv zeta. unfold playerMeleeSweep.
  fold (worldEnemies w).
  destruct (sweepEnemies closure g (worldEnemies w)) as [kept killed] eqn:Es.
  destruct (sweepEnemies_spec _ _ _ _ _ Es) as (S1 & S2 & S3 & S4 & _).
  destruct (killAll_facts closure killed (setEnemies kept w))
    as (_ & _ & K3 & K4 & _).
  cbv zeta in K3, K4. split.
  - intros e' He'. rewrite K3 in He'. apply list_elem_of_filter in He'.
    destruct He' as [_ He']. change (worldEnemies (setEnemies kept w)) with kept in He'.
    destruct (S2 e' He') as (e & He & Hs). exists e. split; [exact He|].
    exact (sweepEnemy_id closure g e e' Hs).
  - intros e He Hnone. pose proof (S4 e He Hnone) as Hk. split; [now apply K4|].
    intros e' He' Heq. rewrite K3 in He'. apply list_elem_of_filter in He'.
    destruct He' as [Hnot _]. apply Hnot. now rewrite Heq.
Qed.

(** X11. When the enemies bear distinct ids, the melee sweep counts one
    kill for every enemy it removes and removes no other: the kill counter
    rises by the number of enemies that left, and the score by at least a
    hundred for each. *)
Theorem sweep_counts_every_kill closure g w :
  NoDup (List.map EnemyConfig.id (worldEnemies w)) ->
  let w' := playerMeleeSweep closure g w in
  let gone :=
    Z.of_nat (length (worldEnemies w)) - Z.of_nat (length (worldEnemies w')) in
  0 <= gone
  /\ GameProgress.kills (gameProgress w')
     = GameProgress.kills (gameProgress w) + gone
  /\ GameProgress.score (gameProgress w')
     >= GameProgress.score (gameProgress w) + 100 * gone
  /\ NoDup (List.map EnemyConfig.id (worldEnemies w')).
Proof.
  intros Hnd. cbv zeta. unfold playerMeleeSweep. fold (worldEnemies w).
  destruct (sweepEnemies closure g (worldEnemies w)) as [kept killed] eqn:Es.
  destruct (sweepEnemies_spec _ _ _ _ _ Es) as (S1 & _ & _ & _ & S5).
  destruct (S5 Hnd) as [N1 N2].
  destruct (killAll_facts closure killed (setEnemies kept w))
    as (K1 & K2 & K3 & _).
  cbv zeta in K1, K2, K3.
  assert (Ekept : filter (fun e => EnemyConfig.id e ∉ killed) kept = kept).
  { apply filter_all. intros e He Hk. apply (N2 _ Hk).
    apply list_elem_of_fmap. now exists e. }
  change (worldEnemies (setEnemies kept w)) with kept in K3.
  rewrite Ekept in K3. rewrite K3, K1.
  change (gameProgress (setEnemies kept w)) with (gameProgress w) in *.
  repeat split; try lia. exact N1.
Qed.

Lemma sweep_counts_every_kill_witness :
  let w := emptyWorld meleeScene in
  let w' := playerMeleeSweep meleeScene (gameProgress w) w in
  GameProgress.kills (gameProgress w')
  = GameProgress.kills (gameProgress w)
    + (Z.of_nat (length (worldEnemies w)) - Z.of_nat (length (worldEnemies w'))).
Proof.
  cbv zeta.
  assert (Hnd : NoDup (List.map EnemyConfig.id
                         (worldEnemies (emptyWorld meleeScene)))).
  { cbn. apply NoDup_singleton. }
  pose proof (sweep_counts_every_kill meleeScene
                (gameProgress (emptyWorld meleeScene))
                (emptyWorld meleeScene) Hnd) as H.
  cbv zeta in H. exact (proj1 (proj2 H)).
Defined.

(** ** Records of the trackers *)

(** X12. The answer of [isSpawnerActive] for a cell is recorded at the
    first probe and never computed again: a later probe of the same cell
    returns the same answer and leaves the world as it is, whatever grid,
    spawner code and time it is given. *)
Theorem probe_answer_is_recorded m x y t now w m' t' now' :
  let '(b, w1) := isSpawnerActive m x y t now w in
  isSpawnerActive m' x y t' now' w1 = (b, w1).
Proof.
  pose proof (isSpawnerActive_spec m x y t now w) as H.
  destruct (isSpawnerActive m x y t now w) as [b w1].
  destruct H as (Hrec & _). unfold isSpawnerActive. now rewrite Hrec.
Qed.

(** X13. A call of [checkAndHandleStuckEnemy] for one enemy touches no
    record of another enemy and nothing else of the world but the timers,
    to which it adds at most the one that clears the escape heading of this
    enemy after 1500 ms; after the call the enemy has a record, and it is
    reported stuck exactly when an escape vector is returned. *)
Theorem stuck_check_touches_one_record enemy now cosA sinA w :
  let '(status, w') := checkAndHandleStuckEnemy enemy now cosA sinA w in
  (forall other, other <> EnemyConfig.id enemy ->
     lastEnemyPositions w' !! other = lastEnemyPositions w !! other)
  /\ is_Some (lastEnemyPositions w' !! EnemyConfig.id enemy)
  /\ (isStuck status = true <-> is_Some (escapeVector status))
  /\ (timers w' = timers w
      \/ timers w'
         = timers w ++ [mkTimer 1500 (ClearRandomDirection (EnemyConfig.id enemy))])
  /\ set_timers (timers w) (set_lastEnemyPositions (lastEnemyPositions w) w')
     = w.
Proof.
  unfold checkAndHandleStuckEnemy.
  destruct (lastEnemyPositions w !! EnemyConfig.id enemy) as [r|] eqn:Er.
  - cbv zeta.
    destruct (dist_gtb _ _ _);
      [|destruct (1000 <? now - StuckRecord.timeStuck r);
        [destruct (StuckRecord.randomDirection r)|]]; fields.
    + split; [intros other Hne; now apply lookup_insert_ne|].
      split; [rewrite lookup_insert_eq; eauto|].
      split; [split; [discriminate | intros [? [=]]]|].
      split; [now left | (destruct w; reflexivity)].
    + split; [reflexivity|]. split; [rewrite Er; eauto|].
      split; [split; eauto|]. split; [now left|(destruct w; reflexivity)].
    + split; [intros other Hne; now apply lookup_insert_ne|].
      split; [rewrite lookup_insert_eq; eauto|].
      split; [split; eauto|]. split; [now right | (destruct w; reflexivity)].
    + split; [intros other Hne; now apply lookup_insert_ne|].
      split; [rewrite lookup_insert_eq; eauto|].
      split; [split; [discriminate | intros [? [=]]]|].
      split; [now left | (destruct w; reflexivity)].
  - fields.
    split; [intros other Hne; now apply lookup_insert_ne|].
    split; [rewrite lookup_insert_eq; eauto|].
    split; [split; [discriminate | intros [? [=]]]|].
    split; [now left | (destruct w; reflexivity)].
Qed.

(** ** Start of the spawners and reload of their health *)

Lemma tileAt_lookup (m : Grid) (x y : Z) (c : ascii) :
  tileAt m x y = Some c <->
  exists (j i : nat) row,
    m !! j = Some row /\ row !! i = Some c /\ x = Z.of_nat i /\ y = Z.of_nat j.
Proof.
  split.
  - intros H. destruct (tileAt_Some_range _ _ _ _ H) as (Hx & Hy & row & Hr & Hc).
    exists (Z.to_nat y), (Z.to_nat x), row. repeat split; auto; lia.
  - intros (j & i & row & Hr & Hc & -> & ->). unfold tileAt.
    destruct (Z.ltb_spec (Z.of_nat i) 0); [lia|].
    destruct (Z.ltb_spec (Z.of_nat j) 0); [lia|]. cbn [orb].
    now rewrite !Nat2Z.id, Hr.
Qed.

Lemma collectRow_elem (y : Z) (row : list ascii) :
  forall (x0 : nat) found c,
    (c ∈ fst (collectRow x0 y row found) <->
     c ∈ fst found \/
     exists i : nat, row !! i = Some "G"%char /\ c = (Z.of_nat (x0 + i), y))
    /\ (c ∈ snd (collectRow x0 y row found) <->
        c ∈ snd found \/
        exists i : nat, row !! i = Some "B"%char /\ c = (Z.of_nat (x0 + i), y)).
Proof.
  induction row as [|t rest IH]; intros x0 [gs bs] c; cbn [collectRow fst snd].
  - split; (split; [now left | intros [H|(i & Hi & _)]; [exact H | discriminate]]).
  - destruct (IH (S x0)
                (if Ascii.eqb t "G" then gs ++ [(Z.of_nat x0, y)] else gs,
                 if Ascii.eqb t "B" then bs ++ [(Z.of_nat x0, y)] else bs) c)
      as [IHg IHb].
    cbn [fst snd] in IHg, IHb. split.
    + rewrite IHg. split.
      * intros [H|(i & Hi & ->)].
        -- destruct (Ascii.eqb_spec t "G"); [|now left].
           apply elem_of_app in H. destruct H as [H|H]; [now left|].
           apply list_elem_of_singleton in H. right. exists 0%nat. subst t.
           split; [reflexivity|]. rewrite H. f_equal. lia.
        -- right. exists (S i). split; [exact Hi|]. f_equal. lia.
      * intros [H|(i & Hi & ->)].
        -- left. destruct (Ascii.eqb t "G"); [|exact H].
           apply elem_of_app. now left.
        -- destruct i as [|i].
           ++ cbn in Hi. injection Hi as ->. left. cbn [Ascii.eqb].
              apply elem_of_app. right. apply list_elem_of_singleton.
              f_equal. lia.
           ++ right. exists i. split; [exact Hi|]. f_equal. lia.
    + rewrite IHb. split.
      * intros [H|(i & Hi & ->)].
        -- destruct (Ascii.eqb_spec t "B"); [|now left].
           apply elem_of_app in H. destruct H as [H|H]; [now left|].
           apply list_elem_of_singleton in H. right. exists 0%nat. subst t.
           split; [reflexivity|]. rewrite H. f_equal. lia.
        -- right. exists (S i). split; [exact Hi|]. f_equal. lia.
      * intros [H|(i & Hi & ->)].
        -- left. destruct (Ascii.eqb t "B"); [|exact H].
           apply elem_of_app. now left.
        -- destruct i as [|i].
           ++ cbn in Hi. injection Hi as ->. left. cbn [Ascii.eqb].
              apply elem_of_app. right. apply list_elem_of_singleton.
              f_equal. lia.
           ++ right. exists i. split; [exact Hi|]. f_equal. lia.
Qed.

Lemma collectRows_elem (rows : Grid) :
  forall (y0 : nat) found c,
    (c ∈ fst (collectRows y0 rows found) <->
     c ∈ fst found \/
     exists (j i : nat) row,
       rows !! j = Some row /\ row !! i = Some "G"%char
       /\ c = (Z.of_nat i, Z.of_nat (y0 + j)))
    /\ (c ∈ snd (collectRows y0 rows found) <->
        c ∈ snd found \/
        exists (j i : nat) row,
          rows !! j = Some row /\ row !! i = Some "B"%char
          /\ c = (Z.of_nat i, Z.of_nat (y0 + j))).
Proof.
  induction rows as [|row rest IH]; intros y0 found c; cbn [collectRows].
  - split; (split; [now left | intros [H|(j & i & r & Hj & _)];
                                 [exact H | discriminate]]).
  - destruct (IH (S y0) (collectRow 0 (Z.of_nat y0) row found) c) as [IHg IHb].
    destruct (collectRow_elem (Z.of_nat y0) row 0 found c) as [Rg Rb].
    split.
    + rewrite IHg, Rg. split.
      * intros [[H|(i & Hi & ->)]|(j & i & r & Hj & Hi & ->)].
        -- now left.
        -- right. exists 0%nat, i, row. split; [reflexivity|].
           split; [exact Hi|]. f_equal; f_equal; lia.
        -- right. exists (S j), i, r. split; [exact Hj|].
           split; [exact Hi|]. f_equal; f_equal; lia.
      * intros [H|(j & i & r & Hj & Hi & ->)]; [left; now left|].
        destruct j as [|j].
        -- cbn in Hj. injection Hj as ->. left. right. exists i.
           split; [exact Hi|]. f_equal; f_equal; lia.
        -- right. exists j, i, r. split; [exact Hj|].
           split; [exact Hi|]. f_equal; f_equal; lia.
    + rewrite IHb, Rb. split.
      * intros [[H|(i & Hi & ->)]|(j & i & r & Hj & Hi & ->)].
        -- now left.
        -- right. exists 0%nat, i, row. split; [reflexivity|].
           split; [exact Hi|]. f_equal; f_equal; lia.
        -- right. exists (S j), i, r. split; [exact Hj|].
           split; [exact Hi|]. f_equal; f_equal; lia.
      * intros [H|(j & i & r & Hj & Hi & ->)]; [left; now left|].
        destruct j as [|j].
        -- cbn in Hj. injection Hj as ->. left. right. exists i.
           split; [exact Hi|]. f_equal; f_equal; lia.
        -- right. exists j, i, r. split; [exact Hj|].
           split; [exact Hi|]. f_equal; f_equal; lia.
Qed.

(** The cells collected from a grid are its [G] cells and its [B] cells. *)
Lemma collected_cells (m : Grid) (c : Z * Z) :
  (c ∈ fst (collectRows 0 m ([], [])) <->
   tileAt m (fst c) (snd c) = Some "G"%char)
  /\ (c ∈ snd (collectRows 0 m ([], [])) <->
      tileAt m (fst c) (snd c) = Some "B"%char).
Proof.
  destruct (collectRows_elem m 0 ([], []) c) as [Hg Hb]. destruct c as [x y].
  cbn [fst snd] in *. rewrite Hg, Hb, !tileAt_lookup. split.
  - split.
    + intros [H|(j & i & r & Hj & Hi & [= -> ->])]; [inversion H|].
      exists j, i, r. repeat split; auto.
    + intros (j & i & r & Hj & Hi & -> & ->). right. exists j, i, r.
      repeat split; auto.
  - split.
    + intros [H|(j & i & r & Hj & Hi & [= -> ->])]; [inversion H|].
      exists j, i, r. repeat split; auto.
    + intros (j & i & r & Hj & Hi & -> & ->). right. exists j, i, r.
      repeat split; auto.
Qed.

Lemma switchOn_all now (l : list (Z * Z)) :
  forall w,
    let w' := fold_left (switchOn now) l w in
    (forall key, key ∈ l -> spawnerActive w' !! key = Some true)
    /\ (forall key, key ∉ l -> spawnerActive w' !! key = spawnerActive w !! key)
    /\ gameState w' = gameState w /\ gameProgress w' = gameProgress w
    /\ spawnerHealth w' = spawnerHealth w
    /\ lastGhostSpawnTimes w' = lastGhostSpawnTimes w
    /\ lastGruntSpawnTimes w' = lastGruntSpawnTimes w
    /\ timers w' = timers w /\ console w' = console w.
Proof.
  induction l as [|[x y] l IH]; intros w; cbn [fold_left].
  - repeat split; auto. intros key H. inversion H.
  - destruct (IH (switchOn now w (x, y)))
      as (I1 & I2 & I3 & I4 & I5 & I6 & I7 & I8 & I9).
    cbv zeta in *. split; [|split; [|repeat split; assumption]].
    + intros key Hin. destruct (decide (key ∈ l)) as [Hl|Hl]; [now apply I1|].
      rewrite (I2 key Hl). apply elem_of_cons in Hin.
      destruct Hin as [->|Hin]; [|contradiction].
      unfold switchOn, getSpawnerKey. cbn. apply lookup_insert_eq.
    + intros key Hnot. apply not_elem_of_cons in Hnot. destruct Hnot as [Hne Hnot].
      rewrite (I2 key Hnot). unfold switchOn, getSpawnerKey. cbn.
      now apply lookup_insert_ne.
Qed.

Lemma scheduleFrom_all cb first gap (l : list (Z * Z)) :
  forall index w,
    let w' := scheduleFrom cb first gap index l w in
    timers w'
    = timers w ++
      imap (fun i c => mkTimer (first + Z.of_nat (index + i) * gap)
                         (cb (fst c) (snd c))) l
    /\ gameState w' = gameState w /\ gameProgress w' = gameProgress w
    /\ spawnerHealth w' = spawnerHealth w
    /\ spawnerActive w' = spawnerActive w
    /\ lastGhostSpawnTimes w' = lastGhostSpawnTimes w
    /\ lastGruntSpawnTimes w' = lastGruntSpawnTimes w
    /\ console w' = console w.
Proof.
  induction l as [|c0 l IH]; intros index w; cbn [scheduleFrom].
  - cbn [imap]. rewrite app_nil_r. repeat split; reflexivity.
  - destruct (IH (S index)
                (setTimeout (cb (fst c0) (snd c0))
                   (first + Z.of_nat index * gap) w))
      as (I1 & I2 & I3 & I4 & I5 & I6 & I7 & I8).
    cbv zeta in *. split; [|repeat split; assumption].
    rewrite I1. cbn [setTimeout timers set_timers imap].
    rewrite <- app_assoc. cbn [app]. f_equal. f_equal.
    + now rewrite Nat.add_0_r.
    + apply imap_ext. intros i c Hc. cbn.
      now replace (S (index + i)) with (index + S i)%nat by lia.
Qed.

Lemma initializeSpawners_facts closureMap now w :
  let w' := initializeSpawners closureMap now w in
  (forall x y, isSpawnerCode (tileAt closureMap x y) = true ->
     spawnerActive w' !! (x, y) = Some true)
  /\ (forall x y, isSpawnerCode (tileAt closureMap x y) = false ->
        spawnerActive w' !! (x, y) = spawnerActive w !! (x, y))
  /\ (exists gruntSpawners ghostSpawners,
        (forall c, c ∈ gruntSpawners <->
                   tileAt closureMap (fst c) (snd c) = Some "G"%char)
        /\ (forall c, c ∈ ghostSpawners <->
                      tileAt closureMap (fst c) (snd c) = Some "B"%char)
        /\ timers w'
           = timers w
             ++ imap (fun i c =>
                        mkTimer (1000 + Z.of_nat i * 1000)
                          (RespawnGrunt closureMap (fst c) (snd c)))
                  gruntSpawners
             ++ imap (fun i c =>
                        mkTimer (2000 + Z.of_nat i * 2500)
                          (RespawnGhost closureMap (fst c) (snd c)))
                  ghostSpawners)
  /\ gameState w' = gameState w
  /\ spawnerHealth w' = spawnerHealth w
  /\ lastGhostSpawnTimes w' = lastGhostSpawnTimes w
  /\ lastGruntSpawnTimes w' = lastGruntSpawnTimes w.
Proof.
  cbv zeta. unfold initializeSpawners.
  pose proof (collected_cells closureMap) as Hcells.
  destruct (collectRows 0 closureMap ([], [])) as [grunts ghosts].
  cbn [fst snd] in Hcells.
  destruct (switchOn_all now grunts w)
    as (A1 & A2 & A3 & A4 & A5 & A6 & A7 & A8 & A9).
  destruct (switchOn_all now ghosts (fold_left (switchOn now) grunts w))
    as (B1 & B2 & B3 & B4 & B5 & B6 & B7 & B8 & B9).
  destruct (scheduleFrom_all (RespawnGrunt closureMap) 1000 1000 grunts 0
              (fold_left (switchOn now) ghosts
                 (fold_left (switchOn now) grunts w)))
    as (C1 & C2 & C3 & C4 & C5 & C6 & C7 & C8).
  destruct (scheduleFrom_all (RespawnGhost closureMap) 2000 2500 ghosts 0
              (scheduleFrom (RespawnGrunt closureMap) 1000 1000 0 grunts
                 (fold_left (switchOn now) ghosts
                    (fold_left (switchOn now) grunts w))))
    as (D1 & D2 & D3 & D4 & D5 & D6 & D7 & D8).
  cbv zeta in *.
  split; [|split; [|split; [|repeat split; congruence]]].
  - intros x y Hcode. rewrite D5, C5.
    destruct (isSpawnerCode_Some _ Hcode) as (c & Et & [-> | ->]).
    + apply B1. now apply (proj2 (Hcells (x, y))).
    + destruct (decide ((x, y) ∈ ghosts)) as [Hin|Hout]; [now apply B1|].
      rewrite (B2 _ Hout). apply A1. now apply (proj1 (Hcells (x, y))).
  - intros x y Hcode. rewrite D5, C5.
    assert (Hg : (x, y) ∉ grunts).
    { intros Hin. apply (proj1 (Hcells (x, y))) in Hin. cbn [fst snd] in Hin.
      rewrite Hin in Hcode. discriminate. }
    assert (Hb : (x, y) ∉ ghosts).
    { intros Hin. apply (proj2 (Hcells (x, y))) in Hin. cbn [fst snd] in Hin.
      rewrite Hin in Hcode. discriminate. }
    now rewrite (B2 _ Hb), (A2 _ Hg).
  - exists grunts, ghosts.
    split; [intros c; apply (proj1 (Hcells c))|].
    split; [intros c; apply (proj2 (Hcells c))|].
    rewrite D1, C1, B8, A8, <- app_assoc. reflexivity.
Qed.


(** X14. The start of the spawners switches the tracker on for every [G]
    and [B] cell of the grid it reads and for no other cell, and appends to
    the timers one start of the spawn cycle per collected cell: the grunt
    cells first, 1000 ms plus one second per position in the list, then the
    ghost cells, 2000 ms plus 2.5 seconds per position. The grid, the
    spawner health, the spawn times and the enemies are left as they are. *)
Theorem start_switches_on_every_spawner closureMap now w :
  let w' := initializeSpawners closureMap now w in
  (forall x y, isSpawnerCode (tileAt closureMap x y) = true ->
     spawnerActive w' !! (x, y) = Some true)
  /\ (forall x y, isSpawnerCode (tileAt closureMap x y) = false ->
        spawnerActive w' !! (x, y) = spawnerActive w !! (x, y))
  /\ (exists gruntSpawners ghostSpawners,
        (forall c, c ∈ gruntSpawners <->
                   tileAt closureMap (fst c) (snd c) = Some "G"%char)
        /\ (forall c, c ∈ ghostSpawners <->
                      tileAt closureMap (fst c) (snd c) = Some "B"%char)
        /\ timers w'
           = timers w
             ++ imap (fun i c =>
                        mkTimer (1000 + Z.of_nat i * 1000)
                          (RespawnGrunt closureMap (fst c) (snd c)))
                  gruntSpawners
             ++ imap (fun i c =>
                        mkTimer (2000 + Z.of_nat i * 2500)
                          (RespawnGhost closureMap (fst c) (snd c)))
                  ghostSpawners)
  /\ gameState w' = gameState w
  /\ spawnerHealth w' = spawnerHealth w
  /\ lastGhostSpawnTimes w' = lastGhostSpawnTimes w
  /\ lastGruntSpawnTimes w' = lastGruntSpawnTimes w.
Proof. apply initializeSpawners_facts. Qed.

(** X15. The start of the spawners does not bring a destroyed spawner
    back: a cell that is destroyed stays destroyed when the effect runs on
    a grid that holds no spawner code at that cell, as the grid of the world
    itself does. *)
Theorem start_leaves_destroyed_cells key closureMap now w :
  destroyed key w ->
  isSpawnerCode (tileAt closureMap (fst key) (snd key)) = false ->
  destroyed key (initializeSpawners closureMap now w)
  /\ destroyed key (initializeSpawners (levelMap w) now w).
Proof.
  intros Hd Hfree.
  assert (Hany : forall m,
             isSpawnerCode (tileAt m (fst key) (snd key)) = false ->
             destroyed key (initializeSpawners m now w)).
  { intros m Hm.
    destruct (initializeSpawners_facts m now w)
      as (_ & S2 & _ & S4 & S5 & S6 & S7).
    destruct key as [x y]. cbn [fst snd] in *.
    destruct Hd as [Ha Ht Hz Hg Hr]. split.
    - now rewrite (S2 x y Hm).
    - unfold levelMap in *. now rewrite S4.
    - now rewrite S5.
    - now rewrite S6.
    - now rewrite S7. }
  split; [now apply Hany|]. apply Hany.
  now rewrite (destroyed_tile _ _ Hd).
Qed.

Lemma start_leaves_destroyed_cells_witness :
  destroyed (2, 1) (initializeSpawners clearedRoom 5000 clearedWorld).
Proof.
  apply (start_leaves_destroyed_cells (2, 1) clearedRoom 5000 clearedWorld).
  - split; try reflexivity. intros h Hh. vm_compute in Hh. discriminate.
  - reflexivity.
Defined.

(** Run on the grid of an earlier render, in which the bone pile still
    stands, the effect switches the tracker of the destroyed cell back on. *)
Example start_on_a_stale_grid_switches_back_on :
  spawnerActive (initializeSpawners bonePileRoom 5000 clearedWorld) !! (2, 1)
  = Some true.
Proof. vm_compute. reflexivity. Qed.

Lemma scanRow_keeps (y : Z) (row : list ascii) :
  forall (x : nat) acc key,
    acc !! key = Some initialSpawnerHealth ->
    scanRow x y row acc !! key = Some initialSpawnerHealth.
Proof.
  induction row as [|t rest IH]; intros x acc key H; [exact H|].
  cbn [scanRow]. apply IH.
  destruct (Ascii.eqb t "B"); [|destruct (Ascii.eqb t "G"); [|exact H]];
    (destruct (decide (key = getSpawnerKey (Z.of_nat x) y)) as [->|Hne];
     [apply lookup_insert_eq | now rewrite lookup_insert_ne]).
Qed.

Lemma scanRow_hit (y : Z) (row : list ascii) :
  forall (x i : nat) acc c,
    row !! i = Some c -> isSpawnerCode (Some c) = true ->
    scanRow x y row acc !! (Z.of_nat (x + i), y) = Some initialSpawnerHealth.
Proof.
  induction row as [|t rest IH]; intros x i acc c Hi Hc; [discriminate|].
  cbn [scanRow]. destruct i as [|i].
  - cbn in Hi. injection Hi as ->. apply scanRow_keeps.
    rewrite Nat.add_0_r. unfold getSpawnerKey. cbn in Hc.
    destruct (Ascii.eqb c "B"); [apply lookup_insert_eq|].
    cbn in Hc. rewrite Hc. apply lookup_insert_eq.
  - replace (x + S i)%nat with (S x + i)%nat by lia.
    now apply (IH (S x) i _ c).
Qed.

Lemma scanRows_keeps (rows : Grid) :
  forall (y : nat) acc key,
    acc !! key = Some initialSpawnerHealth ->
    scanRows y rows acc !! key = Some initialSpawnerHealth.
Proof.
  induction rows as [|row rest IH]; intros y acc key H; [exact H|].
  cbn [scanRows]. apply IH. now apply scanRow_keeps.
Qed.

Lemma scanRows_hit (rows : Grid) :
  forall (y j i : nat) acc row c,
    rows !! j = Some row -> row !! i = Some c ->
    isSpawnerCode (Some c) = true ->
    scanRows y rows acc !! (Z.of_nat i, Z.of_nat (y + j))
    = Some initialSpawnerHealth.
Proof.
  induction rows as [|r rest IH]; intros y j i acc row c Hj Hi Hc;
    [discriminate|].
  cbn [scanRows]. destruct j as [|j].
  - cbn in Hj. injection Hj as ->. apply scanRows_keeps.
    rewrite Nat.add_0_r. apply (scanRow_hit _ _ 0%nat i _ c Hi Hc).
  - replace (y + S j)%nat with (S y + j)%nat by lia.
    now apply (IH (S y) j i _ row c).
Qed.

(** X16. The reload of the spawner health builds the table from the grid
    alone: a cell holds 20 when the grid has a [B] or a [G] there and has
    no entry otherwise, whatever the table held before. *)
Theorem reload_gives_every_spawner_twenty w x y :
  spawnerHealth (reloadSpawnerHealth w) !! (x, y)
  = if isSpawnerCode (tileAt (levelMap w) x y) then Some 20 else None.
Proof.
  destruct (isSpawnerCode (tileAt (levelMap w) x y)) eqn:Ec.
  - destruct (isSpawnerCode_Some _ Ec) as (c & Et & Hc).
    apply tileAt_lookup in Et. destruct Et as (j & i & row & Hj & Hi & -> & ->).
    unfold reloadSpawnerHealth. cbn [spawnerHealth set_spawnerHealth].
    apply (scanRows_hit _ 0%nat j i ∅ row c Hj Hi).
    destruct Hc as [-> | ->]; reflexivity.
  - now apply reload_no_spawner.
Qed.

(** ** Walkable positions *)

Lemma tileAt_rewrite_cases (m : Grid) (x y x' y' : Z) :
  tileAt (rewriteToFloor m x y) x' y' = tileAt m x' y'
  \/ tileAt (rewriteToFloor m x y) x' y' = Some "."%char.
Proof.
  unfold rewriteToFloor. destruct (m !! Z.to_nat y) as [row|] eqn:Er; [|now left].
  unfold tileAt. destruct ((x' <? 0) || (y' <? 0)); [now left|].
  destruct (decide (Z.to_nat y = Z.to_nat y')) as [Ey|Ey].
  - rewrite <- Ey, Er.
    rewrite list_lookup_insert_eq by (eapply lookup_lt_Some; eauto).
    destruct (decide (Z.to_nat x = Z.to_nat x')) as [Ex|Ex].
    + rewrite <- Ex. destruct (row !! Z.to_nat x) as [c|] eqn:Ec.
      * right. apply list_lookup_insert_eq. eapply lookup_lt_Some; eauto.
      * left. apply lookup_ge_None. rewrite length_insert.
        now apply lookup_ge_None.
    + left. now apply list_lookup_insert_ne.
  - left. now rewrite list_lookup_insert_ne.
Qed.

Lemma blocksWalking_rewrite (m : Grid) (x y : Z) (point : Vector2.t) :
  blocksWalking (tileUnder m point) = false ->
  blocksWalking (tileUnder (rewriteToFloor m x y) point) = false.
Proof.
  unfold tileUnder. intros H.
  destruct (tileAt_rewrite_cases m x y
              (Math_floor (Vector2.x point / TILE_SIZE))
              (Math_floor (Vector2.y point / TILE_SIZE))) as [-> | ->];
    [exact H | reflexivity].
Qed.

Lemma existsb_false_impl {A : Type} (f g : A -> bool) (l : list A) :
  (forall a, f a = false -> g a = false) ->
  existsb f l = false -> existsb g l = false.
Proof.
  intros Himp. induction l as [|a l IH]; [reflexivity|]. cbn [existsb].
  intros H. apply orb_false_iff in H. destruct H as [H1 H2].
  now rewrite (Himp a H1), IH.
Qed.

Lemma doorBlocks_opened (x y : number) (doors doors' : list DoorConfig.t) :
  openedSince doors doors' ->
  existsb (doorBlocks x y) doors = false ->
  existsb (doorBlocks x y) doors' = false.
Proof.
  induction 1 as [|d d' doors doors' [Hpos Hopen] _ IH]; [reflexivity|].
  cbn [existsb]. intros H. apply orb_false_iff in H. destruct H as [H1 H2].
  rewrite (IH H2), orb_false_r. unfold doorBlocks in *. rewrite Hpos.
  destruct (DoorConfig.isOpen d); [now rewrite Hopen|].
  cbn [negb andb] in H1. rewrite <- !andb_assoc in *.
  rewrite H1. apply andb_false_r.
Qed.

Lemma isWalkablePosition_true (map : Grid) (doors : list DoorConfig.t)
    (x y : number) :
  isWalkablePosition map doors x y = true <->
  (Qltb x 0 || Qltb y 0 || Qle_bool (CANVAS_WIDTH - playerSize) x
   || Qle_bool (CANVAS_HEIGHT - playerSize) y) = false
  /\ existsb (fun point => blocksWalking (tileUnder map point))
       (checkPoints x y) = false
  /\ existsb (doorBlocks x y) doors = false.
Proof.
  unfold isWalkablePosition.
  destruct (Qltb x 0 || Qltb y 0 || Qle_bool (CANVAS_WIDTH - playerSize) x
            || Qle_bool (CANVAS_HEIGHT - playerSize) y);
    [split; [discriminate | intros [? _]; discriminate]|].
  destruct (existsb (fun point => blocksWalking (tileUnder map point)) _);
    [split; [discriminate | intros (_ & ? & _); discriminate]|].
  destruct (existsb (doorBlocks x y) doors);
    [split; [discriminate | intros (_ & _ & ?); discriminate]|].
  split; auto.
Qed.

(** X17. What was walkable stays walkable when a spawner cell is rewritten
    to floor and when doors are opened: a position that is walkable on a
    grid with a list of doors is walkable on the grid with any one cell
    rewritten to floor and with any of the doors opened since. *)
Theorem walkable_stays_walkable (map : Grid) (doors doors' : list DoorConfig.t)
    (tileX tileY : Z) (x y : number) :
  isWalkablePosition map doors x y = true ->
  openedSince doors doors' ->
  isWalkablePosition (rewriteToFloor map tileX tileY) doors' x y = true.
Proof.
  intros H Hopen. apply isWalkablePosition_true in H.
  destruct H as (Hb & Ht & Hd). apply isWalkablePosition_true.
  split; [exact Hb|]. split.
  - revert Ht. apply existsb_false_impl. intros point.
    apply blocksWalking_rewrite.
  - now apply (doorBlocks_opened x y doors doors').
Qed.

Lemma walkable_stays_walkable_witness :
  isWalkablePosition (rewriteToFloor twoPiles 2 1)
    [DoorConfig.mk 0 (Vector2.mk 96 96) true] 29 61 = true.
Proof.
  apply (walkable_stays_walkable twoPiles
           [DoorConfig.mk 0 (Vector2.mk 96 96) false]
           [DoorConfig.mk 0 (Vector2.mk 96 96) true] 2 1 29 61).
  - vm_compute. reflexivity.
  - constructor; [split; auto | constructor].
Defined.

Lemma centreTile_bounds (p : Q) :
  (inject_Z (centreTile p TILE_SIZE) * 32 - 16 <= p)%Q
  /\ (p < inject_Z (centreTile p TILE_SIZE) * 32 + 16)%Q.
Proof.
  assert (Ht : (0 < TILE_SIZE)%Q) by reflexivity.
  destruct (floor_div_bounds (p + TILE_SIZE / 2) TILE_SIZE Ht) as [X1 X2].
  fold (centreTile p TILE_SIZE) in X1, X2.
  set (k := inject_Z (centreTile p TILE_SIZE)) in *.
  assert (E : (TILE_SIZE / 2 == 16)%Q) by reflexivity.
  rewrite E in X1, X2. unfold TILE_SIZE in *. split; lra.
Qed.

(** A position whose centre tile is the tile of a closed door of the list
    is not walkable, whatever the grid holds. *)
Lemma closed_door_blocks (map : Grid)
    (doors : list DoorConfig.t) (door : DoorConfig.t) (x y : number) :
  door ∈ doors ->
  DoorConfig.isOpen door = false ->
  doorOnTile door (centreTile x TILE_SIZE, centreTile y TILE_SIZE) ->
  isWalkablePosition map doors x y = false.
Proof.
  intros Hin Hclosed [Hx Hy]. cbn [fst snd] in Hx, Hy.
  apply not_true_is_false. intros H. apply isWalkablePosition_true in H.
  destruct H as (_ & _ & Hd).
  assert (Hblock : doorBlocks x y door = true).
  { unfold doorBlocks. rewrite Hclosed. cbn [negb andb].
    destruct (centreTile_bounds x) as [X1 X2].
    destruct (centreTile_bounds y) as [Y1 Y2].
    unfold TILE_SIZE in *.
    repeat (apply andb_true_iff; split); apply Qltb_lt; lra. }
  assert (Hex : existsb (doorBlocks x y) doors = true).
  { apply existsb_exists. exists door. split; [|exact Hblock].
    now apply list_elem_of_In. }
  congruence.
Qed.

Example position_on_a_closed_door :
  isWalkablePosition openRoom [doorAt21] 60 30 = false
  /\ isWalkablePosition openRoom [] 60 30 = true.
Proof. split; vm_compute; reflexivity. Qed.

(** ** The player's movement and the camera *)

Lemma Math_min_le_r (a b : number) : (Math_min a b <= b)%Q.
Proof.
  unfold Math_min. destruct (Qle_bool a b) eqn:E.
  - now apply Qle_bool_iff.
  - apply Qle_refl.
Qed.

Lemma Math_max_0_le_bound (a b : number) :
  (0 <= b)%Q -> (a <= b)%Q -> (Math_max 0 a <= b)%Q.
Proof.
  intros Hb Ha. unfold Math_max. destruct (Qle_bool 0 a); assumption.
Qed.

(** X18. The camera never leaves the canvas: wherever the player is, the
    position that [updateCameraPosition] writes to the camera ref lies
    between 0 and the canvas size less the viewport size on both axes. The
    camera state is written at most once in 33 ms: it either keeps its
    value, the new position waiting as the pending update, or takes the
    value of the ref, and then at least 33 ms have passed since the last
    write and the time of the last write becomes [now]. *)
Theorem camera_stays_on_the_canvas (now : Z) (playerX playerY : number)
    (cam : Camera.t) :
  let cam' := updateCameraPosition now playerX playerY cam in
  (0 <= Vector2.x (Camera.cameraPositionRef cam')
   <= CANVAS_WIDTH - VIEWPORT_WIDTH)%Q
  /\ (0 <= Vector2.y (Camera.cameraPositionRef cam')
      <= CANVAS_HEIGHT - VIEWPORT_HEIGHT)%Q
  /\ ((Camera.cameraPosition cam' = Camera.cameraPosition cam
       /\ Camera.pendingCameraUpdate cam' = Some (Camera.cameraPositionRef cam')
       /\ Camera.lastCameraUpdate cam' = Camera.lastCameraUpdate cam
       /\ now - Camera.lastCameraUpdate cam < 33)
      \/ (Camera.cameraPosition cam' = Camera.cameraPositionRef cam'
          /\ Camera.pendingCameraUpdate cam' = None
          /\ Camera.lastCameraUpdate cam' = now
          /\ 33 <= now - Camera.lastCameraUpdate cam)).
Proof.
  cbv zeta. unfold updateCameraPosition. cbv zeta.
  assert (Hx : (0 <= Math_max 0 (Math_min (playerX - VIEWPORT_WIDTH / 2)
                                    (CANVAS_WIDTH - VIEWPORT_WIDTH))
                <= CANVAS_WIDTH - VIEWPORT_WIDTH)%Q).
  { split; [apply Math_max_0_nonneg|].
    apply Math_max_0_le_bound; [discriminate | apply Math_min_le_r]. }
  assert (Hy : (0 <= Math_max 0 (Math_min (playerY - VIEWPORT_HEIGHT / 2)
                                    (CANVAS_HEIGHT - VIEWPORT_HEIGHT))
                <= CANVAS_HEIGHT - VIEWPORT_HEIGHT)%Q).
  { split; [apply Math_max_0_nonneg|].
    apply Math_max_0_le_bound; [discriminate | apply Math_min_le_r]. }
  destruct (Z.ltb_spec (now - Camera.lastCameraUpdate cam) 33);
    cbn [Camera.cameraPositionRef Camera.cameraPosition
         Camera.pendingCameraUpdate Camera.lastCameraUpdate Vector2.x Vector2.y];
    (split; [exact Hx|]; split; [exact Hy|]); [left | right];
    repeat split; auto.
Qed.

(** X19. The game loop catches the camera up: after [updateCameraPosition]
    at time [now] and the end of a frame at time [later], either the camera
    state shows the position of the ref and nothing is pending, or the state
    still has its old value, the new position is pending, and both [now]
    and [later] are less than 33 ms after the last write. *)
Theorem pending_camera_is_applied (now later : Z) (playerX playerY : number)
    (cam : Camera.t) :
  let cam' := updateCameraPosition now playerX playerY cam in
  let shown := applyPendingCamera later cam' in
  Camera.cameraPositionRef shown = Camera.cameraPositionRef cam'
  /\ ((Camera.cameraPosition shown = Camera.cameraPositionRef cam'
       /\ Camera.pendingCameraUpdate shown = None)
      \/ (Camera.cameraPosition shown = Camera.cameraPosition cam
          /\ Camera.pendingCameraUpdate shown
             = Some (Camera.cameraPositionRef cam')
          /\ now - Camera.lastCameraUpdate cam < 33
          /\ later - Camera.lastCameraUpdate cam < 33)).
Proof.
  cbv zeta. unfold applyPendingCamera, updateCameraPosition. cbv zeta.
  destruct (Z.ltb_spec (now - Camera.lastCameraUpdate cam) 33) as [Hn|Hn];
    cbn [Camera.cameraPositionRef Camera.cameraPosition
         Camera.pendingCameraUpdate Camera.lastCameraUpdate].
  - destruct (Z.leb_spec 33 (later - Camera.lastCameraUpdate cam)) as [Hl|Hl];
      cbn [Camera.cameraPositionRef Camera.cameraPosition
           Camera.pendingCameraUpdate Camera.lastCameraUpdate].
    + split; [reflexivity | left; split; reflexivity].
    + split; [reflexivity | right; repeat split; auto].
  - split; [reflexivity | left; split; reflexivity].
Qed.

(** X20. The movement never puts the player on a position that is not
    walkable: after [updateMovement] either the player stands where it
    stood and the camera is untouched, or it stands on a position that
    [isWalkablePosition] accepts on the grid and doors of the callback, it
    is moving with the walk animation, and the camera has been sent after
    it. Health, maximum health, score and hit flash are never touched. The
    proof does not look at the value of the square root. *)
Theorem movement_keeps_to_walkable_positions (Math_sqrt : number -> number)
    (closureProgress : GameProgress.t) (closureDirection : Direction)
    (closureMap : Grid) (closureDoors : list DoorConfig.t)
    (keysPressed : gset string) (deltaTime : number) (now : Z)
    (p : Player.t) (cam : Camera.t) :
  let '(p', cam') :=
    updateMovement Math_sqrt closureProgress closureDirection closureMap
      closureDoors keysPressed deltaTime now (p, cam) in
  ((Player.position p' = Player.position p /\ cam' = cam)
   \/ (isWalkablePosition closureMap closureDoors
         (Vector2.x (Player.position p')) (Vector2.y (Player.position p'))
       = true
       /\ Player.isMoving p' = true /\ Player.animation p' = walk
       /\ cam' = updateCameraPosition now (Vector2.x (Player.position p'))
                   (Vector2.y (Player.position p')) cam))
  /\ Player.health p' = Player.health p
  /\ Player.maxHealth p' = Player.maxHealth p
  /\ Player.score p' = Player.score p
  /\ Player.hitFlash p' = Player.hitFlash p.
Proof.
  unfold updateMovement.
  destruct (bool_decide (size keysPressed = 0%nat));
    [split; [left; split; reflexivity | repeat split]|].
  cbv zeta.
  match goal with
  | |- context [if Qeq_bool ?dx 0 && Qeq_bool ?dy 0 then _ else _] =>
      set (deltaX := dx); set (deltaY := dy)
  end.
  destruct (Qeq_bool deltaX 0 && Qeq_bool deltaY 0);
    [split; [left; split; reflexivity | repeat split]|].
  destruct (isWalkablePosition closureMap closureDoors
              (Vector2.x (Player.position p) + deltaX)
              (Vector2.y (Player.position p) + deltaY)) eqn:E1.
  { split; [right | repeat split]. cbn. repeat split; auto. }
  destruct (negb (Qeq_bool deltaX 0) && negb (Qeq_bool deltaY 0)); cbn [andb].
  - destruct (isWalkablePosition closureMap closureDoors
                (Vector2.x (Player.position p) + deltaX)
                (Vector2.y (Player.position p))) eqn:E2.
    { split; [right | repeat split]. cbn. repeat split; auto. }
    destruct (isWalkablePosition closureMap closureDoors
                (Vector2.x (Player.position p))
                (Vector2.y (Player.position p) + deltaY)) eqn:E3.
    { split; [right | repeat split]. cbn. repeat split; auto. }
    split; [left; split; reflexivity | repeat split].
  - split; [left; split; reflexivity | repeat split].
Qed.

(** A step to the right on open floor is taken; the same step against the
    wall of the split room is refused and the player stops. *)
Example step_right_on_open_floor :
  let '(p', cam') :=
    updateMovement (fun _ => 1%Q) (GameProgress.mk 0 false None false 0) south
      twoPiles [] {["arrowright"%string]} (3 # 100) 1000
      (hero 29 61 100, restingCamera) in
  (Vector2.x (Player.position p') == 35)%Q
  /\ Player.direction p' = east /\ Player.isMoving p' = true.
Proof. vm_compute. repeat split; reflexivity. Qed.

Example step_right_into_a_wall :
  let '(p', cam') :=
    updateMovement (fun _ => 1%Q) (GameProgress.mk 0 false None false 0) south
      room [] {["arrowright"%string]} (3 # 100) 1000
      (hero 61 29 100, restingCamera) in
  Player.position p' = Vector2.mk 61 29
  /\ Player.direction p' = east /\ Player.isMoving p' = false
  /\ cam' = restingCamera.
Proof. vm_compute. repeat split; reflexivity. Qed.

(** ** Keys and doors found in the grid *)

Lemma keysInRow_spec (tileSize : number) (y : nat) (row : list ascii) :
  forall (x0 : nat) (found : list KeyConfig.t * Z),
    snd found = Z.of_nat (length (fst found)) ->
    let found' := keysInRow tileSize x0 y row found in
    snd found' = Z.of_nat (length (fst found'))
    /\ exists added,
         fst found' = fst found ++ added
         /\ (forall (i : nat) k, added !! i = Some k ->
               KeyConfig.id k = Z.of_nat (length (fst found) + i)
               /\ KeyConfig.isCollected k = false
               /\ exists j : nat, row !! j = Some "K"%char
                    /\ KeyConfig.position k = cellCorner tileSize (x0 + j) y)
         /\ (forall j : nat, row !! j = Some "K"%char ->
               exists k, k ∈ added
                 /\ KeyConfig.position k = cellCorner tileSize (x0 + j) y).
Proof.
  induction row as [|t rest IH]; intros x0 found Hid; cbn [keysInRow].
  - split; [exact Hid|]. exists []. rewrite app_nil_r.
    split; [reflexivity|].
    split; [intros i k H; discriminate | intros j H; discriminate].
  - set (found1 :=
           if Ascii.eqb t "K"
           then (fst found
                   ++ [KeyConfig.mk (snd found) (cellCorner tileSize x0 y) false],
                 snd found + 1)
           else found).
    assert (Hid1 : snd found1 = Z.of_nat (length (fst found1))).
    { unfold found1. destruct (Ascii.eqb t "K"); [|exact Hid].
      cbn [fst snd]. rewrite length_app. cbn [length]. lia. }
    destruct (IH (S x0) found1 Hid1) as (I1 & added & I2 & I3 & I4).
    cbv zeta in *. split; [exact I1|].
    destruct (Ascii.eqb_spec t "K") as [->|Hne]; unfold found1 in *;
      cbn [fst snd] in *.
    + exists (KeyConfig.mk (snd found) (cellCorner tileSize x0 y) false
              :: added).
      split; [rewrite I2, <- app_assoc; reflexivity|]. split.
      * intros [|i] k Hk.
        -- cbn in Hk. injection Hk as <-. cbn. split; [lia|].
           split; [reflexivity|]. exists 0%nat. split; [reflexivity|].
           now rewrite Nat.add_0_r.
        -- cbn in Hk. destruct (I3 i k Hk) as (J1 & J2 & j & J3 & J4).
           split; [rewrite J1, length_app; cbn [length]; lia|].
           split; [exact J2|]. exists (S j). split; [exact J3|].
           rewrite J4. f_equal; lia.
      * intros [|j] Hj.
        -- eexists. split; [left|]. cbn. now rewrite Nat.add_0_r.
        -- cbn in Hj. destruct (I4 j Hj) as (k & K1 & K2). exists k.
           split; [now right|]. rewrite K2. f_equal; lia.
    + exists added. split; [exact I2|]. split.
      * intros i k Hk. destruct (I3 i k Hk) as (J1 & J2 & j & J3 & J4).
        split; [exact J1|]. split; [exact J2|]. exists (S j).
        split; [exact J3|]. rewrite J4. f_equal; lia.
      * intros [|j] Hj; [cbn in Hj; congruence|].
        cbn in Hj. destruct (I4 j Hj) as (k & K1 & K2). exists k.
        split; [exact K1|]. rewrite K2. f_equal; lia.
Qed.

Lemma keysInRows_spec (tileSize : number) (rows : Grid) :
  forall (y0 : nat) (found : list KeyConfig.t * Z),
    snd found = Z.of_nat (length (fst found)) ->
    let found' := keysInRows tileSize y0 rows found in
    snd found' = Z.of_nat (length (fst found'))
    /\ exists added,
         fst found' = fst found ++ added
         /\ (forall (i : nat) k, added !! i = Some k ->
               KeyConfig.id k = Z.of_nat (length (fst found) + i)
               /\ KeyConfig.isCollected k = false
               /\ exists (j x : nat) row,
                    rows !! j = Some row /\ row !! x = Some "K"%char
                    /\ KeyConfig.position k = cellCorner tileSize x (y0 + j))
         /\ (forall (j x : nat) row,
               rows !! j = Some row -> row !! x = Some "K"%char ->
               exists k, k ∈ added
                 /\ KeyConfig.position k = cellCorner tileSize x (y0 + j)).
Proof.
  induction rows as [|row rest IH]; intros y0 found Hid; cbn [keysInRows].
  - split; [exact Hid|]. exists []. rewrite app_nil_r.
    split; [reflexivity|].
    split; [intros i k H; discriminate | intros j x r H; discriminate].
  - destruct (keysInRow_spec tileSize y0 row 0 found Hid)
      as (R1 & addedR & R2 & R3 & R4).
    destruct (IH (S y0) (keysInRow tileSize 0 y0 row found) R1)
      as (I1 & added & I2 & I3 & I4).
    cbv zeta in *. split; [exact I1|].
    exists (addedR ++ added).
    split; [rewrite I2, R2, <- app_assoc; reflexivity|]. split.
    + intros n k Hk. apply lookup_app_Some in Hk.
      destruct Hk as [Hk|[Hge Hk]].
      * destruct (R3 n k Hk) as (J1 & J2 & x & J3 & J4).
        split; [exact J1|]. split; [exact J2|].
        exists 0%nat, x, row. split; [reflexivity|]. split; [exact J3|].
        rewrite J4. f_equal; lia.
      * destruct (I3 _ k Hk) as (J1 & J2 & j & x & r & J3 & J4 & J5).
        split; [rewrite J1, R2, length_app; lia|]. split; [exact J2|].
        exists (S j), x, r. split; [exact J3|]. split; [exact J4|].
        rewrite J5. f_equal; lia.
    + intros [|j] x r Hj Hx.
      * cbn in Hj. injection Hj as <-. destruct (R4 x Hx) as (k & K1 & K2).
        exists k. split; [apply elem_of_app; now left|].
        rewrite K2. f_equal; lia.
      * cbn in Hj. destruct (I4 j x r Hj Hx) as (k & K1 & K2).
        exists k. split; [apply elem_of_app; now right|].
        rewrite K2. f_equal; lia.
Qed.

Lemma findKeysInMap_spec (map : Grid) (tileSize : number) :
  (forall (i : nat) k, findKeysInMap map tileSize !! i = Some k ->
     KeyConfig.id k = Z.of_nat i
     /\ KeyConfig.isCollected k = false
     /\ exists x y : nat,
          tileAt map (Z.of_nat x) (Z.of_nat y) = Some "K"%char
          /\ KeyConfig.position k = cellCorner tileSize x y)
  /\ (forall x y : nat,
        tileAt map (Z.of_nat x) (Z.of_nat y) = Some "K"%char ->
        exists k, k ∈ findKeysInMap map tileSize
          /\ KeyConfig.position k = cellCorner tileSize x y).
Proof.
  unfold findKeysInMap.
  destruct (keysInRows_spec tileSize map 0 ([], 0) eq_refl)
    as (_ & added & E & H1 & H2).
  cbv zeta in *. cbn [fst app] in E. rewrite E. split.
  - intros i k Hk. destruct (H1 i k Hk) as (J1 & J2 & j & x & r & J3 & J4 & J5).
    split; [exact J1|]. split; [exact J2|]. exists x, j.
    split; [|exact J5]. apply tileAt_lookup. exists j, x, r. auto.
  - intros x y Ht. apply tileAt_lookup in Ht.
    destruct Ht as (j & i & r & Hj & Hi & Ex & Ey).
    apply Nat2Z.inj in Ex, Ey. subst i j.
    exact (H2 y x r Hj Hi).
Qed.

Lemma doorsInRow_spec (tileSize : number) (y : nat) (row : list ascii) :
  forall (x0 : nat) (found : list DoorConfig.t * Z),
    snd found = Z.of_nat (length (fst found)) ->
    let found' := doorsInRow tileSize x0 y row found in
    snd found' = Z.of_nat (length (fst found'))
    /\ exists added,
         fst found' = fst found ++ added
         /\ (forall (i : nat) k, added !! i = Some k ->
               DoorConfig.id k = Z.of_nat (length (fst found) + i)
               /\ DoorConfig.isOpen k = false
               /\ exists j : nat, row !! j = Some "D"%char
                    /\ DoorConfig.position k = cellCorner tileSize (x0 + j) y)
         /\ (forall j : nat, row !! j = Some "D"%char ->
               exists k, k ∈ added
                 /\ DoorConfig.position k = cellCorner tileSize (x0 + j) y).
Proof.
  induction row as [|t rest IH]; intros x0 found Hid; cbn [doorsInRow].
  - split; [exact Hid|]. exists []. rewrite app_nil_r.
    split; [reflexivity|].
    split; [intros i k H; discriminate | intros j H; discriminate].
  - set (found1 :=
           if Ascii.eqb t "D"
           then (fst found
                   ++ [DoorConfig.mk (snd found) (cellCorner tileSize x0 y) false],
                 snd found + 1)
           else found).
    assert (Hid1 : snd found1 = Z.of_nat (length (fst found1))).
    { unfold found1. destruct (Ascii.eqb t "D"); [|exact Hid].
      cbn [fst snd]. rewrite length_app. cbn [length]. lia. }
    destruct (IH (S x0) found1 Hid1) as (I1 & added & I2 & I3 & I4).
    cbv zeta in *. split; [exact I1|].
    destruct (Ascii.eqb_spec t "D") as [->|Hne]; unfold found1 in *;
      cbn [fst snd] in *.
    + exists (DoorConfig.mk (snd found) (cellCorner tileSize x0 y) false
              :: added).
      split; [rewrite I2, <- app_assoc; reflexivity|]. split.
      * intros [|i] k Hk.
        -- cbn in Hk. injection Hk as <-. cbn. split; [lia|].
           split; [reflexivity|]. exists 0%nat. split; [reflexivity|].
           now rewrite Nat.add_0_r.
        -- cbn in Hk. destruct (I3 i k Hk) as (J1 & J2 & j & J3 & J4).
           split; [rewrite J1, length_app; cbn [length]; lia|].
           split; [exact J2|]. exists (S j). split; [exact J3|].
           rewrite J4. f_equal; lia.
      * intros [|j] Hj.
        -- eexists. split; [left|]. cbn. now rewrite Nat.add_0_r.
        -- cbn in Hj. destruct (I4 j Hj) as (k & K1 & K2). exists k.
           split; [now right|]. rewrite K2. f_equal; lia.
    + exists added. split; [exact I2|]. split.
      * intros i k Hk. destruct (I3 i k Hk) as (J1 & J2 & j & J3 & J4).
        split; [exact J1|]. split; [exact J2|]. exists (S j).
        split; [exact J3|]. rewrite J4. f_equal; lia.
      * intros [|j] Hj; [cbn in Hj; congruence|].
        cbn in Hj. destruct (I4 j Hj) as (k & K1 & K2). exists k.
        split; [exact K1|]. rewrite K2. f_equal; lia.
Qed.

Lemma doorsInRows_spec (tileSize : number) (rows : Grid) :
  forall (y0 : nat) (found : list DoorConfig.t * Z),
    snd found = Z.of_nat (length (fst found)) ->
    let found' := doorsInRows tileSize y0 rows found in
    snd found' = Z.of_nat (length (fst found'))
    /\ exists added,
         fst found' = fst found ++ added
         /\ (forall (i : nat) k, added !! i = Some k ->
               DoorConfig.id k = Z.of_nat (length (fst found) + i)
               /\ DoorConfig.isOpen k = false
               /\ exists (j x : nat) row,
                    rows !! j = Some row /\ row !! x = Some "D"%char
                    /\ DoorConfig.position k = cellCorner tileSize x (y0 + j))
         /\ (forall (j x : nat) row,
               rows !! j = Some row -> row !! x = Some "D"%char ->
               exists k, k ∈ added
                 /\ DoorConfig.position k = cellCorner tileSize x (y0 + j)).
Proof.
  induction rows as [|row rest IH]; intros y0 found Hid; cbn [doorsInRows].
  - split; [exact Hid|]. exists []. rewrite app_nil_r.
    split; [reflexivity|].
    split; [intros i k H; discriminate | intros j x r H; discriminate].
  - destruct (doorsInRow_spec tileSize y0 row 0 found Hid)
      as (R1 & addedR & R2 & R3 & R4).
    destruct (IH (S y0) (doorsInRow tileSize 0 y0 row found) R1)
      as (I1 & added & I2 & I3 & I4).
    cbv zeta in *. split; [exact I1|].
    exists (addedR ++ added).
    split; [rewrite I2, R2, <- app_assoc; reflexivity|]. split.
    + intros n k Hk. apply lookup_app_Some in Hk.
      destruct Hk as [Hk|[Hge Hk]].
      * destruct (R3 n k Hk) as (J1 & J2 & x & J3 & J4).
        split; [exact J1|]. split; [exact J2|].
        exists 0%nat, x, row. split; [reflexivity|]. split; [exact J3|].
        rewrite J4. f_equal; lia.
      * destruct (I3 _ k Hk) as (J1 & J2 & j & x & r & J3 & J4 & J5).
        split; [rewrite J1, R2, length_app; lia|]. split; [exact J2|].
        exists (S j), x, r. split; [exact J3|]. split; [exact J4|].
        rewrite J5. f_equal; lia.
    + intros [|j] x r Hj Hx.
      * cbn in Hj. injection Hj as <-. destruct (R4 x Hx) as (k & K1 & K2).
        exists k. split; [apply elem_of_app; now left|].
        rewrite K2. f_equal; lia.
      * cbn in Hj. destruct (I4 j x r Hj Hx) as (k & K1 & K2).
        exists k. split; [apply elem_of_app; now right|].
        rewrite K2. f_equal; lia.
Qed.

Lemma findDoorsInMap_spec (map : Grid) (tileSize : number) :
  (forall (i : nat) k, findDoorsInMap map tileSize !! i = Some k ->
     DoorConfig.id k = Z.of_nat i
     /\ DoorConfig.isOpen k = false
     /\ exists x y : nat,
          tileAt map (Z.of_nat x) (Z.of_nat y) = Some "D"%char
          /\ DoorConfig.position k = cellCorner tileSize x y)
  /\ (forall x y : nat,
        tileAt map (Z.of_nat x) (Z.of_nat y) = Some "D"%char ->
        exists k, k ∈ findDoorsInMap map tileSize
          /\ DoorConfig.position k = cellCorner tileSize x y).
Proof.
  unfold findDoorsInMap.
  destruct (doorsInRows_spec tileSize map 0 ([], 0) eq_refl)
    as (_ & added & E & H1 & H2).
  cbv zeta in *. cbn [fst app] in E. rewrite E. split.
  - intros i k Hk. destruct (H1 i k Hk) as (J1 & J2 & j & x & r & J3 & J4 & J5).
    split; [exact J1|]. split; [exact J2|]. exists x, j.
    split; [|exact J5]. apply tileAt_lookup. exists j, x, r. auto.
  - intros x y Ht. apply tileAt_lookup in Ht.
    destruct Ht as (j & i & r & Hj & Hi & Ex & Ey).
    apply Nat2Z.inj in Ex, Ey. subst i j.
    exact (H2 y x r Hj Hi).
Qed.

(** X21. [findKeysInMap] and [findDoorsInMap] return one object for
    every [K] tile, respectively [D] tile, of the grid and nothing else:
    the object at index [i] of the list has id [i], so the ids are distinct
    and run from zero; it lies at the pixel corner of a tile that holds the
    letter; it starts not collected, respectively closed; and every tile
    that holds the letter has its object. *)
Theorem keys_and_doors_match_the_grid (map : Grid) (tileSize : number) :
  (forall (i : nat) k, findKeysInMap map tileSize !! i = Some k ->
     KeyConfig.id k = Z.of_nat i
     /\ KeyConfig.isCollected k = false
     /\ exists x y : nat,
          tileAt map (Z.of_nat x) (Z.of_nat y) = Some "K"%char
          /\ KeyConfig.position k = cellCorner tileSize x y)
  /\ (forall x y : nat,
        tileAt map (Z.of_nat x) (Z.of_nat y) = Some "K"%char ->
        exists k, k ∈ findKeysInMap map tileSize
          /\ KeyConfig.position k = cellCorner tileSize x y)
  /\ (forall (i : nat) d, findDoorsInMap map tileSize !! i = Some d ->
        DoorConfig.id d = Z.of_nat i
        /\ DoorConfig.isOpen d = false
        /\ exists x y : nat,
             tileAt map (Z.of_nat x) (Z.of_nat y) = Some "D"%char
             /\ DoorConfig.position d = cellCorner tileSize x y)
  /\ (forall x y : nat,
        tileAt map (Z.of_nat x) (Z.of_nat y) = Some "D"%char ->
        exists d, d ∈ findDoorsInMap map tileSize
          /\ DoorConfig.position d = cellCorner tileSize x y).
Proof.
  destruct (findKeysInMap_spec map tileSize) as [K1 K2].
  destruct (findDoorsInMap_spec map tileSize) as [D1 D2].
  split; [exact K1|]. split; [exact K2|]. split; [exact D1 | exact D2].
Qed.

(** X22. With the doors as [findDoorsInMap] reads them from the grid, all
    closed, no walkable position is centred on a door tile: when the tile
    under [(x + TILE_SIZE / 2, y + TILE_SIZE / 2)], the tile that the
    interaction check looks at, holds a [D], [isWalkablePosition] answers
    [false] for [(x, y)]. *)
Theorem door_tiles_are_not_walkable (map : Grid) (x y : number) :
  tileAt map (centreTile x TILE_SIZE) (centreTile y TILE_SIZE) = Some "D"%char ->
  isWalkablePosition map (findDoorsInMap map TILE_SIZE) x y = false.
Proof.
  intros Ht. destruct (tileAt_Some_range _ _ _ _ Ht) as (Hx & Hy & _).
  destruct (findDoorsInMap_spec map TILE_SIZE) as [D1 D2].
  rewrite <- (Z2Nat.id _ Hx), <- (Z2Nat.id _ Hy) in Ht.
  destruct (D2 _ _ Ht) as (d & Hin & Hpos).
  apply (closed_door_blocks map _ d x y Hin).
  - apply list_elem_of_lookup in Hin. destruct Hin as (i & Hi).
    now destruct (D1 i d Hi) as (_ & Hclosed & _).
  - unfold doorOnTile. rewrite Hpos. unfold cellCorner.
    cbn [fst snd Vector2.x Vector2.y].
    rewrite !Z2Nat.id by assumption. split; reflexivity.
Qed.

Lemma door_tiles_are_not_walkable_witness :
  isWalkablePosition
    (List.map list_ascii_of_string ["....."; "..D.."; "....."]%string)
    (findDoorsInMap
       (List.map list_ascii_of_string ["....."; "..D.."; "....."]%string)
       TILE_SIZE)
    60 30 = false.
Proof.
  apply door_tiles_are_not_walkable. vm_compute. reflexivity.
Defined.

(** ** Pickups *)

Lemma Math_min_cases (a b : number) :
  (Math_min a b = a /\ (a <= b)%Q) \/ (Math_min a b = b /\ (b < a)%Q).
Proof.
  unfold Math_min. destruct (Qle_bool a b) eqn:E.
  - left. split; [reflexivity | now apply Qle_bool_iff].
  - right. split; [reflexivity|]. apply Qnot_le_lt. intros H.
    apply Qle_bool_iff in H. congruence.
Qed.

Lemma Math_max_0_cases (a : number) :
  (Math_max 0 a = a /\ (0 <= a)%Q) \/ (Math_max 0 a = 0%Q /\ (a < 0)%Q).
Proof.
  unfold Math_max. destruct (Qle_bool 0 a) eqn:E.
  - left. split; [reflexivity | now apply Qle_bool_iff].
  - right. split; [reflexivity|]. apply Qnot_le_lt. intros H.
    apply Qle_bool_iff in H. congruence.
Qed.

Lemma handleChestOpen_player closureOpened closureContents chestIndex now s :
  let s' := handleChestOpen closureOpened closureContents chestIndex now s in
  ((0 <= lootHealth s <= lootMaxHealth s)%Q ->
   (0 <= lootHealth s' <= lootMaxHealth s')%Q)
  /\ lootMaxHealth s' = lootMaxHealth s
  /\ (Player.score (Loot.player s) <= Player.score (Loot.player s'))%Q
  /\ Player.position (Loot.player s') = Player.position (Loot.player s)
  /\ Loot.keys s' = Loot.keys s /\ Loot.doors s' = Loot.doors s
  /\ Loot.keyCount s' = Loot.keyCount s
  /\ Loot.keyEquipped s' = Loot.keyEquipped s.
Proof.
  cbv zeta. unfold handleChestOpen, lootHealth, lootMaxHealth.
  destruct (bool_decide (chestIndex ∈ closureOpened)).
  - repeat split; try tauto; apply Qle_refl.
  - cbv zeta. destruct (closureContents !! chestIndex) as [[| |]|];
      cbn [Loot.player Loot.keys Loot.doors Loot.keyCount Loot.keyEquipped
           withHealth Player.health Player.maxHealth Player.score
           Player.position];
      (split; [|repeat split; try reflexivity; lra]); intros [H0 H1].
    + destruct (Math_min_cases (Player.maxHealth (Loot.player s))
                  (Player.health (Loot.player s) + 25)) as [[-> ?]|[-> ?]];
        split; lra.
    + destruct (Math_max_0_cases (Player.health (Loot.player s) - 10))
        as [[-> ?]|[-> ?]]; split; lra.
    + split; lra.
    + split; lra.
Qed.

Lemma loot_step_player s s' :
  loot_step s s' ->
  ((0 <= lootHealth s <= lootMaxHealth s)%Q ->
   (0 <= lootHealth s' <= lootMaxHealth s')%Q)
  /\ lootMaxHealth s' = lootMaxHealth s
  /\ (Player.score (Loot.player s) <= Player.score (Loot.player s'))%Q
  /\ Player.position (Loot.player s') = Player.position (Loot.player s).
Proof.
  intros [co cc i now s0|closure now s0|s0|s0|s0|s0].
  - destruct (handleChestOpen_player co cc i now s0) as (H1 & H2 & H3 & H4 & _).
    auto.
  - unfold checkChestCollision.
    destruct (Loot.chests closure) as [cs|];
      [|repeat split; try tauto; apply Qle_refl].
    destruct (List.find _ cs) as [chest|];
      [|repeat split; try tauto; apply Qle_refl].
    destruct (handleChestOpen_player (Loot.chestsOpened closure)
                (Loot.chestContents closure) (ChestConfig.id chest) now s0)
      as (H1 & H2 & H3 & H4 & _). auto.
  - unfold eatFoodPlatter.
    destruct (Loot.foodPlatters s0) as [fps|];
      [|repeat split; try tauto; apply Qle_refl].
    destruct (List.find _ fps) as [platter|];
      [|repeat split; try tauto; apply Qle_refl].
    unfold lootHealth, lootMaxHealth. cbn.
    split; [|repeat split; try reflexivity; apply Qle_refl]. intros [H0 H1].
    destruct (Math_min_cases (Player.health (Loot.player s0) + 20)
                (Player.maxHealth (Loot.player s0))) as [[-> ?]|[-> ?]];
      split; lra.
  - unfold collectKey. destruct (List.find _ (Loot.keys s0));
      repeat split; try tauto; apply Qle_refl.
  - unfold openDoor. destruct (unlockFirst _ _ _ _) as [newDoors [|]];
      repeat split; try tauto; apply Qle_refl.
  - unfold addHealthShortcut, lootHealth, lootMaxHealth. cbn.
    split; [|repeat split; try reflexivity; apply Qle_refl]. intros [H0 H1].
    destruct (Math_min_cases (Player.maxHealth (Loot.player s0))
                (Player.health (Loot.player s0) + 500)) as [[-> ?]|[-> ?]];
      split; lra.
Qed.

(** X23. No pickup and no shortcut takes the player's health out of its
    range: along any sequence of chest openings, chest checks, food, key
    and door effects and presses of the Shift shortcut, health that starts
    between 0 and the maximum stays there, the maximum stays what it was,
    the score never goes down and the player is not moved. *)
Theorem pickups_keep_health_in_range s s' :
  rtc loot_step s s' ->
  (0 <= lootHealth s <= lootMaxHealth s)%Q ->
  (0 <= lootHealth s' <= lootMaxHealth s')%Q
  /\ lootMaxHealth s' = lootMaxHealth s
  /\ (Player.score (Loot.player s) <= Player.score (Loot.player s'))%Q
  /\ Player.position (Loot.player s') = Player.position (Loot.player s).
Proof.
  induction 1 as [s|s s1 s' Hstep _ IH]; intros Hin.
  - repeat split; try tauto; apply Qle_refl.
  - destruct (loot_step_player _ _ Hstep) as (H1 & H2 & H3 & H4).
    destruct (IH (H1 Hin)) as (I1 & I2 & I3 & I4).
    split; [exact I1|]. split; [congruence|]. split; [lra | congruence].
Qed.

Lemma pickups_keep_health_in_range_witness :
  let s' := addHealthShortcut (checkChestCollision chestScene 1000 chestScene) in
  (0 <= lootHealth s' <= lootMaxHealth s')%Q.
Proof.
  cbv zeta.
  apply (pickups_keep_health_in_range chestScene).
  - eapply rtc_l; [apply (loot_check chestScene 1000)|].
    apply rtc_once. apply loot_shift.
  - split; vm_compute; discriminate.
Defined.

(** The chest holds food: 25 points on top of 90 stop at the maximum of
    100, and the score takes 150. *)
Example food_chest_fills_up_to_the_maximum :
  let s' := checkChestCollision chestScene 1000 chestScene in
  (lootHealth s' == 100)%Q /\ (Player.score (Loot.player s') == 150)%Q
  /\ Loot.chests s' = Some [ChestConfig.mk 0 (Vector2.mk (5 * 32) (5 * 32)) true].
Proof. vm_compute. repeat split; reflexivity. Qed.

Lemma generateChests_lookup (roll : nat -> number) (count : nat) :
  forall (i : nat) contents (k : Z),
    generateChests count i roll contents !! k
    = if (Z.of_nat i <=? k) && (k <? Z.of_nat (i + count))
      then Some (if Qltb (roll (Z.to_nat k)) (4 # 10) then food
                 else if Qltb (roll (Z.to_nat k)) (7 # 10) then poison
                 else potion)
      else contents !! k.
Proof.
  induction count as [|count IH]; intros i contents k; cbn [generateChests].
  - destruct (Z.leb_spec (Z.of_nat i) k); destruct (Z.ltb_spec k (Z.of_nat (i + 0)));
      try reflexivity; lia.
  - rewrite IH.
    destruct (Z.eq_dec k (Z.of_nat i)) as [->|Hne].
    + destruct (Z.leb_spec (Z.of_nat (S i)) (Z.of_nat i)); [lia|].
      destruct (Z.leb_spec (Z.of_nat i) (Z.of_nat i)); [|lia].
      destruct (Z.ltb_spec (Z.of_nat i) (Z.of_nat (i + S count))); [|lia].
      cbn [andb]. rewrite lookup_insert_eq, Nat2Z.id. reflexivity.
    + rewrite lookup_insert_ne by congruence.
      destruct (Z.leb_spec (Z.of_nat (S i)) k);
        destruct (Z.ltb_spec k (Z.of_nat (S i + count)));
        destruct (Z.leb_spec (Z.of_nat i) k);
        destruct (Z.ltb_spec k (Z.of_nat (i + S count)));
        cbn [andb]; first [reflexivity | lia].
Qed.

(** X24. [generateChestContents] gives a content to each of the chests 0
    to 6 and to no other index, by the roll drawn for the chest: food below
    0.4, poison from 0.4 and below 0.7, a potion from 0.7 on. Every chest
    that [initializeChests] places, in any of the three rooms, bears one of
    these seven ids, so its content is defined. *)
Theorem every_chest_has_a_content (roll : nat -> number) :
  (forall k : Z,
     generateChestContents roll !! k
     = if (0 <=? k) && (k <? 7)
       then Some (if Qltb (roll (Z.to_nat k)) (4 # 10) then food
                  else if Qltb (roll (Z.to_nat k)) (7 # 10) then poison
                  else potion)
       else None)
  /\ (forall room chest,
        chest ∈ initializeChests room ->
        is_Some (generateChestContents roll !! ChestConfig.id chest)).
Proof.
  assert (H : forall k : Z,
             generateChestContents roll !! k
             = if (0 <=? k) && (k <? 7)
               then Some (if Qltb (roll (Z.to_nat k)) (4 # 10) then food
                          else if Qltb (roll (Z.to_nat k)) (7 # 10) then poison
                          else potion)
               else None).
  { intros k. unfold generateChestContents. rewrite generateChests_lookup.
    change (Z.of_nat 0) with 0. change (Z.of_nat (0 + 7)) with 7.
    destruct ((0 <=? k) && (k <? 7)); [reflexivity | apply lookup_empty]. }
  split; [exact H|].
  intros room chest Hin. rewrite H.
  assert (Hid : 0 <= ChestConfig.id chest < 7).
  { destruct room; cbn in Hin;
      repeat (apply elem_of_cons in Hin; destruct Hin as [->|Hin];
              [cbn; lia|]);
      inversion Hin. }
  destruct (Z.leb_spec 0 (ChestConfig.id chest)); [|lia].
  destruct (Z.ltb_spec (ChestConfig.id chest) 7); [|lia].
  cbn [andb]. eauto.
Qed.

(** X25. A chest is opened once: [handleChestOpen] leaves the state as it
    is when the chest is among the opened chests that its callback knows;
    called with the opened chests of the current state it enters the chest
    there, so that a further call that knows the new state does nothing;
    and a frame's chest check opens at most one chest, one that is within
    reach and not among the opened chests of its render. *)
Theorem chest_is_opened_once (contents : gmap Z ChestContent)
    (chestIndex now : Z) (s : Loot.t) :
  let s' := handleChestOpen (Loot.chestsOpened s) contents chestIndex now s in
  (forall closureOpened closureContents now' t,
     chestIndex ∈ closureOpened ->
     handleChestOpen closureOpened closureContents chestIndex now' t = t)
  /\ chestIndex ∈ Loot.chestsOpened s'
  /\ (forall contents' now',
        handleChestOpen (Loot.chestsOpened s') contents' chestIndex now' s' = s')
  /\ (forall closure t,
        let t' := checkChestCollision closure now t in
        t' = t
        \/ exists chest cs,
             Loot.chests closure = Some cs /\ chest ∈ cs
             /\ (ChestConfig.id chest ∉ Loot.chestsOpened closure)
             /\ reaches (Loot.player closure) (ChestConfig.position chest)
                  (8 # 10) = true
             /\ Loot.chestsOpened t'
                = ({[ChestConfig.id chest]} ∪ Loot.chestsOpened t)).
Proof.
  cbv zeta.
  assert (Hknown : forall closureOpened closureContents now' t,
             chestIndex ∈ closureOpened ->
             handleChestOpen closureOpened closureContents chestIndex now' t = t).
  { intros co cc now' t Hin. unfold handleChestOpen.
    now rewrite (bool_decide_eq_true_2 _ Hin). }
  assert (Hin : chestIndex
                ∈ Loot.chestsOpened
                    (handleChestOpen (Loot.chestsOpened s) contents chestIndex
                       now s)).
  { unfold handleChestOpen.
    destruct (bool_decide (chestIndex ∈ Loot.chestsOpened s)) eqn:E.
    - now apply bool_decide_eq_true in E.
    - cbn [Loot.chestsOpened]. set_solver. }
  split; [exact Hknown|]. split; [exact Hin|].
  split; [intros contents' now'; now apply Hknown|].
  intros closure t. unfold checkChestCollision.
  destruct (Loot.chests closure) as [cs|] eqn:Ecs; [|now left].
  destruct (List.find _ cs) as [chest|] eqn:Ef; [|now left].
  apply find_some in Ef. destruct Ef as [Hc Hf].
  apply andb_true_iff in Hf. destruct Hf as [Hno Hreach].
  apply negb_true_iff in Hno. right. exists chest, cs.
  split; [reflexivity|]. split; [now apply list_elem_of_In|].
  split; [now apply bool_decide_eq_false in Hno|]. split; [exact Hreach|].
  unfold handleChestOpen. rewrite Hno. reflexivity.
Qed.

(** Called twice through the callback of one render, which does not know
    the first opening, the chest gives its food twice. *)
Example chest_opened_again_by_a_stale_callback :
  let hurtScene :=
    Loot.mk (hero 160 160 10) (Some [chestAt 0 5 5]) None [] [] ∅
      {[ 0 := food ]} ∅ None false in
  let once := checkChestCollision hurtScene 1000 hurtScene in
  let twice := checkChestCollision hurtScene 1016 once in
  (lootHealth once == 35)%Q /\ (lootHealth twice == 60)%Q.
Proof. vm_compute. split; reflexivity. Qed.


(** ** Keys and doors *)

Lemma markCollected_none (l : list KeyConfig.t) (id : Z) :
  (forall k, In k l -> KeyConfig.id k <> id) ->
  List.map (markCollected id) l = l.
Proof.
  induction l as [|a l IH]; intros H; [reflexivity|]. cbn [List.map].
  rewrite IH by (intros k Hk; apply H; now right). f_equal.
  unfold markCollected. destruct (Z.eqb_spec (KeyConfig.id a) id); [|reflexivity].
  exfalso. apply (H a); [now left | assumption].
Qed.

Lemma markCollected_count (l : list KeyConfig.t) :
  forall (off j : nat) key,
    (forall (i : nat) k, l !! i = Some k -> KeyConfig.id k = Z.of_nat (off + i)) ->
    l !! j = Some key -> KeyConfig.isCollected key = false ->
    length (List.filter KeyConfig.isCollected
              (List.map (markCollected (Z.of_nat (off + j))) l))
    = S (length (List.filter KeyConfig.isCollected l)).
Proof.
  induction l as [|a l IH]; intros off j key Hid Hj Hc; [discriminate|].
  assert (Hid' : forall (i : nat) k, l !! i = Some k ->
                   KeyConfig.id k = Z.of_nat (S off + i)).
  { intros i k Hk. rewrite (Hid (S i) k Hk). f_equal. lia. }
  pose proof (Hid 0%nat a eq_refl) as Ha. rewrite Nat.add_0_r in Ha.
  destruct j as [|j].
  - cbn in Hj. injection Hj as ->. rewrite Nat.add_0_r.
    cbn [List.map List.filter]. unfold markCollected at 1.
    rewrite Ha, Z.eqb_refl. cbn [KeyConfig.isCollected]. rewrite Hc.
    cbn [length]. f_equal. f_equal. f_equal.
    apply markCollected_none. intros k Hk.
    apply list_elem_of_In, list_elem_of_lookup in Hk. destruct Hk as (i & Hi).
    rewrite (Hid' i k Hi). lia.
  - cbn in Hj. cbn [List.map List.filter]. unfold markCollected at 1.
    rewrite Ha. destruct (Z.eqb_spec (Z.of_nat off) (Z.of_nat (off + S j)));
      [lia|].
    replace (off + S j)%nat with (S off + j)%nat by lia.
    destruct (KeyConfig.isCollected a); cbn [length];
      rewrite (IH (S off) j key Hid' Hj Hc); reflexivity.
Qed.

Lemma markCollected_ids (l : list KeyConfig.t) (id : Z) :
  (forall (i : nat) k, l !! i = Some k -> KeyConfig.id k = Z.of_nat i) ->
  forall (i : nat) k, List.map (markCollected id) l !! i = Some k ->
                      KeyConfig.id k = Z.of_nat i.
Proof.
  intros Hid i k Hk.
  change (List.map (markCollected id) l) with (markCollected id <$> l) in Hk.
  rewrite list_lookup_fmap in Hk.
  destruct (l !! i) as [k0|] eqn:E; [|discriminate].
  cbn in Hk. injection Hk as <-. unfold markCollected.
  destruct (KeyConfig.id k0 =? id); cbn; now apply Hid.
Qed.

Lemma unlockFirst_no_key (p : Player.t) (doors : list DoorConfig.t) :
  forall unlocked, unlockFirst p false unlocked doors = (doors, unlocked).
Proof.
  induction doors as [|d doors IH]; intros unlocked; [reflexivity|].
  cbn [unlockFirst]. rewrite andb_false_r, !IH.
  destruct (DoorConfig.isOpen d); reflexivity.
Qed.

Lemma collectKey_counted (s : Loot.t) :
  keysCounted s ->
  keysCounted (collectKey s) /\ Loot.doors (collectKey s) = Loot.doors s.
Proof.
  intros [Hid Hcount Heq]. unfold collectKey.
  destruct (List.find _ (Loot.keys s)) as [key|] eqn:Ef;
    [|split; [split; assumption | reflexivity]].
  apply find_some in Ef. destruct Ef as [Hin Hf].
  apply andb_true_iff in Hf. destruct Hf as [Hno _].
  apply negb_true_iff in Hno.
  apply list_elem_of_In, list_elem_of_lookup in Hin. destruct Hin as (j & Hj).
  pose proof (Hid j key Hj) as Hkey.
  split; [|reflexivity]. split; cbn [withKeys Loot.keys Loot.keyCount Loot.keyEquipped].
  - apply (markCollected_ids (Loot.keys s) (KeyConfig.id key) Hid).
  - unfold collectedKeys. cbn [withKeys Loot.keys]. rewrite Hcount. cbn [default].
    f_equal. rewrite Hkey.
    pose proof (markCollected_count (Loot.keys s) 0 j key Hid Hj Hno) as Hc.
    unfold markCollected in Hc. cbn [Nat.add] in Hc. rewrite Hc.
    unfold collectedKeys, id. lia.
  - exact Heq.
Qed.

Lemma loot_step_counted (s s' : Loot.t) :
  loot_step s s' -> keysCounted s ->
  keysCounted s' /\ Loot.doors s' = Loot.doors s.
Proof.
  intros [co cc i now s0|closure now s0|s0|s0|s0|s0] Hk.
  - destruct (handleChestOpen_player co cc i now s0)
      as (_ & _ & _ & _ & E1 & E2 & E3 & E4).
    destruct Hk as [Hid Hcount Heq].
    split; [|exact E2]. split.
    + now rewrite E1.
    + unfold collectedKeys. now rewrite E3, E1.
    + now rewrite E4.
  - unfold checkChestCollision.
    destruct (Loot.chests closure) as [cs|]; [|now split].
    destruct (List.find _ cs) as [chest|]; [|now split].
    destruct (handleChestOpen_player (Loot.chestsOpened closure)
                (Loot.chestContents closure) (ChestConfig.id chest) now s0)
      as (_ & _ & _ & _ & E1 & E2 & E3 & E4).
    destruct Hk as [Hid Hcount Heq].
    split; [|exact E2]. split.
    + now rewrite E1.
    + unfold collectedKeys. now rewrite E3, E1.
    + now rewrite E4.
  - unfold eatFoodPlatter.
    destruct (Loot.foodPlatters s0) as [fps|]; [|now split].
    destruct (List.find _ fps) as [platter|]; [|now split].
    destruct Hk as [Hid Hcount Heq]. split; [split; assumption | reflexivity].
  - now apply collectKey_counted.
  - unfold openDoor. rewrite (counted_equipped _ Hk), unlockFirst_no_key.
    now split.
  - destruct Hk as [Hid Hcount Heq]. split; [split; assumption | reflexivity].
Qed.

Lemma loot_run_counted (s s' : Loot.t) :
  rtc loot_step s s' -> keysCounted s ->
  keysCounted s' /\ Loot.doors s' = Loot.doors s.
Proof.
  induction 1 as [s|s s1 s' Hstep _ IH]; intros Hk; [now split|].
  destruct (loot_step_counted _ _ Hstep Hk) as [Hk1 Hd1].
  destruct (IH Hk1) as [Hk' Hd']. split; [exact Hk' | congruence].
Qed.

(** X26. From the moment keys and doors are read from the grid, the key
    count is the number of collected keys and every door stays closed:
    along any sequence of pickups that follows, with no key equipped at the
    start, each collected key is counted once, the doors remain the closed
    doors that [findDoorsInMap] returned, and no key is ever equipped,
    [setKeyEquipped] being called with [false] only. *)
Theorem keys_are_counted_and_doors_stay_shut (map : Grid) (s0 s : Loot.t) :
  Loot.keyEquipped s0 = false ->
  rtc loot_step (placeKeysAndDoors map s0) s ->
  Loot.keyCount s = Some (Z.of_nat (collectedKeys s))
  /\ Loot.doors s = findDoorsInMap map 32
  /\ Forall (fun d => DoorConfig.isOpen d = false) (Loot.doors s)
  /\ Loot.keyEquipped s = false.
Proof.
  intros Heq Hrun.
  destruct (findKeysInMap_spec map 32) as [K1 _].
  destruct (findDoorsInMap_spec map 32) as [D1 _].
  assert (Hstart : keysCounted (placeKeysAndDoors map s0)).
  { split; cbn [placeKeysAndDoors withKeys Loot.keys Loot.keyCount
                Loot.keyEquipped].
    - intros i k Hk. now destruct (K1 i k Hk).
    - unfold collectedKeys. cbn [placeKeysAndDoors withKeys Loot.keys].
      do 2 f_equal. symmetry.
      assert (Hnone : forall k, In k (findKeysInMap map 32) ->
                                KeyConfig.isCollected k = false).
      { intros k Hk. apply list_elem_of_In, list_elem_of_lookup in Hk.
        destruct Hk as (i & Hi). now destruct (K1 i k Hi) as (_ & ? & _). }
      clear K1. induction (findKeysInMap map 32) as [|a l IH]; [reflexivity|].
      cbn [List.filter]. rewrite (Hnone a) by now left.
      apply IH. intros k Hk. apply Hnone. now right.
    - exact Heq. }
  destruct (loot_run_counted _ _ Hrun Hstart) as [[_ Hcount Hequip] Hdoors].
  cbn [placeKeysAndDoors withKeys Loot.doors] in Hdoors.
  split; [exact Hcount|]. split; [exact Hdoors|]. split; [|exact Hequip].
  rewrite Hdoors. apply List.Forall_forall. intros d Hd.
  apply list_elem_of_In, list_elem_of_lookup in Hd. destruct Hd as (i & Hi).
  now destruct (D1 i d Hi) as (_ & ? & _).
Qed.

Lemma keys_are_counted_and_doors_stay_shut_witness :
  let s := openDoor (collectKey (placeKeysAndDoors keyRoom keyScene)) in
  Loot.keyCount s = Some (Z.of_nat (collectedKeys s))
  /\ Loot.doors s = findDoorsInMap keyRoom 32.
Proof.
  cbv zeta.
  destruct (keys_are_counted_and_doors_stay_shut keyRoom keyScene
              (openDoor (collectKey (placeKeysAndDoors keyRoom keyScene))))
    as (H1 & H2 & _).
  - reflexivity.
  - eapply rtc_l; [apply loot_key|]. apply rtc_once. apply loot_door.
  - split; [exact H1 | exact H2].
Defined.

(** On the first key of the room the effect collects it and counts one. *)
Example first_key_is_collected :
  let s := collectKey (placeKeysAndDoors keyRoom keyScene) in
  Loot.keyCount s = Some 1
  /\ List.map KeyConfig.isCollected (Loot.keys s) = [true; false].
Proof. vm_compute. split; reflexivity. Qed.

(** ** Where a spawner puts its enemy *)

Lemma floor_unique (a t : Q) (k : Z) :
  (0 < t)%Q -> (inject_Z k * t <= a)%Q -> (a < (inject_Z k + 1) * t)%Q ->
  Math_floor (a / t) = k.
Proof.
  intros Ht H1 H2. destruct (floor_div_bounds a t Ht) as [F1 F2].
  set (f := Math_floor (a / t)) in *.
  assert (Hlt1 : (inject_Z f < inject_Z k + 1)%Q) by nra.
  assert (Hlt2 : (inject_Z k < inject_Z f + 1)%Q) by nra.
  change (inject_Z f < inject_Z k + inject_Z 1)%Q in Hlt1.
  change (inject_Z k < inject_Z f + inject_Z 1)%Q in Hlt2.
  rewrite <- inject_Z_plus, <- Zlt_Qlt in Hlt1, Hlt2. lia.
Qed.

Lemma tileUnder_offset (map : Grid) (tileX tileY : Z) (offX offY : Q) :
  (0 <= offX)%Q -> (offX < 32)%Q -> (0 <= offY)%Q -> (offY < 32)%Q ->
  tileUnder map (Vector2.mk (inject_Z tileX * TILE_SIZE + offX)%Q
                            (inject_Z tileY * TILE_SIZE + offY)%Q)
  = tileAt map tileX tileY.
Proof.
  intros X0 X1 Y0 Y1. unfold tileUnder. cbn [Vector2.x Vector2.y].
  rewrite (floor_unique _ TILE_SIZE tileX), (floor_unique _ TILE_SIZE tileY);
    try reflexivity; unfold TILE_SIZE; lra.
Qed.

Lemma spawnTileOk_free (map : Grid) (doors : list DoorConfig.t)
    (isGhost : bool) (tileX tileY : Z) (offX offY : Q) :
  (0 <= offX)%Q -> (offX < 32)%Q -> (0 <= offY)%Q -> (offY < 32)%Q ->
  let p := Vector2.mk (inject_Z tileX * TILE_SIZE + offX)%Q
                      (inject_Z tileY * TILE_SIZE + offY)%Q in
  spawnTileOk map doors isGhost tileX tileY (Vector2.x p) (Vector2.y p) = true ->
  if isGhost then tileUnder map p <> Some "#"%char
  else (tileUnder map p = Some "."%char \/ tileUnder map p = Some " "%char)
       /\ isWalkablePosition map doors (Vector2.x p) (Vector2.y p) = true.
Proof.
  intros X0 X1 Y0 Y1. cbv zeta. rewrite (tileUnder_offset map _ _ _ _ X0 X1 Y0 Y1).
  unfold spawnTileOk, tileIs. destruct isGhost.
  - intros H Ht. rewrite Ht in H. discriminate.
  - intros H. apply andb_true_iff in H. destruct H as [Ht Hw].
    split; [|exact Hw].
    destruct (tileAt map tileX tileY) as [c|]; [|discriminate].
    apply orb_true_iff in Ht. destruct Ht as [Ht|Ht];
      apply Ascii.eqb_eq in Ht; subst c; auto.
Qed.

Lemma firstShuffled_free (map : Grid) (doors : list DoorConfig.t)
    (isGhost : bool) (spawnerX spawnerY : Z) (rand : nat -> number) :
  unitRange rand ->
  forall directions n p,
    firstShuffled map doors isGhost spawnerX spawnerY rand n directions
    = Some (Some p) ->
    if isGhost then tileUnder map p <> Some "#"%char
    else (tileUnder map p = Some "."%char \/ tileUnder map p = Some " "%char)
         /\ isWalkablePosition map doors (Vector2.x p) (Vector2.y p) = true.
Proof.
  intros Hrand. induction directions as [|d rest IH]; intros n p H;
    cbn [firstShuffled] in H; [discriminate|].
  destruct (outOfBounds map (spawnerX + fst d) (spawnerY + snd d))
    as [[|]|]; [now apply (IH n)| |discriminate].
  cbv zeta in H.
  destruct (spawnTileOk map doors isGhost _ _ _ _) eqn:Eok;
    [|now apply (IH (S (S n)))].
  injection H as <-.
  destruct (Hrand n) as [A0 A1]. destruct (Hrand (S n)) as [B0 B1].
  apply (spawnTileOk_free map doors isGhost (spawnerX + fst d)
           (spawnerY + snd d)
           ((rand n * (4 # 10) + (3 # 10)) * TILE_SIZE)%Q
           ((rand (S n) * (4 # 10) + (3 # 10)) * TILE_SIZE)%Q);
    try (unfold TILE_SIZE; lra).
  exact Eok.
Qed.

Lemma firstFallback_free (map : Grid) (doors : list DoorConfig.t)
    (isGhost : bool) (spawnerX spawnerY : Z) :
  forall offsets p,
    firstFallback map doors isGhost spawnerX spawnerY offsets = Some (Some p) ->
    if isGhost then tileUnder map p <> Some "#"%char
    else (tileUnder map p = Some "."%char \/ tileUnder map p = Some " "%char)
         /\ isWalkablePosition map doors (Vector2.x p) (Vector2.y p) = true.
Proof.
  induction offsets as [|d rest IH]; intros p H;
    cbn [firstFallback] in H; [discriminate|].
  destruct (outOfBounds map (spawnerX + fst d) (spawnerY + snd d))
    as [[|]|]; [now apply IH| |discriminate].
  cbv zeta in H.
  destruct (spawnTileOk map doors isGhost _ _ _ _) eqn:Eok; [|now apply IH].
  injection H as <-.
  apply (spawnTileOk_free map doors isGhost (spawnerX + fst d)
           (spawnerY + snd d) (TILE_SIZE / 2)%Q (TILE_SIZE / 2)%Q);
    try (vm_compute; first [reflexivity | discriminate]).
  exact Eok.
Qed.

(** X27. A spawner puts its enemy on a free tile or, as the last resort,
    on its own centre: with every number drawn in the range of
    [Math.random()], the position that [findValidSpawnPosition] returns is
    the centre of the spawner's tile, or, for a ghost, a position whose
    tile is not a wall and, for a grunt, a position on a floor tile that
    [isWalkablePosition] accepts; this holds in whatever order the
    directions are tried. *)
Theorem spawn_position_is_free_or_last_resort (map : Grid)
    (doors : list DoorConfig.t) (shuffledDirections : list (Z * Z))
    (rand : nat -> number) (spawnerX spawnerY : Z) (isGhost : bool)
    (p : Vector2.t) :
  unitRange rand ->
  findValidSpawnPosition map doors shuffledDirections rand spawnerX spawnerY
    isGhost = Some p ->
  p = spawnerCentre spawnerX spawnerY
  \/ (if isGhost then tileUnder map p <> Some "#"%char
      else (tileUnder map p = Some "."%char \/ tileUnder map p = Some " "%char)
           /\ isWalkablePosition map doors (Vector2.x p) (Vector2.y p) = true).
Proof.
  intros Hrand H. unfold findValidSpawnPosition in H.
  destruct (firstShuffled map doors isGhost spawnerX spawnerY rand 0
              shuffledDirections) as [[q|]|] eqn:E1; [| |discriminate].
  - injection H as <-. right.
    exact (firstShuffled_free map doors isGhost spawnerX spawnerY rand Hrand
             _ _ _ E1).
  - destruct (firstFallback map doors isGhost spawnerX spawnerY
                fallbackOffsets) as [[q|]|] eqn:E2; [| |discriminate].
    + injection H as <-. right.
      exact (firstFallback_free map doors isGhost spawnerX spawnerY _ _ E2).
    + injection H as <-. now left.
Qed.

Lemma spawn_position_is_free_or_last_resort_witness :
  exists p,
    findValidSpawnPosition bonePileRoom [] extendedDirections
      (fun _ => 1 # 2) 2 1 true = Some p
    /\ (p = spawnerCentre 2 1 \/ tileUnder bonePileRoom p <> Some "#"%char).
Proof.
  eexists. split; [vm_compute; reflexivity|].
  apply (spawn_position_is_free_or_last_resort bonePileRoom []
           extendedDirections (fun _ => 1 # 2) 2 1 true).
  - intros n. split; [discriminate | reflexivity].
  - vm_compute. reflexivity.
Defined.

(** Around the bone pile of the small room a ghost is put on the floor tile
    to its right; a grunt finds no tile it can stand on, its hit box
    reaching from either floor tile into the tile next to it, and is put on
    the bone pile itself. *)
Example spawn_positions_in_the_small_room :
  reduced (option_map (fun p => [p])
             (findValidSpawnPosition bonePileRoom [] extendedDirections
                (fun _ => 1 # 2) 2 1 true))
  = Some [(112, 48)]%Q
  /\ reduced (option_map (fun p => [p])
                (findValidSpawnPosition bonePileRoom [] extendedDirections
                   (fun _ => 1 # 2) 2 1 false))
     = Some [(80, 48)]%Q.
Proof. split; vm_compute; reflexivity. Qed.

(** ** Patrol points *)

Lemma patrolPoint_onFloor (this : EnemyAI.t) (map : Grid)
    (rand : nat -> number) (attempts : nat) :
  forall n p n',
    EnemyAI.patrolPoint this map rand n attempts = (Some p, n') ->
    onFloor this map p.
Proof.
  induction attempts as [|attempts IH]; intros n p n' H;
    cbn [EnemyAI.patrolPoint] in H; [discriminate|].
  cbv zeta in H.
  destruct (tileIs map _ _ ".") eqn:E; [|now apply (IH (S (S n)) p n')].
  injection H as <- _. exact E.
Qed.

Lemma patrolPoints_spec (this : EnemyAI.t) (map : Grid)
    (rand : nat -> number) (count : nat) :
  forall n points,
    Forall (onFloor this map) points ->
    Forall (onFloor this map) (EnemyAI.patrolPoints this map rand n count points)
    /\ (length (EnemyAI.patrolPoints this map rand n count points)
        <= length points + count)%nat.
Proof.
  induction count as [|count IH]; intros n points Hall;
    cbn [EnemyAI.patrolPoints].
  - split; [exact Hall | lia].
  - destruct (EnemyAI.patrolPoint this map rand n 50) as [[p|] n'] eqn:E.
    + destruct (IH n' (points ++ [p])) as [I1 I2].
      { apply Forall_app. split; [exact Hall|].
        constructor; [|constructor]. exact (patrolPoint_onFloor _ _ _ _ _ _ _ E). }
      split; [exact I1|]. rewrite length_app in I2. cbn [length] in I2. lia.
    + destruct (IH n' points Hall) as [I1 I2]. split; [exact I1 | lia].
Qed.

(** X28. [generatePatrolPoints] never returns an empty list: with the
    first number drawn in the range of [Math.random()] it returns at most
    five points, each on a floor tile, or, when fifty draws per point found
    none, the start position alone. *)
Theorem patrol_points_are_never_empty (this : EnemyAI.t)
    (startPosition : Vector2.t) (map : Grid) (rand : nat -> number) :
  (0 <= rand 0%nat)%Q -> (rand 0%nat < 1)%Q ->
  let points := EnemyAI.generatePatrolPoints this startPosition map rand in
  points <> []
  /\ (length points <= 5)%nat
  /\ (points = [startPosition] \/ Forall (onFloor this map) points).
Proof.
  intros H0 H1. cbv zeta. unfold EnemyAI.generatePatrolPoints. cbv zeta.
  assert (Hnum : 3 + Math_floor (rand 0%nat * 3) <= 5).
  { assert (Math_floor (rand 0%nat * 3) < 3); [|lia].
    unfold Math_floor.
    assert (Hlt : (rand 0%nat * 3 < inject_Z 3)%Q).
    { change (inject_Z 3) with 3%Q. lra. }
    pose proof (Qfloor_le (rand 0%nat * 3)) as Hf.
    assert (Hq : (inject_Z (Qfloor (rand 0%nat * 3)) < inject_Z 3)%Q)
      by (eapply Qle_lt_trans; eauto).
    now rewrite <- Zlt_Qlt in Hq. }
  destruct (patrolPoints_spec this map rand
              (Z.to_nat (3 + Math_floor (rand 0%nat * 3))) 1 []
              (List.Forall_nil _)) as [Hall Hlen].
  cbn [length] in Hlen.
  destruct (EnemyAI.patrolPoints this map rand 1 _ []) as [|p points].
  - split; [discriminate|]. split; [cbn; lia | now left].
  - split; [discriminate|]. split; [lia | now right].
Qed.

Lemma patrol_points_are_never_empty_witness :
  EnemyAI.generatePatrolPoints EnemyAI.initial (Vector2.mk 48 48) room
    (fun _ => 1 # 2) <> [].
Proof.
  apply (patrol_points_are_never_empty EnemyAI.initial (Vector2.mk 48 48) room
           (fun _ => 1 # 2)).
  - discriminate.
  - reflexivity.
Defined.
